(** * AI City Builder: request engine, speech coordinator and disaster service

    A shallow embedding of three parts of the simulation core:
    - [RequestEngine]      (scripts/ai/request-engine.ts, state-machine version),
    - [SpeechCoordinator]  (speech-coordinator module, same file),
    - [DisasterService]    (scripts/sim, disaster service and tile).

    JavaScript numbers are modelled exactly: counters, tick counts and
    millisecond clocks as [Z], fractional quantities (happiness, recovery
    progress, cooldown, [Math.random()] draws) as rationals [Q].  Rounding of
    IEEE doubles is therefore not part of the model; where a tick count hangs
    on it (the accelerated recovery), the binary64 computation is evaluated
    next to the exact one. *)

From Stdlib Require Import ZArith QArith Qminmax Qround String DecimalString List FinFun Bool Lia.
From Stdlib Require Import PrimFloat.
From Stdlib Require Import Lqa Permutation.
Import ListNotations.

Local Open Scope Z_scope.

(** ** Numbers *)

Definition Qltb (x y : Q) : bool := negb (Qle_bool y x).

(** [Math.random()] returns a number in [0,1). *)
Definition validDraw (r : Q) : Prop := (0 <= r)%Q /\ (r < 1)%Q.

(** [Math.floor(r * n)] for a draw [r] of [Math.random()]. *)
Definition randomIndex (r : Q) (n : nat) : nat :=
  Z.to_nat (Qfloor (r * inject_Z (Z.of_nat n))).

(** The loop [for x in 0..n-1]. *)
Definition range (n : Z) : list Z := map Z.of_nat (seq 0 (Z.to_nat n)).

(** The nested loops [for x < size; for y < size], in visiting order. *)
Definition coords (n : Z) : list (Z * Z) :=
  flat_map (fun x => map (fun y => (x, y)) (range n)) (range n).

(** ** The world: city, tiles, buildings *)

Module World.

Inductive BuildingType :=
| residential | commercial | industrial | road | power_plant | power_line
| other_type.

Definition BuildingType_eqb (a b : BuildingType) : bool :=
  match a, b with
  | residential, residential | commercial, commercial
  | industrial, industrial | road, road
  | power_plant, power_plant | power_line, power_line
  | other_type, other_type => true
  | _, _ => false
  end.

(** A citizen, reduced to the truthiness of its [job] field. *)
Record Citizen := { job : bool }.

Record Residents := {
  maxCount : option Z;
  count : option Z;
  residentsList : option (list Citizen)
}.

Record Building := {
  type : BuildingType;
  powered : bool;
  residents : option Residents
}.

(** Tile (scripts/sim/tile.js): the simulation fields. *)
Record Tile := {
  building : option Building;
  damaged : bool;
  recoveryProgress : Q;
  activeRecovery : bool
}.

(** Modelled from the spec: the City class is not among the sources; the
    world exposes a square grid of side [size] read per tile through
    [getTile], the population, the happiness score (possibly still unset) and
    the simulation clock.  [getTileNeighbors] returns tiles of the same grid;
    which positions count as neighbours is left to the city
    ([neighborCoords]). *)
Record City := {
  size : Z;
  tiles : Z -> Z -> option Tile;
  neighborCoords : Z -> Z -> list (Z * Z);
  population : Z;
  happiness : option Q;
  simTime : Z
}.

Definition getTile (c : City) (x y : Z) : option Tile := tiles c x y.

Definition setTile (c : City) (x y : Z) (t : Tile) : City :=
  {| size := size c;
     tiles := fun x' y' => if (x' =? x) && (y' =? y) then Some t else tiles c x' y';
     neighborCoords := neighborCoords c;
     population := population c;
     happiness := happiness c;
     simTime := simTime c |}.

Definition setHappiness (c : City) (h : Q) : City :=
  {| size := size c; tiles := tiles c; neighborCoords := neighborCoords c;
     population := population c; happiness := Some h; simTime := simTime c |}.

Definition getTileNeighbors (c : City) (x y : Z) : list (option Tile) :=
  map (fun xy => getTile c (fst xy) (snd xy)) (neighborCoords c x y).

(** Modelled from the spec: [city.bulldoze(x, y)] belongs to the City class,
    which is not among the sources; it demolishes the building standing on
    the tile and leaves the tile itself, and every other tile, in place. *)
Definition bulldoze (c : City) (x y : Z) : City :=
  match getTile c x y with
  | Some t =>
    setTile c x y {| building := None; damaged := damaged t;
                     recoveryProgress := recoveryProgress t;
                     activeRecovery := activeRecovery t |}
  | None => c
  end.

(** [tile?.building] *)
Definition buildingAt (c : City) (x y : Z) : option Building :=
  match getTile c x y with
  | Some t => building t
  | None => None
  end.

End World.

(** ** RequestEngine: the single-slot state machine *)

Module RequestEngine.
Import World.

Inductive EnginePhase := idle | request_active | settling | evaluating.

Inductive RequestType := housing | jobs | power | road | commerce.

Inductive RequestStatus := active | fulfilled | expired.

Inductive NotifyKind := new | fulfilled_kind | failed.

Definition isActive (s : RequestStatus) : bool :=
  match s with active => true | _ => false end.

Record CitySnapshot := {
  unpoweredCount : Z;
  residentialCapacity : Z;
  population : Z;
  totalResidents : Z;
  employed : Z;
  commercialCount : Z;
  industrialCount : Z;
  residentialCount : Z;
  powerPlantCount : Z;
  powerLineCount : Z;
  roadCount : Z;
  noRoadAccess : Z
}.

Record CitizenRequest := {
  id : string;
  citizenName : string;
  type : RequestType;
  message : string;
  createdAt : Z;
  status : RequestStatus
}.

Record Notification := {
  n_message : string;
  n_type : NotifyKind;
  n_spokenText : option string
}.

Definition CITIZEN_NAMES : list string :=
  [ "Tanaka"; "Suzuki"; "Yamamoto"; "Sato"; "Watanabe";
    "Ito"; "Nakamura"; "Kobayashi"; "Kato"; "Yoshida";
    "Yamada"; "Sasaki"; "Takahashi"; "Matsumoto"; "Inoue";
    "Kimura"; "Shimizu"; "Hayashi"; "Saito"; "Mori" ]%string.

(** [CITIZEN_NAMES[Math.floor(Math.random() * CITIZEN_NAMES.length)]] *)
Definition randomName (r : Q) : string :=
  nth (randomIndex r (length CITIZEN_NAMES)) CITIZEN_NAMES EmptyString.

(** Expiry timeout: 90 seconds *)
Definition EXPIRY_MS : Z := 90 * 1000.
(** How many sim ticks to wait in settling phase *)
Definition SETTLE_TICKS : Z := 3.

(** What one entry into the engine observes of its environment: the clock
    [Date.now()], the [Math.random()] draws in the order the code makes them,
    the identifier [generateId()] builds from clock and randomness, and
    whether the registered callback, when [evaluate] calls it on this entry,
    throws before it returns ([callback_throws]) or returns the value that
    is awaited. *)
Record Env := {
  now : Z;
  rnd_problem : Q;
  rnd_name : Q;
  rnd_jitter : Q;
  fresh_id : string;
  callback_throws : bool
}.

(** The engine object.  [currentRequest] is a reference to an object that
    also sits in [requests]: it is kept as the position of that object in the
    append-only array, so a status written through [currentRequest] is seen
    by [getActiveRequests].  [expiryTimeoutId] holds the deadline of the
    armed timer.  [evaluateFn] records whether a callback is registered and
    [evaluatePending] whether [evaluate] is suspended at its [await]. *)
Record Engine := {
  phase : EnginePhase;
  currentRequest : option nat;
  snapshotBefore : option CitySnapshot;
  settleTicksRemaining : Z;
  expiryTimeoutId : option Z;
  requests : list CitizenRequest;
  lastIdleTime : Z;
  nextCooldownMs : Q;
  evaluateFn : bool;
  evaluatePending : bool
}.

Definition initial : Engine :=
  {| phase := idle; currentRequest := None; snapshotBefore := None;
     settleTicksRemaining := 0; expiryTimeoutId := None; requests := [];
     lastIdleTime := 0; nextCooldownMs := 20000%Q;
     evaluateFn := false; evaluatePending := false |}.

Definition setStatus (st : RequestStatus) (r : CitizenRequest) : CitizenRequest :=
  {| id := id r; citizenName := citizenName r; type := type r;
     message := message r; createdAt := createdAt r; status := st |}.

(** [obj.status = st] for the object at position [i] of the array. *)
Fixpoint writeStatus (i : nat) (st : RequestStatus) (l : list CitizenRequest)
  : list CitizenRequest :=
  match l, i with
  | [], _ => []
  | r :: l', O => setStatus st r :: l'
  | r :: l', S i' => r :: writeStatus i' st l'
  end.

(** The request object [currentRequest] points to. *)
Definition getCurrentRequest (e : Engine) : option CitizenRequest :=
  match currentRequest e with
  | Some i => nth_error (requests e) i
  | None => None
  end.

(** Return active requests (0 or 1). *)
Definition getActiveRequests (e : Engine) : list CitizenRequest :=
  filter (fun r => isActive (status r)) (requests e).

Definition getPhase (e : Engine) : EnginePhase := phase e.

(** [n?.building?.type === 'road'] *)
Definition isRoadTile (n : option Tile) : bool :=
  match n with
  | Some t => match building t with
              | Some b => BuildingType_eqb (World.type b) World.road
              | None => false
              end
  | None => false
  end.

Definition emptySnapshot (pop : Z) : CitySnapshot :=
  {| unpoweredCount := 0; residentialCapacity := 0; population := pop;
     totalResidents := 0; employed := 0; commercialCount := 0;
     industrialCount := 0; residentialCount := 0; powerPlantCount := 0;
     powerLineCount := 0; roadCount := 0; noRoadAccess := 0 |}.

Definition b2z (b : bool) : Z := if b then 1 else 0.

(** [b.residents?.maxCount ?? 4] *)
Definition maxCountOr4 (b : Building) : Z :=
  match residents b with
  | Some r => match maxCount r with Some m => m | None => 4 end
  | None => 4
  end.

(** [b.residents?.count ?? 0] *)
Definition countOr0 (b : Building) : Z :=
  match residents b with
  | Some r => match count r with Some m => m | None => 0 end
  | None => 0
  end.

(** [b.residents?.list?.filter(c => c.job)?.length ?? 0] *)
Definition employedOr0 (b : Building) : Z :=
  match residents b with
  | Some r => match residentsList r with
              | Some l => Z.of_nat (length (filter job l))
              | None => 0
              end
  | None => 0
  end.

(** The body of the double loop of [captureSnapshot] for one tile. *)
Definition snapshotTile (c : City) (acc : CitySnapshot) (xy : Z * Z) : CitySnapshot :=
  let (x, y) := xy in
  match buildingAt c x y with
  | None => acc
  | Some b =>
    let ty := World.type b in
    let isT t := BuildingType_eqb ty t in
    let unp := negb (powered b) && negb (isT World.road) && negb (isT power_plant)
               && negb (isT power_line) in
    let res := isT residential in
    let com := negb res && isT commercial in
    let ind := negb res && negb (isT commercial) && isT industrial in
    let noRoad := negb (isT World.road) && negb (isT power_line)
                  && negb (existsb isRoadTile (getTileNeighbors c x y)) in
    {| unpoweredCount := unpoweredCount acc + b2z unp;
       residentialCapacity :=
         residentialCapacity acc + (if res then maxCountOr4 b else 0);
       population := population acc;
       totalResidents := totalResidents acc + (if res then countOr0 b else 0);
       employed := employed acc + (if res then employedOr0 b else 0);
       commercialCount := commercialCount acc + b2z com;
       industrialCount := industrialCount acc + b2z ind;
       residentialCount := residentialCount acc + b2z res;
       powerPlantCount := powerPlantCount acc + b2z (isT power_plant);
       powerLineCount := powerLineCount acc + b2z (isT power_line);
       roadCount := roadCount acc + b2z (isT World.road);
       noRoadAccess := noRoadAccess acc + b2z noRoad |}
  end.

Definition captureSnapshot (c : City) : CitySnapshot :=
  fold_left (snapshotTile c) (coords (size c)) (emptySnapshot (World.population c)).

(** [detectProblems], as a function of the snapshot it captures first. *)
Definition detectProblemsOf (snap : CitySnapshot) : list RequestType :=
  (if (0 <? population snap)
      && Qltb (inject_Z (residentialCapacity snap) * 0.8) (inject_Z (population snap))
   then [housing] else [])
  ++ (if (0 <? totalResidents snap) && (0 <? totalResidents snap - employed snap)
         && (commercialCount snap + industrialCount snap <? residentialCount snap)
      then [jobs] else [])
  ++ (if 0 <? unpoweredCount snap then [power] else [])
  ++ (if 0 <? noRoadAccess snap then [road] else [])
  ++ (if (0 <? residentialCount snap)
         && Qltb (inject_Z (commercialCount snap))
                 (inject_Z (residentialCount snap) * 0.3)
      then [commerce] else []).

Definition detectProblems (c : City) : list RequestType :=
  detectProblemsOf (captureSnapshot c).

Definition messages (p : RequestType) : string :=
  match p with
  | housing => "もっと家が必要です！新しい住宅を建ててください。"
  | jobs => "仕事が見つかりません...工場かお店を建ててもらえませんか？"
  | power => "停電が続いています。発電所と送電線をお願いします！"
  | road => "道路がなくて不便です。道路を整備してください！"
  | commerce => "買い物できる場所が少ないです。商業施設を増やしてください！"
  end%string.

Definition createRequest (env : Env) (problem : RequestType) : CitizenRequest :=
  {| id := fresh_id env;
     citizenName := randomName (rnd_name env);
     type := problem;
     message := messages problem;
     createdAt := now env;
     status := active |}.

(** [city.happiness ?? 50] *)
Definition happinessOr50 (c : City) : Q :=
  match happiness c with Some h => h | None => 50%Q end.

(** [computeNextCooldown], in exact arithmetic; [computeNextCooldown64]
    below is its arithmetic as binary64 evaluates it. *)
Definition computeNextCooldown (c : City) (rnd : Q) : Q :=
  let snap := captureSnapshot c in
  let happiness := happinessOr50 c in
  let problems := detectProblems c in
  let cooldown := 25000%Q in
  let cooldown := (cooldown - ((100 - happiness) / 100) * 8000)%Q in
  let cooldown :=
    (cooldown - Qmin (inject_Z (Z.of_nat (length problems)) * 2000) 10000)%Q in
  let cooldown := (cooldown - Qmin (inject_Z (population snap) * 170) 5000)%Q in
  let cooldown := (cooldown + (rnd - 0.5) * 8000)%Q in
  Qmax 8000 (Qmin 40000 cooldown).

(** The arithmetic of [computeNextCooldown] in binary64, as JavaScript
    evaluates it, on the happiness, the number of problems, the population
    and the draw; [Math.min] and [Math.max] on numbers that are not NaN. *)
Definition min64 (a b : PrimFloat.float) : PrimFloat.float :=
  if PrimFloat.ltb a b then a else b.

Definition max64 (a b : PrimFloat.float) : PrimFloat.float :=
  if PrimFloat.ltb a b then b else a.

Definition computeNextCooldown64 (happiness problems population rnd : PrimFloat.float)
  : PrimFloat.float :=
  let cooldown := 25000%float in
  let cooldown := (cooldown - ((100 - happiness) / 100) * 8000)%float in
  let cooldown := (cooldown - min64 (problems * 2000) 10000)%float in
  let cooldown := (cooldown - min64 (population * 170) 5000)%float in
  let cooldown := (cooldown + (rnd - 0.5) * 8000)%float in
  max64 8000 (min64 40000 cooldown).

Definition transitionToIdle (env : Env) (c : City) (e : Engine) : Engine :=
  {| phase := idle;
     currentRequest := currentRequest e;
     snapshotBefore := snapshotBefore e;
     settleTicksRemaining := settleTicksRemaining e;
     expiryTimeoutId := expiryTimeoutId e;
     requests := requests e;
     lastIdleTime := now env;
     nextCooldownMs := computeNextCooldown c (rnd_jitter env);
     evaluateFn := evaluateFn e;
     evaluatePending := evaluatePending e |}.

Definition withPhase (p : EnginePhase) (e : Engine) : Engine :=
  {| phase := p;
     currentRequest := currentRequest e;
     snapshotBefore := snapshotBefore e;
     settleTicksRemaining := settleTicksRemaining e;
     expiryTimeoutId := expiryTimeoutId e;
     requests := requests e;
     lastIdleTime := lastIdleTime e;
     nextCooldownMs := nextCooldownMs e;
     evaluateFn := evaluateFn e;
     evaluatePending := evaluatePending e |}.

Definition withSettleTicks (n : Z) (e : Engine) : Engine :=
  {| phase := phase e;
     currentRequest := currentRequest e;
     snapshotBefore := snapshotBefore e;
     settleTicksRemaining := n;
     expiryTimeoutId := expiryTimeoutId e;
     requests := requests e;
     lastIdleTime := lastIdleTime e;
     nextCooldownMs := nextCooldownMs e;
     evaluateFn := evaluateFn e;
     evaluatePending := evaluatePending e |}.

Definition withPending (b : bool) (e : Engine) : Engine :=
  {| phase := phase e;
     currentRequest := currentRequest e;
     snapshotBefore := snapshotBefore e;
     settleTicksRemaining := settleTicksRemaining e;
     expiryTimeoutId := expiryTimeoutId e;
     requests := requests e;
     lastIdleTime := lastIdleTime e;
     nextCooldownMs := nextCooldownMs e;
     evaluateFn := evaluateFn e;
     evaluatePending := b |}.

(** [this.currentRequest = null; this.snapshotBefore = null] *)
Definition clearRequest (e : Engine) : Engine :=
  {| phase := phase e;
     currentRequest := None;
     snapshotBefore := None;
     settleTicksRemaining := settleTicksRemaining e;
     expiryTimeoutId := expiryTimeoutId e;
     requests := requests e;
     lastIdleTime := lastIdleTime e;
     nextCooldownMs := nextCooldownMs e;
     evaluateFn := evaluateFn e;
     evaluatePending := evaluatePending e |}.

Definition setEvaluateFn (e : Engine) : Engine :=
  {| phase := phase e;
     currentRequest := currentRequest e;
     snapshotBefore := snapshotBefore e;
     settleTicksRemaining := settleTicksRemaining e;
     expiryTimeoutId := expiryTimeoutId e;
     requests := requests e;
     lastIdleTime := lastIdleTime e;
     nextCooldownMs := nextCooldownMs e;
     evaluateFn := true;
     evaluatePending := evaluatePending e |}.

(** The outcome of one entry into the engine: the engine, the city (whose
    happiness the engine writes) and the notifications passed to [notify]. *)
Definition Outcome : Type := Engine * City * list Notification.

Definition tryGenerateRequest (env : Env) (c : City) (e : Engine) : Outcome :=
  if Qltb (inject_Z (now env - lastIdleTime e)) (nextCooldownMs e) then (e, c, [])
  else
    let problems := detectProblems c in
    match problems with
    | [] => (e, c, [])
    | _ :: _ =>
      (* the index is inside the array for every draw in [0,1) *)
      match nth_error problems (randomIndex (rnd_problem env) (length problems)) with
      | None => (e, c, [])
      | Some problem =>
        let request := createRequest env problem in
        ({| phase := request_active;
            currentRequest := Some (length (requests e));
            snapshotBefore := Some (captureSnapshot c);
            settleTicksRemaining := settleTicksRemaining e;
            expiryTimeoutId := Some (now env + EXPIRY_MS);
            requests := requests e ++ [request];
            lastIdleTime := lastIdleTime e;
            nextCooldownMs := nextCooldownMs e;
            evaluateFn := evaluateFn e;
            evaluatePending := evaluatePending e |},
         c,
         [ {| n_message := "[市民リクエスト] " ++ citizenName request ++ ": 「"
                           ++ message request ++ "」";
              n_type := new;
              n_spokenText := Some (message request) |} ])
      end
    end.

Definition expireRequest (env : Env) (c : City) (e : Engine) : Outcome :=
  match phase e, currentRequest e with
  | request_active, Some i =>
    let name := match nth_error (requests e) i with
                | Some r => citizenName r
                | None => EmptyString
                end in
    let e1 :=
      {| phase := phase e;
         currentRequest := None;
         snapshotBefore := None;
         settleTicksRemaining := settleTicksRemaining e;
         expiryTimeoutId := None;
         requests := writeStatus i expired (requests e);
         lastIdleTime := lastIdleTime e;
         nextCooldownMs := nextCooldownMs e;
         evaluateFn := evaluateFn e;
         evaluatePending := evaluatePending e |} in
    (transitionToIdle env c e1, c,
     [ {| n_message := "[期限切れ] " ++ name ++ " のリクエストが期限切れになりました。";
          n_type := failed;
          n_spokenText := None |} ])
  | _, _ => (e, c, [])
  end.

Definition computeHappinessDelta (request : CitizenRequest)
    (before after : CitySnapshot) : Z :=
  match type request with
  | housing =>
    if residentialCapacity before <? residentialCapacity after then 10 else -2
  | jobs =>
    if commercialCount before + industrialCount before
       <? commercialCount after + industrialCount after then 10 else -2
  | power =>
    if (powerPlantCount before <? powerPlantCount after)
       || (powerLineCount before <? powerLineCount after)
       || (unpoweredCount after <? unpoweredCount before) then 10 else -2
  | road =>
    if (roadCount before <? roadCount after)
       || (noRoadAccess after <? noRoadAccess before) then 10 else -2
  | commerce =>
    if commercialCount before <? commercialCount after then 10 else -2
  end.

(** [Math.max(0, Math.min(100, (city.happiness ?? 50) + delta))] *)
Definition applyDelta (c : City) (delta : Z) : Q :=
  Qmax 0 (Qmin 100 (happinessOr50 c + inject_Z delta)).

(** [delta >= 0 ? `+${delta}` : `${delta}`] *)
Definition deltaStr (delta : Z) : string :=
  if 0 <=? delta then "+" ++ NilZero.string_of_int (Z.to_int delta)
  else NilZero.string_of_int (Z.to_int delta).

(** The part of [evaluate] after its [await]. *)
Definition evaluateReturns (env : Env) (c : City) (e : Engine) : Engine :=
  transitionToIdle env c (clearRequest (withPending false e)).

(** [evaluate], up to its [await].  Without a registered callback there is
    no [await] and the body runs to its end at once; so it does when the
    call of the callback throws, which the [try] around the [await]
    catches before anything is awaited. *)
Definition evaluate (env : Env) (c : City) (e : Engine) : Outcome :=
  match getCurrentRequest e, snapshotBefore e with
  | Some request, Some before =>
    let after := captureSnapshot c in
    let delta := computeHappinessDelta request before after in
    let c' := setHappiness c (applyDelta c delta) in
    let note :=
      {| n_message := "✅ " ++ citizenName request
                      ++ " のリクエストが完了しました！ (幸福度 " ++ deltaStr delta ++ ")";
         n_type := fulfilled_kind;
         n_spokenText := None |} in
    if evaluateFn e then
      if callback_throws env then (evaluateReturns env c' e, c', [note])
      else (withPending true e, c', [note])
    else (evaluateReturns env c' e, c', [note])
  | _, _ => (transitionToIdle env c e, c, [])
  end.

(** Called every sim tick by the game loop. Drives the state machine. *)
Definition onCityChanged (env : Env) (c : City) (e : Engine) : Outcome :=
  match phase e with
  | idle => tryGenerateRequest env c e
  | settling =>
    let e1 := withSettleTicks (settleTicksRemaining e - 1) e in
    if settleTicksRemaining e1 <=? 0 then evaluate env c (withPhase evaluating e1)
    else (e1, c, [])
  | request_active | evaluating => (e, c, [])
  end.

(** Called by the mayor after construction is complete. *)
Definition markResolved (e : Engine) : Engine :=
  match phase e, currentRequest e with
  | request_active, Some i =>
    {| phase := settling;
       currentRequest := currentRequest e;
       snapshotBefore := snapshotBefore e;
       settleTicksRemaining := SETTLE_TICKS;
       expiryTimeoutId := None;
       requests := writeStatus i fulfilled (requests e);
       lastIdleTime := lastIdleTime e;
       nextCooldownMs := nextCooldownMs e;
       evaluateFn := evaluateFn e;
       evaluatePending := evaluatePending e |}
  | _, _ => e
  end.

(** *** checkRequestStatus *)

(** The numbers the [detail] text reports. *)
Inductive Detail :=
| NoActiveRequest
| DetailHousing (population capacity : Z)
| DetailJobs (commercial industrial residential : Z)
| DetailPower (unpowered plants lines : Z)
| DetailRoad (noRoad roads : Z)
| DetailCommerce (commercial residential : Z).

(** The [suggestion] text, by template and the numbers it carries;
    [NoSuggestion] is the empty string. *)
Inductive Suggestion :=
| NoSuggestion
| MoreHouses (needed population capacity : Z)
| MoreWorkplaces (needed residential workplaces : Z)
| NoPowerPlant
| MorePowerLines (unpowered : Z)
| MoreRoads (noRoad : Z)
| MoreCommerce (needed residential commercial : Z).

Record RequestStatusResult := {
  resolved : bool;
  request : option CitizenRequest;
  detail : Detail;
  suggestion : Suggestion
}.

(** The local [ideal] of each case of the switch. *)
Definition ideal (ty : RequestType) (now : CitySnapshot) : bool :=
  match ty with
  | housing =>
    (population now =? 0) || (population now <=? residentialCapacity now)
  | jobs => residentialCount now <=? commercialCount now + industrialCount now
  | power => unpoweredCount now =? 0
  | road => noRoadAccess now =? 0
  | commerce =>
    Qle_bool (inject_Z (residentialCount now) * 0.3) (inject_Z (commercialCount now))
  end.

(** The local [progress] of each case of the switch. *)
Definition progress (ty : RequestType) (before : option CitySnapshot)
    (now : CitySnapshot) : bool :=
  match before with
  | None => false
  | Some before =>
    match ty with
    | housing => residentialCapacity before <? residentialCapacity now
    | jobs =>
      commercialCount before + industrialCount before
      <? commercialCount now + industrialCount now
    | power =>
      (powerPlantCount before <? powerPlantCount now)
      || (powerLineCount before <? powerLineCount now)
    | road => roadCount before <? roadCount now
    | commerce => commercialCount before <? commercialCount now
    end
  end.

Definition detailOf (ty : RequestType) (now : CitySnapshot) : Detail :=
  match ty with
  | housing => DetailHousing (population now) (residentialCapacity now)
  | jobs => DetailJobs (commercialCount now) (industrialCount now) (residentialCount now)
  | power => DetailPower (unpoweredCount now) (powerPlantCount now) (powerLineCount now)
  | road => DetailRoad (noRoadAccess now) (roadCount now)
  | commerce => DetailCommerce (commercialCount now) (residentialCount now)
  end.

Definition suggestionOf (ty : RequestType) (now : CitySnapshot) : Suggestion :=
  match ty with
  | housing =>
    MoreHouses
      (Qceiling (inject_Z (population now - residentialCapacity now) / 4) + 1)
      (population now) (residentialCapacity now)
  | jobs =>
    let workplaces := commercialCount now + industrialCount now in
    MoreWorkplaces (residentialCount now - workplaces) (residentialCount now) workplaces
  | power =>
    if powerPlantCount now =? 0 then NoPowerPlant
    else MorePowerLines (unpoweredCount now)
  | road => MoreRoads (noRoadAccess now)
  | commerce =>
    MoreCommerce
      (Qceiling (inject_Z (residentialCount now) * 0.3) - commercialCount now)
      (residentialCount now) (commercialCount now)
  end.

Definition checkRequestStatus (c : City) (e : Engine) : RequestStatusResult :=
  match getCurrentRequest e, phase e with
  | Some req, request_active =>
    let now := captureSnapshot c in
    let before := snapshotBefore e in
    let resolved := ideal (type req) now || progress (type req) before now in
    {| resolved := resolved;
       request := Some req;
       detail := detailOf (type req) now;
       suggestion := if resolved then NoSuggestion else suggestionOf (type req) now |}
  | _, _ =>
    {| resolved := false; request := None;
       detail := NoActiveRequest; suggestion := NoSuggestion |}
  end.

(** *** The engine under its callers

    The game loop calls [onCityChanged] on every tick, the mayor's tool calls
    [markResolved], the expiry timer calls [expireRequest] and the awaited
    callback lets [evaluate] run to its end.  Between two entries the world
    may have changed in any way, so every entry comes with its own city. *)

Inductive Event :=
| Tick
| MarkResolved
| ExpiryFires
| EvaluateFnSettles
| SetEvaluateFn.

Definition step (ev : Event) (env : Env) (c : City) (e : Engine) : Outcome :=
  match ev with
  | Tick => onCityChanged env c e
  | MarkResolved => (markResolved e, c, [])
  | ExpiryFires => expireRequest env c e
  | EvaluateFnSettles =>
    if evaluatePending e then (evaluateReturns env c e, c, []) else (e, c, [])
  | SetEvaluateFn => (setEvaluateFn e, c, [])
  end.

Definition engineOf (o : Outcome) : Engine := fst (fst o).
Definition cityOf (o : Outcome) : City := snd (fst o).
Definition notesOf (o : Outcome) : list Notification := snd o.

Inductive reachable : Engine -> Prop :=
| reachable_initial : reachable initial
| reachable_step (ev : Event) (env : Env) (c : City) (e : Engine) :
    reachable e -> reachable (engineOf (step ev env c e)).

End RequestEngine.

(** ** SpeechCoordinator: mayor and citizen voices must not overlap *)

Module SpeechCoordinator.

(** A waiter is the [resolve] function of one pending [waitForSilence()]
    promise; each call creates its own, so a waiter is named by a number. *)
Definition Waiter : Type := nat.

(** The module-level variables. *)
Record State := {
  mayorSpeaking : bool;
  citizenSpeaking : bool;
  waiters : list Waiter
}.

Definition initial : State :=
  {| mayorSpeaking := false; citizenSpeaking := false; waiters := [] |}.

(** Every operation returns the new variables and the waiters it resolves,
    in the order it calls them. *)
Definition Outcome : Type := State * list Waiter.

Definition flushWaiters (s : State) : Outcome :=
  if mayorSpeaking s || citizenSpeaking s then (s, [])
  else ({| mayorSpeaking := mayorSpeaking s;
           citizenSpeaking := citizenSpeaking s;
           waiters := [] |}, waiters s).

Definition setMayorSpeaking (speaking : bool) (s : State) : Outcome :=
  let s1 := {| mayorSpeaking := speaking;
               citizenSpeaking := citizenSpeaking s;
               waiters := waiters s |} in
  if negb speaking then flushWaiters s1 else (s1, []).

Definition setCitizenSpeaking (speaking : bool) (s : State) : Outcome :=
  let s1 := {| mayorSpeaking := mayorSpeaking s;
               citizenSpeaking := speaking;
               waiters := waiters s |} in
  if negb speaking then flushWaiters s1 else (s1, []).

Definition isMayorSpeaking (s : State) : bool := mayorSpeaking s.
Definition isCitizenSpeaking (s : State) : bool := citizenSpeaking s.

(** [waitForSilence()] for the promise named [w]: resolved at once in
    silence, otherwise queued (and its 10 s failsafe timer armed). *)
Definition waitForSilence (w : Waiter) (s : State) : Outcome :=
  if negb (mayorSpeaking s) && negb (citizenSpeaking s) then (s, [w])
  else ({| mayorSpeaking := mayorSpeaking s;
           citizenSpeaking := citizenSpeaking s;
           waiters := waiters s ++ [w] |}, []).

(** [waiters.indexOf(resolve)] *)
Fixpoint indexOf (w : Waiter) (l : list Waiter) : option nat :=
  match l with
  | [] => None
  | v :: l' => if Nat.eqb v w then Some O else option_map S (indexOf w l')
  end.

(** [waiters.splice(idx, 1)] *)
Fixpoint splice1 (idx : nat) (l : list Waiter) : list Waiter :=
  match l, idx with
  | [], _ => []
  | _ :: l', O => l'
  | v :: l', S i => v :: splice1 i l'
  end.

(** The callback of the failsafe timer of waiter [w], run 10 s after its
    [waitForSilence()] call. *)
Definition failsafe (w : Waiter) (s : State) : Outcome :=
  match indexOf w (waiters s) with
  | Some idx =>
    ({| mayorSpeaking := false;
        citizenSpeaking := false;
        waiters := splice1 idx (waiters s) |}, [w])
  | None => (s, [])
  end.

End SpeechCoordinator.

(** ** DisasterService: hazard trigger and per-tile recovery *)

Module DisasterService.
Import World.

(** [config.disaster] *)
Module cfg.
Definition minBuildingsForDisaster : Z := 8.
Definition minTicksBetweenDisasters : Z := 60.
Definition disasterChance : Q := 0.02.
Definition minAffectedSize : Z := 2.
Definition maxAffectedSize : Z := 3.
Definition minRecoveryTicks : Z := 300.
Definition maxRecoveryTicks : Z := 600.
Definition activeRecoveryMultiplier : Z := 5.
End cfg.

(** One entry of [affectedTiles].  Its [tile] field is a reference to the
    tile object of the grid at [(x, y)]; the model reads and writes that
    object through the city at these coordinates. *)
Record AffectedTile := {
  x : Z;
  y : Z;
  totalRecoveryTicks : Z
}.

Definition coordsOf (t : AffectedTile) : Z * Z := (x t, y t).

Record Disaster := {
  epicenterX : Z;
  epicenterY : Z;
  affectedTiles : list AffectedTile
}.

(** The service object; [lastDisasterTick = None] is [-Infinity], and the
    two callbacks are kept as whether they are registered. *)
Record Service := {
  activeDisaster : option Disaster;
  lastDisasterTick : option Z;
  notifyFn : bool;
  recoveryCompleteFn : bool
}.

Definition initial : Service :=
  {| activeDisaster := None; lastDisasterTick := None;
     notifyFn := false; recoveryCompleteFn := false |}.

Definition setNotifyFn (s : Service) : Service :=
  {| activeDisaster := activeDisaster s; lastDisasterTick := lastDisasterTick s;
     notifyFn := true; recoveryCompleteFn := recoveryCompleteFn s |}.

Definition setRecoveryCompleteFn (s : Service) : Service :=
  {| activeDisaster := activeDisaster s; lastDisasterTick := lastDisasterTick s;
     notifyFn := notifyFn s; recoveryCompleteFn := true |}.

(** The argument of the notify callback. *)
Record Notice := {
  n_epicenterX : Z;
  n_epicenterY : Z;
  affectedTileCount : Z;
  destroyedBuildingCount : Z
}.

(** Calls made to the registered callbacks. *)
Inductive Emitted :=
| DisasterNotice (info : Notice)
| RecoveryComplete.

(** The [Math.random()] draws of one simulation step, in program order; the
    tile loop of [triggerDisaster] takes [rnd_recovery k] for the [k]-th tile
    it records. *)
Record Draws := {
  rnd_chance : Q;
  rnd_epicenter : Q;
  rnd_sizeX : Q;
  rnd_sizeY : Q;
  rnd_recovery : nat -> Q
}.

Definition Outcome : Type := Service * City * list Emitted.

Definition serviceOf (o : Outcome) : Service := fst (fst o).
Definition cityOf (o : Outcome) : City := snd (fst o).
Definition emittedOf (o : Outcome) : list Emitted := snd o.

Definition hasBuilding (c : City) (xy : Z * Z) : bool :=
  match buildingAt c (fst xy) (snd xy) with Some _ => true | None => false end.

(** The positions [{x, y}] of the tiles that hold a building, in loop order. *)
Definition buildingTiles (c : City) : list (Z * Z) :=
  filter (hasBuilding c) (coords (size c)).

Definition buildingCount (c : City) : Z := Z.of_nat (length (buildingTiles c)).

(** The loop [for v = lo; v <= hi; v++]. *)
Definition fromTo (lo hi : Z) : list Z :=
  map (fun i => lo + Z.of_nat i) (seq 0 (Z.to_nat (hi - lo + 1))).

(** The positions of the extent, in the order of the nested loops. *)
Definition extent (startX endX startY endY : Z) : list (Z * Z) :=
  flat_map (fun x => map (fun y => (x, y)) (fromTo startY endY)) (fromTo startX endX).

(** [cfg.minRecoveryTicks + Math.floor(Math.random() * (max - min + 1))] *)
Definition sampleRecoveryTicks (r : Q) : Z :=
  cfg.minRecoveryTicks
  + Qfloor (r * inject_Z (cfg.maxRecoveryTicks - cfg.minRecoveryTicks + 1)).

(** [cfg.minAffectedSize + Math.floor(Math.random() * (max - min + 1))] *)
Definition sampleSize (r : Q) : Z :=
  cfg.minAffectedSize
  + Qfloor (r * inject_Z (cfg.maxAffectedSize - cfg.minAffectedSize + 1)).

(** The body of the tile loop of [triggerDisaster]. *)
Definition damageTile (rnd : nat -> Q) (acc : City * list AffectedTile)
    (xy : Z * Z) : City * list AffectedTile :=
  let (c, affected) := acc in
  let (x, y) := xy in
  match getTile c x y with
  | None => acc
  | Some tile =>
    let c1 := match building tile with
              | Some _ => bulldoze c x y
              | None => c
              end in
    let totalRecoveryTicks := sampleRecoveryTicks (rnd (length affected)) in
    let c2 := match getTile c1 x y with
              | Some t =>
                setTile c1 x y {| building := building t; damaged := true;
                                  recoveryProgress := 0;
                                  activeRecovery := activeRecovery t |}
              | None => c1
              end in
    (c2, affected ++ [ {| x := x; y := y; totalRecoveryTicks := totalRecoveryTicks |} ])
  end.

(** [!t.tile.building] *)
Definition entryHasNoBuilding (c : City) (t : AffectedTile) : bool :=
  match buildingAt c (x t) (y t) with Some _ => false | None => true end.

Definition triggerDisaster (rnd : nat -> Q) (s : Service) (c : City)
    (epicenterX epicenterY sizeX sizeY : Z) : Outcome :=
  let startX := Z.max 0 (epicenterX - sizeX / 2) in
  let startY := Z.max 0 (epicenterY - sizeY / 2) in
  let endX := Z.min (size c - 1) (startX + sizeX - 1) in
  let endY := Z.min (size c - 1) (startY + sizeY - 1) in
  let (c', affectedTiles) :=
    fold_left (damageTile rnd) (extent startX endX startY endY) (c, []) in
  let destroyedCount :=
    Z.of_nat (length (filter (entryHasNoBuilding c') affectedTiles)) in
  ({| activeDisaster := Some {| epicenterX := epicenterX;
                                epicenterY := epicenterY;
                                affectedTiles := affectedTiles |};
      lastDisasterTick := Some (simTime c');
      notifyFn := notifyFn s;
      recoveryCompleteFn := recoveryCompleteFn s |},
   c',
   if notifyFn s
   then [ DisasterNotice {| n_epicenterX := epicenterX;
                            n_epicenterY := epicenterY;
                            affectedTileCount := Z.of_nat (length affectedTiles);
                            destroyedBuildingCount := destroyedCount |} ]
   else []).

(** [city.simTime - this.lastDisasterTick < cfg.minTicksBetweenDisasters] *)
Definition tooSoon (s : Service) (c : City) : bool :=
  match lastDisasterTick s with
  | Some t => simTime c - t <? cfg.minTicksBetweenDisasters
  | None => false
  end.

Definition tryTriggerDisaster (rnd : Draws) (s : Service) (c : City) : Outcome :=
  if buildingCount c <? cfg.minBuildingsForDisaster then (s, c, [])
  else if tooSoon s c then (s, c, [])
  else if Qltb cfg.disasterChance (rnd_chance rnd) then (s, c, [])
  else
    let tiles := buildingTiles c in
    match tiles with
    | [] => (s, c, [])
    | _ :: _ =>
      (* the index is inside the array for every draw in [0,1) *)
      match nth_error tiles (randomIndex (rnd_epicenter rnd) (length tiles)) with
      | None => (s, c, [])
      | Some epicenter =>
        let sizeX := sampleSize (rnd_sizeX rnd) in
        let sizeY := sampleSize (rnd_sizeY rnd) in
        triggerDisaster (rnd_recovery rnd) s c (fst epicenter) (snd epicenter) sizeX sizeY
      end
    end.

(** The per-tick increment of one entry: [1 / totalRecoveryTicks], times the
    multiplier when its tile is actively recovered. *)
Definition increment (total : Z) (active : bool) : Q :=
  let increment := (1 / inject_Z total)%Q in
  if active then (increment * inject_Z cfg.activeRecoveryMultiplier)%Q else increment.

(** [Math.min(1, entry.tile.recoveryProgress + increment)], in exact
    arithmetic; [advancedProgress64] below is the same line as binary64
    evaluates it, which can differ from the exact sum by the rounding of the
    addition. *)
Definition advancedProgress (total : Z) (t : Tile) : Q :=
  Qmin 1 (recoveryProgress t + increment total (activeRecovery t)).

(** The same two lines in binary64 arithmetic, as JavaScript evaluates
    them: [Math.min(1, progress + increment)] with the increment
    [1 / totalRecoveryTicks], times the multiplier under active recovery. *)
Definition advancedProgress64 (total : PrimFloat.float) (active : bool)
    (progress : PrimFloat.float) : PrimFloat.float :=
  let increment := PrimFloat.div 1%float total in
  let increment := if active then PrimFloat.mul increment 5%float else increment in
  let sum := PrimFloat.add progress increment in
  if PrimFloat.ltb sum 1%float then sum else 1%float.

(** The progress of a tile after [n] recovery ticks, had it stayed on the
    list. *)
Fixpoint progressAfter64 (n : nat) (total : PrimFloat.float) (active : bool)
  : PrimFloat.float :=
  match n with
  | O => 0%float
  | S n' => advancedProgress64 total active (progressAfter64 n' total active)
  end.

(** The body of the first loop of [advanceRecovery] for one entry; [true]
    when the entry is pushed to [recovered]. *)
Definition advanceEntry (c : City) (entry : AffectedTile) : City * bool :=
  match getTile c (x entry) (y entry) with
  | None => (c, false)
  | Some t =>
    let p := advancedProgress (totalRecoveryTicks entry) t in
    if Qle_bool 1 p
    then (setTile c (x entry) (y entry)
            {| building := building t; damaged := false;
               recoveryProgress := 0; activeRecovery := false |}, true)
    else (setTile c (x entry) (y entry)
            {| building := building t; damaged := damaged t;
               recoveryProgress := p; activeRecovery := activeRecovery t |}, false)
  end.

(** Both loops of [advanceRecovery]: the entries are visited in order, and
    the ones not pushed to [recovered] are those left in [affectedTiles]. *)
Fixpoint advanceEntries (c : City) (l : list AffectedTile)
  : City * list AffectedTile :=
  match l with
  | [] => (c, [])
  | entry :: l' =>
    let (c1, recovered) := advanceEntry c entry in
    let (c2, kept) := advanceEntries c1 l' in
    (c2, if recovered then kept else entry :: kept)
  end.

(** [advanceRecovery]; [simulate] calls it with a hazard active only. *)
Definition advanceRecovery (s : Service) (c : City) : Outcome :=
  match activeDisaster s with
  | None => (s, c, [])
  | Some d =>
    let (c', kept) := advanceEntries c (affectedTiles d) in
    match kept with
    | [] =>
      ({| activeDisaster := None; lastDisasterTick := lastDisasterTick s;
          notifyFn := notifyFn s; recoveryCompleteFn := recoveryCompleteFn s |},
       c',
       if recoveryCompleteFn s then [RecoveryComplete] else [])
    | _ :: _ =>
      ({| activeDisaster := Some {| epicenterX := epicenterX d;
                                    epicenterY := epicenterY d;
                                    affectedTiles := kept |};
          lastDisasterTick := lastDisasterTick s;
          notifyFn := notifyFn s; recoveryCompleteFn := recoveryCompleteFn s |},
       c', [])
    end
  end.

Definition simulate (rnd : Draws) (s : Service) (c : City) : Outcome :=
  match activeDisaster s with
  | None => tryTriggerDisaster rnd s c
  | Some _ => advanceRecovery s c
  end.

(** [Math.round(v)] *)
Definition round (v : Q) : Z := Qfloor (v + 0.5).

Inductive RecoverResult :=
| NoDisaster
| NotDamaged (x y : Z)
| AlreadyRecovering (x y : Z)
| RecoveryStarted (x y pct remaining : Z).

Definition success (r : RecoverResult) : bool :=
  match r with RecoveryStarted _ _ _ _ => true | _ => false end.

(** [entry.tile.recoveryProgress] and [entry.tile.activeRecovery] *)
Definition entryProgress (c : City) (t : AffectedTile) : Q :=
  match getTile c (x t) (y t) with Some tl => recoveryProgress tl | None => 0 end.

Definition entryActive (c : City) (t : AffectedTile) : bool :=
  match getTile c (x t) (y t) with Some tl => activeRecovery tl | None => false end.

(** [Math.ceil((1 - progress) * totalRecoveryTicks / divisor)] *)
Definition estimate (progress : Q) (total divisor : Z) : Z :=
  Qceiling ((1 - progress) * inject_Z total / inject_Z divisor).

Definition recoverTile (s : Service) (c : City) (x0 y0 : Z) : RecoverResult * City :=
  match activeDisaster s with
  | None => (NoDisaster, c)
  | Some d =>
    match find (fun t => (x t =? x0) && (y t =? y0)) (affectedTiles d) with
    | None => (NotDamaged x0 y0, c)
    | Some entry =>
      if entryActive c entry then (AlreadyRecovering x0 y0, c)
      else
        let c' := match getTile c (x entry) (y entry) with
                  | Some t =>
                    setTile c (x entry) (y entry)
                      {| building := building t; damaged := damaged t;
                         recoveryProgress := recoveryProgress t;
                         activeRecovery := true |}
                  | None => c
                  end in
        let pct := round (entryProgress c' entry * 100) in
        let remaining := estimate (entryProgress c' entry) (totalRecoveryTicks entry)
                                  cfg.activeRecoveryMultiplier in
        (RecoveryStarted x0 y0 pct remaining, c')
    end
  end.

Record CoordInfo := {
  ci_x : Z;
  ci_y : Z;
  ci_progress : Z;
  ci_activeRecovery : bool;
  ci_estimatedSeconds : Z
}.

(** The summary of an active hazard.  [averageRecoveryProgress] is [None]
    where JavaScript yields [NaN], that is when the sum is divided by a
    length of zero. *)
Record ActiveInfo := {
  epicenter : Z * Z;
  i_affectedTileCount : Z;
  activeRecoveryCount : Z;
  averageRecoveryProgress : option Z;
  affectedCoords : list CoordInfo
}.

Inductive DisasterInfo :=
| Inactive
| Active (info : ActiveInfo).

Definition active (i : DisasterInfo) : bool :=
  match i with Active _ => true | Inactive => false end.

Definition sumProgress (c : City) (tiles : list AffectedTile) : Q :=
  fold_left (fun sum t => (sum + entryProgress c t)%Q) tiles 0%Q.

Definition getDisasterInfo (s : Service) (c : City) : DisasterInfo :=
  match activeDisaster s with
  | None => Inactive
  | Some d =>
    let tiles := affectedTiles d in
    let avgProgress :=
      match length tiles with
      | O => None
      | S _ => Some (sumProgress c tiles / inject_Z (Z.of_nat (length tiles)))%Q
      end in
    Active
      {| epicenter := (epicenterX d, epicenterY d);
         i_affectedTileCount := Z.of_nat (length tiles);
         activeRecoveryCount := Z.of_nat (length (filter (entryActive c) tiles));
         averageRecoveryProgress := option_map (fun a => round (a * 100)) avgProgress;
         affectedCoords :=
           map (fun t =>
                  {| ci_x := x t; ci_y := y t;
                     ci_progress := round (entryProgress c t * 100);
                     ci_activeRecovery := entryActive c t;
                     ci_estimatedSeconds :=
                       estimate (entryProgress c t) (totalRecoveryTicks t)
                         (if entryActive c t then cfg.activeRecoveryMultiplier else 1) |})
               tiles |}
  end.

(** *** The service under its callers

    The city's service loop calls [simulate] on every tick; the mayor's tools
    call [recoverTile] and [getDisasterInfo]; the wiring registers the two
    callbacks.  Between two entries the world may have changed, so every
    entry comes with its own city. *)

Inductive reachable : Service -> Prop :=
| reachable_initial : reachable initial
| reachable_simulate (rnd : Draws) (c : City) (s : Service) :
    reachable s -> validDraw (rnd_epicenter rnd) ->
    validDraw (rnd_sizeX rnd) -> validDraw (rnd_sizeY rnd) ->
    reachable (serviceOf (simulate rnd s c))
| reachable_setNotifyFn (s : Service) :
    reachable s -> reachable (setNotifyFn s)
| reachable_setRecoveryCompleteFn (s : Service) :
    reachable s -> reachable (setRecoveryCompleteFn s).

(** [simulate] run for [n] ticks, the draws of tick [k] being [rnd k]. *)
Fixpoint simulateN (n : nat) (rnd : nat -> Draws) (s : Service) (c : City)
  : Service * City :=
  match n with
  | O => (s, c)
  | S n' =>
    let (s', c') := simulateN n' rnd s c in
    let o := simulate (rnd n') s' c' in
    (serviceOf o, cityOf o)
  end.

End DisasterService.

(** ** RequestEngine, first version: up to three requests with conditions

    The first class of request-engine.ts keeps an array of requests, each
    with a [condition] closure over the city and the counts taken when the
    request was made, raises one on a 30 s timer while fewer than three are
    active, and checks fulfilment on a 5 s timer. *)

Module LegacyRequestEngine.
Import World.

Definition RequestType := RequestEngine.RequestType.
Definition RequestStatus := RequestEngine.RequestStatus.

(** The [condition] closure of a request: which of the five bodies it is and
    the count it captured. *)
Inductive Condition :=
| CapacityAbove (before : Z)
| WorkplacesAbove (beforeJobs : Z)
| AllPowered
| AllHaveRoad
| CommerceAbove (beforeCommerce : Z).

Record CitizenRequest := {
  id : string;
  citizenName : string;
  type : RequestType;
  message : string;
  condition : Condition;
  reward : Z;
  createdAt : Z;
  status : RequestStatus
}.

(** The calls to [notify], by template: the new-request line with name and
    message (spoken: the message), the fulfilled line with name and reward. *)
Inductive Note :=
| NewRequest (name message : string)
| RequestFulfilled (name : string) (reward : Z).

Record Engine := {
  requests : list CitizenRequest
}.

Definition initial : Engine := {| requests := [] |}.

Definition maxActiveRequests : Z := 3.

Definition getActiveRequests (e : Engine) : list CitizenRequest :=
  filter (fun r => RequestEngine.isActive (status r)) (requests e).

(** The counters of the double loop of [detectProblems]. *)
Record Counts := {
  residentialCapacity : Z;
  residentialCount : Z;
  commercialCount : Z;
  industrialCount : Z;
  unpoweredCount : Z;
  totalBuildings : Z;
  noRoadAccess : Z;
  totalResidents : Z;
  employed : Z
}.

Definition noCounts : Counts :=
  {| residentialCapacity := 0; residentialCount := 0; commercialCount := 0;
     industrialCount := 0; unpoweredCount := 0; totalBuildings := 0;
     noRoadAccess := 0; totalResidents := 0; employed := 0 |}.

Definition isType (b : Building) (t : BuildingType) : bool :=
  BuildingType_eqb (World.type b) t.

(** [!b.powered && b.type !== 'road' && b.type !== 'power-plant' &&
    b.type !== 'power-line'] *)
Definition lacksPower (b : Building) : bool :=
  negb (powered b) && negb (isType b road) && negb (isType b power_plant)
  && negb (isType b power_line).

(** A building other than a road or a power line with no road among the
    neighbours of its tile. *)
Definition lacksRoad (c : City) (x y : Z) (b : Building) : bool :=
  negb (isType b road) && negb (isType b power_line)
  && negb (existsb RequestEngine.isRoadTile (getTileNeighbors c x y)).

Definition countTile (c : City) (acc : Counts) (xy : Z * Z) : Counts :=
  let (x, y) := xy in
  match buildingAt c x y with
  | None => acc
  | Some b =>
    let res := isType b residential in
    let com := negb res && isType b commercial in
    let ind := negb res && negb (isType b commercial) && isType b industrial in
    {| residentialCapacity :=
         residentialCapacity acc + (if res then RequestEngine.maxCountOr4 b else 0);
       residentialCount := residentialCount acc + RequestEngine.b2z res;
       commercialCount := commercialCount acc + RequestEngine.b2z com;
       industrialCount := industrialCount acc + RequestEngine.b2z ind;
       unpoweredCount := unpoweredCount acc + RequestEngine.b2z (lacksPower b);
       totalBuildings := totalBuildings acc + 1;
       noRoadAccess := noRoadAccess acc + RequestEngine.b2z (lacksRoad c x y b);
       totalResidents :=
         totalResidents acc + (if res then RequestEngine.countOr0 b else 0);
       employed := employed acc + (if res then RequestEngine.employedOr0 b else 0) |}
  end.

Definition countCity (c : City) : Counts :=
  fold_left (countTile c) (coords (size c)) noCounts.

Definition detectProblems (c : City) : list RequestType :=
  let n := countCity c in
  let pop := population c in
  (if (0 <? pop) && Qltb (inject_Z (residentialCapacity n) * 0.8) (inject_Z pop)
   then [RequestEngine.housing] else [])
  ++ (if (0 <? totalResidents n) && (0 <? totalResidents n - employed n)
         && (commercialCount n + industrialCount n <? residentialCount n)
      then [RequestEngine.jobs] else [])
  ++ (if 0 <? unpoweredCount n then [RequestEngine.power] else [])
  ++ (if 0 <? noRoadAccess n then [RequestEngine.road] else [])
  ++ (if (0 <? residentialCount n)
         && Qltb (inject_Z (commercialCount n)) (inject_Z (residentialCount n) * 0.3)
      then [RequestEngine.commerce] else []).

(** The loops of the closures and of [generateRequest]. *)
Definition sumOver (c : City) (f : Building -> Z) : Z :=
  fold_left (fun n xy =>
               match buildingAt c (fst xy) (snd xy) with
               | Some b => n + f b
               | None => n
               end) (coords (size c)) 0.

(** [cap += t.building.residents?.maxCount ?? 4] over the residential tiles *)
Definition capacity (c : City) : Z :=
  sumOver c (fun b => if isType b residential then RequestEngine.maxCountOr4 b else 0).

(** The tiles whose building is commercial or industrial. *)
Definition workplaces (c : City) : Z :=
  sumOver c (fun b => RequestEngine.b2z (isType b commercial || isType b industrial)).

Definition shops (c : City) : Z :=
  sumOver c (fun b => RequestEngine.b2z (isType b commercial)).

(** The loops that return false at the first offending tile. *)
Definition allPowered (c : City) : bool :=
  forallb (fun xy => match buildingAt c (fst xy) (snd xy) with
                     | Some b => negb (lacksPower b)
                     | None => true
                     end) (coords (size c)).

Definition allHaveRoad (c : City) : bool :=
  forallb (fun xy => match buildingAt c (fst xy) (snd xy) with
                     | Some b => negb (lacksRoad c (fst xy) (snd xy) b)
                     | None => true
                     end) (coords (size c)).

(** [req.condition()] on the city as it is when the check runs. *)
Definition holds (c : City) (k : Condition) : bool :=
  match k with
  | CapacityAbove before => Qltb (inject_Z before * 1.2) (inject_Z (capacity c))
  | WorkplacesAbove beforeJobs => beforeJobs <? workplaces c
  | AllPowered => allPowered c
  | AllHaveRoad => allHaveRoad c
  | CommerceAbove beforeCommerce => beforeCommerce <? shops c
  end.

Definition generateRequest (env : RequestEngine.Env) (c : City)
    (problem : RequestType) : CitizenRequest :=
  {| id := RequestEngine.fresh_id env;
     citizenName := RequestEngine.randomName (RequestEngine.rnd_name env);
     type := problem;
     message := RequestEngine.messages problem;
     condition :=
       match problem with
       | RequestEngine.housing => CapacityAbove (population c)
       | RequestEngine.jobs => WorkplacesAbove (workplaces c)
       | RequestEngine.power => AllPowered
       | RequestEngine.road => AllHaveRoad
       | RequestEngine.commerce => CommerceAbove (shops c)
       end;
     reward := 5;
     createdAt := RequestEngine.now env;
     status := RequestEngine.active |}.

Definition tick (env : RequestEngine.Env) (c : City) (e : Engine)
  : Engine * list Note :=
  if maxActiveRequests <=? Z.of_nat (length (getActiveRequests e)) then (e, [])
  else
    let problems := detectProblems c in
    match problems with
    | [] => (e, [])
    | _ :: _ =>
      (* the index is inside the array for every draw in [0,1) *)
      match nth_error problems
              (randomIndex (RequestEngine.rnd_problem env) (length problems)) with
      | None => (e, [])
      | Some problem =>
        let request := generateRequest env c problem in
        ({| requests := requests e ++ [request] |},
         [NewRequest (citizenName request) (message request)])
      end
    end.

Definition withStatus (st : RequestStatus) (r : CitizenRequest) : CitizenRequest :=
  {| id := id r; citizenName := citizenName r; type := type r;
     message := message r; condition := condition r; reward := reward r;
     createdAt := createdAt r; status := st |}.

(** Expire after 5 minutes *)
Definition EXPIRY_MS : Z := 5 * 60 * 1000.

(** The body of the loop of [checkFulfillment] for one request: the request
    as it is left, the happiness of the city and the notifications. *)
Definition checkRequest (now : Z) (c : City) (req : CitizenRequest)
  : CitizenRequest * City * list Note :=
  if negb (RequestEngine.isActive (status req)) then (req, c, [])
  else if holds c (condition req)
  then (withStatus RequestEngine.fulfilled req,
        setHappiness c (Qmin 100 (RequestEngine.happinessOr50 c + inject_Z (reward req))),
        [RequestFulfilled (citizenName req) (reward req)])
  else if EXPIRY_MS <? now - createdAt req
  then (withStatus RequestEngine.expired req, c, [])
  else (req, c, []).

Fixpoint checkAll (now : Z) (c : City) (l : list CitizenRequest)
  : list CitizenRequest * City * list Note :=
  match l with
  | [] => ([], c, [])
  | req :: l' =>
    let '(req', c1, notes1) := checkRequest now c req in
    let '(l'', c2, notes2) := checkAll now c1 l' in
    (req' :: l'', c2, notes1 ++ notes2)
  end.

Definition checkFulfillment (now : Z) (c : City) (e : Engine)
  : Engine * City * list Note :=
  let '(l, c', notes) := checkAll now c (requests e) in
  ({| requests := l |}, c', notes).

Inductive reachable : Engine -> Prop :=
| reachable_initial : reachable initial
| reachable_tick (env : RequestEngine.Env) (c : City) (e : Engine) :
    reachable e -> reachable (fst (tick env c e))
| reachable_check (now : Z) (c : City) (e : Engine) :
    reachable e -> reachable (fst (fst (checkFulfillment now c e))).

End LegacyRequestEngine.

(** ** Sample worlds

    Small concrete cities, engines and services on which the operations
    above are run. *)

Module Samples.
Import World.

Definition house (capacity : Z) : Building :=
  {| type := residential; powered := true;
     residents := Some {| maxCount := Some capacity; count := Some 0;
                          residentsList := Some [] |} |}.

Definition shop : Building :=
  {| type := commercial; powered := true; residents := None |}.

Definition plainTile (b : option Building) : Tile :=
  {| building := b; damaged := false; recoveryProgress := 0; activeRecovery := false |}.

Definition fourNeighbors (x y : Z) : list (Z * Z) :=
  [(x - 1, y); (x + 1, y); (x, y - 1); (x, y + 1)].

(** A one-tile city: a single house of the given capacity. *)
Definition hamlet (capacity pop : Z) : City :=
  {| size := 1;
     tiles := fun x y =>
                if (x =? 0) && (y =? 0) then Some (plainTile (Some (house capacity)))
                else None;
     neighborCoords := fourNeighbors;
     population := pop;
     happiness := None;
     simTime := 0 |}.

Definition onList (l : list (Z * Z)) (x y : Z) : bool :=
  existsb (fun p => (fst p =? x) && (snd p =? y)) l.

Definition eightShops : list (Z * Z) :=
  [(0, 0); (0, 1); (1, 0); (2, 0); (3, 0); (0, 2); (0, 3); (3, 3)].

(** A 4 x 4 city with eight shops; the tile (1, 1) is empty. *)
Definition town : City :=
  {| size := 4;
     tiles := fun x y =>
                if (0 <=? x) && (x <? 4) && (0 <=? y) && (y <? 4)
                then Some (plainTile (if onList eightShops x y then Some shop else None))
                else None;
     neighborCoords := fourNeighbors;
     population := 0;
     happiness := None;
     simTime := 100 |}.

(** A housing request is raised at population 50, capacity 40. *)
Definition env0 : RequestEngine.Env :=
  {| RequestEngine.now := 30000;
     RequestEngine.rnd_problem := 0;
     RequestEngine.rnd_name := 0;
     RequestEngine.rnd_jitter := 0.5;
     RequestEngine.callback_throws := false;
     RequestEngine.fresh_id := "req_1" |}.

Definition engine1 : RequestEngine.Engine :=
  RequestEngine.engineOf
    (RequestEngine.step RequestEngine.Tick env0 (hamlet 40 50) RequestEngine.initial).

Definition request1 : RequestEngine.CitizenRequest :=
  {| RequestEngine.id := "req_1";
     RequestEngine.citizenName := "Tanaka";
     RequestEngine.type := RequestEngine.housing;
     RequestEngine.message := RequestEngine.messages RequestEngine.housing;
     RequestEngine.createdAt := 30000;
     RequestEngine.status := RequestEngine.active |}.

(** The mayor speaks, then two callers wait for silence. *)
Definition twoWaiting : SpeechCoordinator.State :=
  fst (SpeechCoordinator.waitForSilence 2%nat
         (fst (SpeechCoordinator.waitForSilence 1%nat
                 (fst (SpeechCoordinator.setMayorSpeaking true
                         SpeechCoordinator.initial))))).

(** Draws that let a hazard trigger at the first building tile, with the
    smallest extent and the shortest recovery. *)
Definition draws0 : DisasterService.Draws :=
  {| DisasterService.rnd_chance := 0;
     DisasterService.rnd_epicenter := 0;
     DisasterService.rnd_sizeX := 0;
     DisasterService.rnd_sizeY := 0;
     DisasterService.rnd_recovery := fun _ => 0%Q |}.

(** The hazard triggered on the town with these draws, and the town with
    the tile (0, 0) put under active recovery right after. *)
Definition quake : DisasterService.Outcome :=
  DisasterService.simulate draws0
    (DisasterService.setNotifyFn DisasterService.initial) town.

Definition service1 : DisasterService.Service := DisasterService.serviceOf quake.

Definition townUnderRecovery : City :=
  snd (DisasterService.recoverTile service1 (DisasterService.cityOf quake) 0 0).

Definition entry300 : DisasterService.AffectedTile :=
  {| DisasterService.x := 0; DisasterService.y := 0;
     DisasterService.totalRecoveryTicks := 300 |}.

End Samples.

(** ** SpeechCoordinator under its callers

    The two voice modules call the setters and [waitForSilence]; the timer of
    a queued call fires its failsafe. *)

Module SpeechTrace.
Import SpeechCoordinator.

Inductive Op :=
| SetMayorSpeaking (speaking : bool)
| SetCitizenSpeaking (speaking : bool)
| WaitForSilence (w : Waiter)
| FailsafeFires (w : Waiter).

Definition apply (op : Op) (s : State) : Outcome :=
  match op with
  | SetMayorSpeaking speaking => setMayorSpeaking speaking s
  | SetCitizenSpeaking speaking => setCitizenSpeaking speaking s
  | WaitForSilence w => waitForSilence w s
  | FailsafeFires w => failsafe w s
  end.

(** The calls in order, from the state [s]: the state reached and the
    waiters resolved on the way, in the order they were resolved. *)
Fixpoint run (ops : list Op) (s : State) : State * list Waiter :=
  match ops with
  | [] => (s, [])
  | op :: ops' =>
    let (s1, out1) := apply op s in
    let (s2, out2) := run ops' s1 in
    (s2, out1 ++ out2)
  end.

(** The promises the calls of a trace create. *)
Fixpoint issued (ops : list Op) : list Waiter :=
  match ops with
  | [] => []
  | WaitForSilence w :: ops' => w :: issued ops'
  | _ :: ops' => issued ops'
  end.

Definition isFailsafe (op : Op) : bool :=
  match op with FailsafeFires _ => true | _ => false end.

Definition silent (s : State) : bool :=
  negb (mayorSpeaking s) && negb (citizenSpeaking s).

End SpeechTrace.

(** ** DisasterService under its callers

    The city calls [simulate] once per tick; the mayor's [recover_tile] tool
    calls [recoverTile] on the same city in between. *)

Module DisasterTrace.
Import World DisasterService.

Inductive Op :=
| Tick (rnd : Draws)
| RecoverTile (x y : Z).

Definition apply (op : Op) (sc : Service * City) : Service * City :=
  match op with
  | Tick rnd =>
    let o := simulate rnd (fst sc) (snd sc) in (serviceOf o, cityOf o)
  | RecoverTile x y => (fst sc, snd (recoverTile (fst sc) (snd sc) x y))
  end.

Definition run (ops : list Op) (sc : Service * City) : Service * City :=
  fold_left (fun sc op => apply op sc) ops sc.

(** Every draw of the ticks of a trace lies in [0, 1). *)
Definition validOp (op : Op) : Prop :=
  match op with
  | Tick rnd =>
    validDraw (rnd_chance rnd) /\ validDraw (rnd_epicenter rnd)
    /\ validDraw (rnd_sizeX rnd) /\ validDraw (rnd_sizeY rnd)
    /\ forall k, validDraw (rnd_recovery rnd k)
  | RecoverTile _ _ => True
  end.

End DisasterTrace.

(** Further sample states. *)

Module MoreSamples.
Import World.

(** The first version raises a housing request at population 50,
    capacity 40. *)
Definition legacy1 : LegacyRequestEngine.Engine :=
  fst (LegacyRequestEngine.tick Samples.env0 (Samples.hamlet 40 50)
         LegacyRequestEngine.initial).

End MoreSamples.

(** * Properties *)

(** ** Numbers *)

Lemma Qltb_lt (a b : Q) : Qltb a b = true <-> (a < b)%Q.
Proof.
  unfold Qltb. rewrite negb_true_iff. split; intro H.
  - apply Qnot_le_lt. intro L. apply Qle_bool_iff in L. congruence.
  - destruct (Qle_bool b a) eqn:E; [|reflexivity].
    apply Qle_bool_iff in E. exfalso. exact (Qlt_not_le _ _ H E).
Qed.

Lemma Qltb_ge (a b : Q) : Qltb a b = false <-> (b <= a)%Q.
Proof.
  unfold Qltb. rewrite negb_false_iff. apply Qle_bool_iff.
Qed.

(** [Math.floor(Math.random() * n)] lies in [0, n). *)
Lemma floor_draw_bounds (r : Q) (n : Z) :
  validDraw r -> 0 < n -> 0 <= Qfloor (r * inject_Z n) < n.
Proof.
  intros [H0 H1] Hn.
  set (q := (r * inject_Z n)%Q).
  assert (Hpos : (0 < inject_Z n)%Q).
  { change 0%Q with (inject_Z 0). rewrite <- Zlt_Qlt. lia. }
  assert (Hq0 : (0 <= q)%Q)
    by (apply Qmult_le_0_compat; [assumption | apply Qlt_le_weak; assumption]).
  assert (Hq1 : (q < inject_Z n)%Q).
  { unfold q. setoid_replace (inject_Z n) with (1 * inject_Z n)%Q at 2 by ring.
    apply Qmult_lt_compat_r; assumption. }
  split.
  - change 0 with (Qfloor 0). apply Qfloor_resp_le. assumption.
  - rewrite Zlt_Qlt. eapply Qle_lt_trans; [apply Qfloor_le | assumption].
Qed.

(** A draw of [Math.random()] indexes inside a non-empty array. *)
Lemma randomIndex_lt (r : Q) (n : nat) :
  validDraw r -> (0 < n)%nat -> (randomIndex r n < n)%nat.
Proof.
  intros Hr Hn. unfold randomIndex.
  pose proof (floor_draw_bounds r (Z.of_nat n) Hr ltac:(lia)). lia.
Qed.

Lemma nth_error_randomIndex {A} (r : Q) (l : list A) :
  validDraw r -> l <> [] -> exists a, nth_error l (randomIndex r (length l)) = Some a.
Proof.
  intros Hr Hl.
  destruct (nth_error l (randomIndex r (length l))) eqn:E; [eauto|].
  apply nth_error_None in E.
  assert ((0 < length l)%nat) by (destruct l; [congruence | simpl; lia]).
  pose proof (randomIndex_lt r (length l) Hr H). lia.
Qed.

Lemma In_guard {A} (b : bool) (a v : A) :
  In a (if b then [v] else []) <-> b = true /\ v = a.
Proof.
  destruct b; simpl; intuition congruence.
Qed.

(** ** RequestEngine *)

Module RequestEngineFacts.
Import World RequestEngine.

(** *** detectProblems *)

Definition nonNegative (s : CitySnapshot) : Prop :=
  0 <= unpoweredCount s /\ 0 <= residentialCapacity s /\ 0 <= population s
  /\ 0 <= totalResidents s /\ 0 <= employed s /\ 0 <= commercialCount s
  /\ 0 <= industrialCount s /\ 0 <= residentialCount s
  /\ 0 <= powerPlantCount s /\ 0 <= powerLineCount s /\ 0 <= roadCount s
  /\ 0 <= noRoadAccess s.

Lemma In_detectProblemsOf (s : CitySnapshot) (p : RequestType) :
  In p (detectProblemsOf s) <->
  match p with
  | housing =>
    (0 <? population s)
    && Qltb (inject_Z (residentialCapacity s) * 0.8) (inject_Z (population s)) = true
  | jobs =>
    (0 <? totalResidents s) && (0 <? totalResidents s - employed s)
    && (commercialCount s + industrialCount s <? residentialCount s) = true
  | power => (0 <? unpoweredCount s) = true
  | road => (0 <? noRoadAccess s) = true
  | commerce =>
    (0 <? residentialCount s)
    && Qltb (inject_Z (commercialCount s)) (inject_Z (residentialCount s) * 0.3) = true
  end.
Proof.
  unfold detectProblemsOf. rewrite !in_app_iff, !In_guard.
  destruct p; intuition congruence.
Qed.

(** C8: [detectProblems] depends on the captured snapshot only, and on a
    snapshot with non-negative fields each category fires exactly under its
    threshold condition: housing iff population > 0 and population > 0.8 x
    capacity; jobs iff residents - employed > 0 and commercial + industrial
    < residential count; power iff unpowered > 0; road iff no-road-access
    > 0; commerce iff commercial < 0.3 x residential count. *)
Theorem detectProblems_firing_conditions (s : CitySnapshot) :
  nonNegative s ->
  (forall c, captureSnapshot c = s -> detectProblems c = detectProblemsOf s)
  /\ (In housing (detectProblemsOf s) <->
      0 < population s
      /\ (inject_Z (residentialCapacity s) * 0.8 < inject_Z (population s))%Q)
  /\ (In jobs (detectProblemsOf s) <->
      0 < totalResidents s - employed s
      /\ commercialCount s + industrialCount s < residentialCount s)
  /\ (In power (detectProblemsOf s) <-> 0 < unpoweredCount s)
  /\ (In road (detectProblemsOf s) <-> 0 < noRoadAccess s)
  /\ (In commerce (detectProblemsOf s) <->
      (inject_Z (commercialCount s) < inject_Z (residentialCount s) * 0.3)%Q).
Proof.
  intros (Hu & Hcap & Hpop & Htot & Hemp & Hcom & Hind & Hres & _).
  split; [intros c <-; reflexivity|].
  rewrite !In_detectProblemsOf, !andb_true_iff, !Qltb_lt, !Z.ltb_lt.
  split; [tauto|]. split; [intuition lia|].
  split; [tauto|]. split; [tauto|].
  split; [tauto|].
  intro H. split; [|assumption]. unfold Qlt in H; simpl in H. lia.
Qed.

(** *** Adaptive cooldown *)

Lemma snapshotTile_population (c : City) (acc : CitySnapshot) (xy : Z * Z) :
  population (snapshotTile c acc xy) = population acc.
Proof.
  unfold snapshotTile. destruct xy as [x y].
  destruct (buildingAt c x y); reflexivity.
Qed.

Lemma fold_snapshotTile_population (c : City) (l : list (Z * Z)) :
  forall acc, population (fold_left (snapshotTile c) l acc) = population acc.
Proof.
  induction l as [|xy l IH]; intro acc; simpl.
  - reflexivity.
  - rewrite IH. apply snapshotTile_population.
Qed.

Lemma captureSnapshot_population (c : City) :
  population (captureSnapshot c) = World.population c.
Proof.
  unfold captureSnapshot. apply fold_snapshotTile_population.
Qed.

(** The cooldown as the specification words it, all times in ms. *)
Definition cooldownFormula (happiness : Q) (problemCount population : Z)
    (jitter : Q) : Q :=
  Qmax 8000
    (Qmin 40000
       (25000 - (100 - happiness) / 100 * 8000
        - Qmin (inject_Z problemCount * 2000) 10000
        - Qmin (inject_Z population * 170) 5000
        + jitter)).

(** The jitter a draw [r] of [Math.random()] yields. *)
Definition jitter (r : Q) : Q := ((r - 0.5) * 8000)%Q.

Lemma clamp_bounds (lo hi v : Q) :
  (lo <= hi)%Q -> (lo <= Qmax lo (Qmin hi v))%Q /\ (Qmax lo (Qmin hi v) <= hi)%Q.
Proof.
  intro H. split.
  - apply Q.le_max_l.
  - apply Q.max_lub; [assumption | apply Q.le_min_l].
Qed.

(** *** Happiness delta *)

(** The remediation signal of a category between two snapshots. *)
Definition improved (ty : RequestType) (before after : CitySnapshot) : Prop :=
  match ty with
  | housing => residentialCapacity before < residentialCapacity after
  | jobs =>
    commercialCount before + industrialCount before
    < commercialCount after + industrialCount after
  | power =>
    powerPlantCount before < powerPlantCount after
    \/ powerLineCount before < powerLineCount after
    \/ unpoweredCount after < unpoweredCount before
  | road =>
    roadCount before < roadCount after \/ noRoadAccess after < noRoadAccess before
  | commerce => commercialCount before < commercialCount after
  end.

Lemma improved_dec (ty : RequestType) (before after : CitySnapshot) :
  {improved ty before after} + {~ improved ty before after}.
Proof.
  destruct ty; simpl.
  - apply Z_lt_dec.
  - apply Z_lt_dec.
  - destruct (Z_lt_dec (powerPlantCount before) (powerPlantCount after));
    destruct (Z_lt_dec (powerLineCount before) (powerLineCount after));
    destruct (Z_lt_dec (unpoweredCount after) (unpoweredCount before)); tauto.
  - destruct (Z_lt_dec (roadCount before) (roadCount after));
    destruct (Z_lt_dec (noRoadAccess after) (noRoadAccess before)); tauto.
  - apply Z_lt_dec.
Qed.

Lemma computeHappinessDelta_improved (r : CitizenRequest) (before after : CitySnapshot) :
  (improved (type r) before after -> computeHappinessDelta r before after = 10)
  /\ (~ improved (type r) before after -> computeHappinessDelta r before after = -2).
Proof.
  unfold computeHappinessDelta, improved.
  destruct (type r);
    repeat match goal with
           | |- context [?a <? ?b] => destruct (Z.ltb_spec a b)
           end; simpl; split; intros; try reflexivity; lia.
Qed.

Lemma applyDelta_bounds (c : City) (delta : Z) :
  (0 <= applyDelta c delta)%Q /\ (applyDelta c delta <= 100)%Q.
Proof.
  unfold applyDelta. apply clamp_bounds. discriminate.
Qed.

(** C4: for every category and every pair of snapshots the happiness delta
    of the evaluating phase is +10 when the category's remediation signal
    improved and -2 otherwise, and the happiness [evaluate] writes to the
    city is the clamped sum, which lies in [0,100] for any prior value. *)
Theorem happiness_delta_and_clamp (e : Engine) (c : City) (env : Env)
    (r : CitizenRequest) (before : CitySnapshot) :
  getCurrentRequest e = Some r ->
  snapshotBefore e = Some before ->
  let after := captureSnapshot c in
  let delta := computeHappinessDelta r before after in
  (improved (type r) before after -> delta = 10)
  /\ (~ improved (type r) before after -> delta = -2)
  /\ (delta = 10 \/ delta = -2)
  /\ exists h,
      happiness (cityOf (evaluate env c e)) = Some h
      /\ h = Qmax 0 (Qmin 100 (happinessOr50 c + inject_Z delta))
      /\ (0 <= h)%Q /\ (h <= 100)%Q.
Proof.
  intros Hr Hb after delta.
  destruct (computeHappinessDelta_improved r before after) as [Hi Hn].
  split; [exact Hi|]. split; [exact Hn|]. split.
  - destruct (improved_dec (type r) before after); [left; auto | right; auto].
  - exists (applyDelta c delta). split.
    + unfold evaluate. rewrite Hr, Hb. fold after. fold delta.
      destruct (evaluateFn e), (callback_throws env); reflexivity.
    + split; [reflexivity|]. apply applyDelta_bounds.
Qed.

(** *** checkRequestStatus *)

(** The deficiency of a category is fully gone on the snapshot [now]. *)
Definition idealCondition (ty : RequestType) (now : CitySnapshot) : Prop :=
  match ty with
  | housing => population now = 0 \/ population now <= residentialCapacity now
  | jobs => residentialCount now <= commercialCount now + industrialCount now
  | power => unpoweredCount now = 0
  | road => noRoadAccess now = 0
  | commerce =>
    (inject_Z (residentialCount now) * 0.3 <= inject_Z (commercialCount now))%Q
  end.

(** Directional improvement of a category against the stored snapshot. *)
Definition progressCondition (ty : RequestType) (before now : CitySnapshot) : Prop :=
  match ty with
  | housing => residentialCapacity before < residentialCapacity now
  | jobs =>
    commercialCount before + industrialCount before
    < commercialCount now + industrialCount now
  | power =>
    powerPlantCount before < powerPlantCount now
    \/ powerLineCount before < powerLineCount now
  | road => roadCount before < roadCount now
  | commerce => commercialCount before < commercialCount now
  end.

Lemma ideal_iff (ty : RequestType) (now : CitySnapshot) :
  ideal ty now = true <-> idealCondition ty now.
Proof.
  destruct ty; simpl;
    rewrite ?orb_true_iff, ?Z.eqb_eq, ?Z.leb_le, ?Qle_bool_iff; tauto.
Qed.

Lemma progress_iff (ty : RequestType) (before now : CitySnapshot) :
  progress ty (Some before) now = true <-> progressCondition ty before now.
Proof.
  destruct ty; simpl; rewrite ?orb_true_iff, ?Z.ltb_lt; tauto.
Qed.

(** C2: in phase request_active with a current request and a stored
    snapshot, [checkRequestStatus] reports resolved exactly when the ideal
    condition holds on the snapshot captured at call time or the progress
    condition holds against the stored snapshot; and a housing request
    stored at population 50, capacity 40 is reported resolved at capacity 48
    by progress alone, the ideal condition failing since 48 < 50. *)
Theorem checkRequestStatus_resolved (e : Engine) (c : City)
    (r : CitizenRequest) (before : CitySnapshot) :
  phase e = request_active ->
  getCurrentRequest e = Some r ->
  snapshotBefore e = Some before ->
  let now := captureSnapshot c in
  (resolved (checkRequestStatus c e) = true <->
   idealCondition (type r) now \/ progressCondition (type r) before now)
  /\ (type r = housing ->
      population before = 50 -> residentialCapacity before = 40 ->
      population now = 50 -> residentialCapacity now = 48 ->
      resolved (checkRequestStatus c e) = true
      /\ ~ idealCondition housing now
      /\ progressCondition housing before now).
Proof.
  intros Hp Hr Hb now.
  assert (Hres : resolved (checkRequestStatus c e) = true <->
                 idealCondition (type r) now \/ progressCondition (type r) before now).
  { unfold checkRequestStatus. rewrite Hr, Hp, Hb. cbv zeta. cbn [resolved].
    fold now. rewrite orb_true_iff, ideal_iff, progress_iff. tauto. }
  split; [exact Hres|].
  intros Hty Hp0 Hc0 Hp1 Hc1.
  rewrite Hres, Hty. simpl. rewrite Hp1, Hc1, Hc0.
  split; [right; lia|]. split; lia.
Qed.

(** *** At most one active request *)

(** Every request object whose status is active is the current request of
    an engine in phase request_active. *)
Definition activeIsCurrent (e : Engine) : Prop :=
  forall j r,
    nth_error (requests e) j = Some r -> status r = active ->
    phase e = request_active /\ currentRequest e = Some j.

(** [evaluate] is suspended at its [await] in phase evaluating only. *)
Definition pendingInEvaluating (e : Engine) : Prop :=
  evaluatePending e = true -> phase e = evaluating.

Definition invariant (e : Engine) : Prop :=
  activeIsCurrent e /\ pendingInEvaluating e.

Lemma writeStatus_active (i j : nat) (st : RequestStatus)
    (l : list CitizenRequest) (r : CitizenRequest) :
  st <> active ->
  nth_error (writeStatus i st l) j = Some r -> status r = active ->
  j <> i /\ nth_error l j = Some r.
Proof.
  intro Hst. revert i j.
  induction l as [|a l IH]; intros i j Hn Ha.
  - destruct i, j; simpl in Hn; discriminate.
  - destruct i as [|i], j as [|j]; simpl in *.
    + injection Hn as <-. simpl in Ha. contradiction.
    + split; [discriminate | assumption].
    + split; [discriminate | assumption].
    + destruct (IH i j Hn Ha) as [Hne Hn']. split; [congruence | assumption].
Qed.

Lemma no_active_invariant (e e' : Engine) :
  activeIsCurrent e -> phase e <> request_active ->
  requests e' = requests e -> activeIsCurrent e'.
Proof.
  intros Hi Hp Hr j r Hn Ha. rewrite Hr in Hn.
  destruct (Hi j r Hn Ha) as [Hp' _]. contradiction.
Qed.

Lemma markResolved_invariant (e : Engine) :
  invariant e -> invariant (markResolved e).
Proof.
  intros [Hi Hq]. unfold markResolved.
  destruct (phase e) eqn:Hp; try (split; assumption).
  destruct (currentRequest e) as [i|] eqn:Hc; [|split; assumption].
  split.
  - intros j r Hn Ha. simpl in *.
    apply writeStatus_active in Hn; [|discriminate|assumption].
    destruct Hn as [Hne Hn]. destruct (Hi j r Hn Ha) as [_ Hj]. congruence.
  - intro H. simpl in H. apply Hq in H. congruence.
Qed.

Lemma expireRequest_invariant (env : Env) (c : City) (e : Engine) :
  invariant e -> invariant (engineOf (expireRequest env c e)).
Proof.
  intros [Hi Hq]. unfold expireRequest.
  destruct (phase e) eqn:Hp; try (split; assumption).
  destruct (currentRequest e) as [i|] eqn:Hc; [|split; assumption].
  split.
  - intros j r Hn Ha. simpl in *.
    apply writeStatus_active in Hn; [|discriminate|assumption].
    destruct Hn as [Hne Hn]. destruct (Hi j r Hn Ha) as [_ Hj]. congruence.
  - intro H. simpl in H. apply Hq in H. congruence.
Qed.

Lemma tryGenerateRequest_invariant (env : Env) (c : City) (e : Engine) :
  phase e = idle -> invariant e ->
  invariant (engineOf (tryGenerateRequest env c e)).
Proof.
  intros Hp [Hi Hq]. unfold tryGenerateRequest.
  destruct (Qltb _ _); [split; assumption|].
  destruct (detectProblems c) as [|p ps] eqn:Hd; [split; assumption|].
  destruct (nth_error _ _) as [problem|]; [|split; assumption].
  split.
  - intros j r Hn Ha. simpl in *. split; [reflexivity|].
    destruct (Nat.lt_ge_cases j (length (requests e))) as [Hlt|Hge].
    + rewrite nth_error_app1 in Hn by assumption.
      destruct (Hi j r Hn Ha) as [Hp' _]. congruence.
    + assert (Hj : (j < length (requests e ++ [createRequest env problem]))%nat).
      { apply nth_error_Some. congruence. }
      rewrite length_app in Hj. simpl in Hj. f_equal. lia.
  - intro H. simpl in H. apply Hq in H. congruence.
Qed.

Lemma evaluate_requests (env : Env) (c : City) (e : Engine) :
  requests (engineOf (evaluate env c e)) = requests e.
Proof.
  unfold evaluate.
  destruct (getCurrentRequest e); [|reflexivity].
  destruct (snapshotBefore e); [|reflexivity].
  destruct (evaluateFn e), (callback_throws env); reflexivity.
Qed.

Lemma evaluate_pending (env : Env) (c : City) (e : Engine) :
  phase e = evaluating -> evaluatePending e = false ->
  pendingInEvaluating (engineOf (evaluate env c e)).
Proof.
  intros Hp Hf. unfold evaluate, pendingInEvaluating.
  destruct (getCurrentRequest e); [|simpl; congruence].
  destruct (snapshotBefore e); [|simpl; congruence].
  destruct (evaluateFn e), (callback_throws env); simpl; auto; congruence.
Qed.

Lemma onCityChanged_invariant (env : Env) (c : City) (e : Engine) :
  invariant e -> invariant (engineOf (onCityChanged env c e)).
Proof.
  intros [Hi Hq]. unfold onCityChanged.
  destruct (phase e) eqn:Hp; try (split; assumption).
  - apply tryGenerateRequest_invariant; [assumption | split; assumption].
  - assert (Hf : evaluatePending e = false).
    { destruct (evaluatePending e) eqn:Hpend; [|reflexivity].
      specialize (Hq Hpend). congruence. }
    destruct (_ <=? 0).
    + split.
      * apply (no_active_invariant e); [assumption | congruence |].
        rewrite evaluate_requests. reflexivity.
      * apply evaluate_pending; [reflexivity | exact Hf].
    + split.
      * apply (no_active_invariant e); [assumption | congruence | reflexivity].
      * intro H. simpl in H. congruence.
Qed.

Lemma step_invariant (ev : Event) (env : Env) (c : City) (e : Engine) :
  invariant e -> invariant (engineOf (step ev env c e)).
Proof.
  intro H. destruct ev; simpl.
  - apply onCityChanged_invariant; assumption.
  - apply markResolved_invariant; assumption.
  - apply expireRequest_invariant; assumption.
  - destruct (evaluatePending e) eqn:Hpend; [|exact H].
    destruct H as [Hi Hq]. split.
    + apply (no_active_invariant e); [assumption | | reflexivity].
      rewrite (Hq Hpend). discriminate.
    + intro Hf. discriminate Hf.
  - destruct H as [Hi Hq]. split; [exact Hi | exact Hq].
Qed.

Lemma reachable_invariant (e : Engine) : reachable e -> invariant e.
Proof.
  induction 1 as [|ev env c e _ IH].
  - split.
    + intros j r Hn. destruct j; discriminate.
    + discriminate.
  - apply step_invariant; assumption.
Qed.

(** When all active objects of an array sit at one position, the filter
    keeps at most one of them. *)
(** *** The cooldown on the entries into idle *)

Lemma EnginePhase_eq_dec (p q : EnginePhase) : {p = q} + {p <> q}.
Proof. decide equality. Qed.

(** An entry that leaves the engine idle, out of another phase, has stored
    the cooldown computed on the city it leaves behind, with the draw of
    that entry, and the time of that entry. *)
Lemma step_idle_entry (ev : Event) (env : Env) (c : City) (e : Engine) :
  phase e <> idle -> phase (engineOf (step ev env c e)) = idle ->
  nextCooldownMs (engineOf (step ev env c e))
  = computeNextCooldown (cityOf (step ev env c e)) (rnd_jitter env)
  /\ lastIdleTime (engineOf (step ev env c e)) = now env.
Proof.
  intros Hne. destruct ev; cbn [step].
  - unfold onCityChanged. destruct (phase e) eqn:Hp; try contradiction;
      try (cbn [engineOf fst]; intro H; congruence).
    cbn [settleTicksRemaining withSettleTicks].
    destruct (_ <=? 0);
      [|cbn [engineOf fst phase withSettleTicks]; intro H; congruence].
    unfold evaluate.
    destruct (getCurrentRequest _); [|intros _; split; reflexivity].
    destruct (snapshotBefore _); [|intros _; split; reflexivity].
    destruct (evaluateFn _), (callback_throws env);
      try (intros _; split; reflexivity).
    cbn. discriminate.
  - unfold markResolved. destruct (phase e) eqn:Hp; try contradiction;
      try (cbn [engineOf fst]; intro H; congruence).
    destruct (currentRequest e); cbn; intro H; congruence.
  - unfold expireRequest. destruct (phase e) eqn:Hp; try contradiction;
      try (cbn [engineOf fst]; intro H; congruence).
    destruct (currentRequest e);
      [intros _; split; reflexivity | cbn [engineOf fst]; intro H; congruence].
  - destruct (evaluatePending e);
      [intros _; split; reflexivity | cbn [engineOf fst]; intro H; congruence].
  - cbn. intro H. congruence.
Qed.

(** Every other entry into a reachable engine keeps the stored cooldown and
    the time of the last entry into idle. *)
Lemma step_keeps_cooldown (ev : Event) (env : Env) (c : City) (e : Engine) :
  pendingInEvaluating e ->
  phase e = idle \/ phase (engineOf (step ev env c e)) <> idle ->
  nextCooldownMs (engineOf (step ev env c e)) = nextCooldownMs e
  /\ lastIdleTime (engineOf (step ev env c e)) = lastIdleTime e.
Proof.
  intros Hpend Hcase. destruct ev; cbn [step].
  - unfold onCityChanged. destruct (phase e) eqn:Hp; try (split; reflexivity).
    + unfold tryGenerateRequest.
      destruct (Qltb _ _); [split; reflexivity|].
      destruct (detectProblems c); [split; reflexivity|].
      destruct (nth_error _ _); split; reflexivity.
    + destruct Hcase as [Hc|Hc]; [discriminate|].
      cbn [step] in Hc. unfold onCityChanged in Hc. rewrite Hp in Hc.
      cbn [settleTicksRemaining withSettleTicks] in *.
      destruct (_ <=? 0); [|split; reflexivity].
      unfold evaluate in *.
      destruct (getCurrentRequest _); [|exfalso; apply Hc; reflexivity].
      destruct (snapshotBefore _); [|exfalso; apply Hc; reflexivity].
      destruct (evaluateFn _), (callback_throws env);
        try (exfalso; apply Hc; reflexivity).
      split; reflexivity.
  - unfold markResolved. destruct (phase e); try (split; reflexivity).
    destruct (currentRequest e); split; reflexivity.
  - destruct Hcase as [Hc|Hc].
    + unfold expireRequest. rewrite Hc. split; reflexivity.
    + cbn [step] in Hc. unfold expireRequest in *.
      destruct (phase e); try (split; reflexivity).
      destruct (currentRequest e); [|split; reflexivity].
      exfalso. apply Hc. reflexivity.
  - destruct (evaluatePending e) eqn:He; [|split; reflexivity].
    specialize (Hpend He). destruct Hcase as [Hc|Hc]; [congruence|].
    cbn [step] in Hc. rewrite He in Hc. exfalso. apply Hc. reflexivity.
  - split; reflexivity.
Qed.

Lemma reachable_cooldown_bounds (e : Engine) :
  reachable e -> (8000 <= nextCooldownMs e)%Q /\ (nextCooldownMs e <= 40000)%Q.
Proof.
  induction 1 as [|ev env c e Hr IH].
  - split; discriminate.
  - destruct (EnginePhase_eq_dec (phase e) idle) as [Hp|Hp].
    + rewrite (proj1 (step_keeps_cooldown ev env c e
                        (proj2 (reachable_invariant e Hr)) (or_introl Hp))).
      exact IH.
    + destruct (EnginePhase_eq_dec (phase (engineOf (step ev env c e))) idle)
        as [Hq|Hq].
      * rewrite (proj1 (step_idle_entry ev env c e Hp Hq)).
        apply clamp_bounds. discriminate.
      * rewrite (proj1 (step_keeps_cooldown ev env c e
                          (proj2 (reachable_invariant e Hr)) (or_intror Hq))).
        exact IH.
Qed.

(** C9: the cooldown is
    25 s - (100 - happiness)/100 x 8 s - min(problemCount x 2 s, 10 s)
    - min(population x 170 ms, 5 s) + jitter, clamped to [8 s, 40 s], the
    happiness being the city's own, or 50 while it is unset; the jitter of
    a draw lies in [-4 s, +4 s]; the value lies in [8000 ms, 40000 ms]
    whatever the happiness, the problems, the population and the draw.
    It is recomputed on every entry into idle: whichever entry (a tick that
    ends the evaluation, the expiry, the settling of the awaited callback)
    takes the engine from another phase to idle stores the cooldown of the
    city that entry leaves behind, with that entry's draw, and the time of
    that entry; every other entry into a reachable engine keeps the stored
    cooldown, and the stored cooldown of a reachable engine lies in
    [8000 ms, 40000 ms]. *)
Theorem computeNextCooldown_formula_and_bounds (c : City) (r : Q) :
  computeNextCooldown c r
  = cooldownFormula (match happiness c with Some h => h | None => 50%Q end)
      (Z.of_nat (length (detectProblems c)))
      (World.population c) (jitter r)
  /\ (8000 <= computeNextCooldown c r)%Q
  /\ (computeNextCooldown c r <= 40000)%Q
  /\ (validDraw r -> (-4000 <= jitter r)%Q /\ (jitter r <= 4000)%Q)
  /\ (forall env e,
        phase (transitionToIdle env c e) = idle
        /\ nextCooldownMs (transitionToIdle env c e)
           = computeNextCooldown c (rnd_jitter env))
  /\ (forall ev env e,
        phase e <> idle -> phase (engineOf (step ev env c e)) = idle ->
        nextCooldownMs (engineOf (step ev env c e))
        = computeNextCooldown (cityOf (step ev env c e)) (rnd_jitter env)
        /\ lastIdleTime (engineOf (step ev env c e)) = now env)
  /\ (forall ev env e,
        reachable e ->
        phase e = idle \/ phase (engineOf (step ev env c e)) <> idle ->
        nextCooldownMs (engineOf (step ev env c e)) = nextCooldownMs e
        /\ lastIdleTime (engineOf (step ev env c e)) = lastIdleTime e)
  /\ (forall e, reachable e ->
        (8000 <= nextCooldownMs e)%Q /\ (nextCooldownMs e <= 40000)%Q).
Proof.
  split; [|split; [|split; [|split; [|split; [|split; [|split]]]]]].
  - unfold computeNextCooldown, cooldownFormula, jitter.
    rewrite captureSnapshot_population. reflexivity.
  - apply clamp_bounds. discriminate.
  - apply clamp_bounds. discriminate.
  - intros [H0 H1]. unfold jitter, Qle, Qlt, Qminus, Qplus, Qmult, Qopp in *.
    destruct r as [n d]. simpl in *. lia.
  - intros env e. split; reflexivity.
  - intros ev env e. apply step_idle_entry.
  - intros ev env e Hr. apply step_keeps_cooldown.
    exact (proj2 (reachable_invariant e Hr)).
  - exact reachable_cooldown_bounds.
Qed.

Lemma filter_active_le_1 (l : list CitizenRequest) :
  (forall j k r r',
      nth_error l j = Some r -> status r = active ->
      nth_error l k = Some r' -> status r' = active -> j = k) ->
  (length (filter (fun r => isActive (status r)) l) <= 1)%nat.
Proof.
  induction l as [|a l IH]; intro H; simpl.
  - lia.
  - destruct (status a) eqn:Ha; simpl.
    + assert (Hnil : filter (fun r => isActive (status r)) l = []).
      { destruct (filter _ l) as [|b t] eqn:Hf; [reflexivity|].
        assert (Hb : In b (filter (fun r => isActive (status r)) l))
          by (rewrite Hf; left; reflexivity).
        apply filter_In in Hb. destruct Hb as [Hin Hact].
        apply In_nth_error in Hin. destruct Hin as [k Hk].
        assert (Hs : status b = active) by (destruct (status b); simpl in Hact; congruence).
        specialize (H O (S k) a b eq_refl Ha Hk Hs). discriminate. }
      rewrite Hnil. simpl. lia.
    + apply IH. intros j k r r' Hj Hr Hk Hr'.
      specialize (H (S j) (S k) r r' Hj Hr Hk Hr'). lia.
    + apply IH. intros j k r r' Hj Hr Hk Hr'.
      specialize (H (S j) (S k) r r' Hj Hr Hk Hr'). lia.
Qed.

(** C1: in every state the engine reaches under any interleaving of
    ticks, markResolved calls, expiry firings and settlings of the awaited
    callback, getActiveRequests returns at most one request; and
    markResolved called in a phase other than request_active leaves the
    engine as it is. *)
Theorem single_active_request :
  (forall e, reachable e -> (length (getActiveRequests e) <= 1)%nat)
  /\ (forall e, phase e <> request_active -> markResolved e = e).
Proof.
  split.
  - intros e Hr. apply reachable_invariant in Hr. destruct Hr as [Hi _].
    unfold getActiveRequests. apply filter_active_le_1.
    intros j k r r' Hj Hr Hk Hr'.
    destruct (Hi j r Hj Hr) as [_ H1]. destruct (Hi k r' Hk Hr') as [_ H2].
    congruence.
  - intros e Hp. unfold markResolved.
    destruct (phase e); try reflexivity. contradiction.
Qed.

(** *** The theorems on the sample engine *)

Lemma detectProblems_firing_conditions_witness :
  In housing (detectProblemsOf (captureSnapshot (Samples.hamlet 40 50))).
Proof.
  assert (Hnn : nonNegative (captureSnapshot (Samples.hamlet 40 50))).
  { vm_compute. repeat split; discriminate. }
  destruct (detectProblems_firing_conditions _ Hnn) as (_ & Hhousing & _).
  apply Hhousing. vm_compute. split; reflexivity.
Defined.

Lemma computeNextCooldown_formula_and_bounds_witness :
  ((-4000 <= jitter (1 # 4))%Q /\ (jitter (1 # 4) <= 4000)%Q)
  /\ nextCooldownMs
       (engineOf (step ExpiryFires Samples.env0 (Samples.hamlet 40 50) Samples.engine1))
     = computeNextCooldown (Samples.hamlet 40 50) (rnd_jitter Samples.env0).
Proof.
  destruct (computeNextCooldown_formula_and_bounds (Samples.hamlet 40 50) (1 # 4))
    as (_ & _ & _ & Hjitter & _ & Hentry & _).
  split.
  - apply Hjitter. split; vm_compute; [discriminate | reflexivity].
  - refine (proj1 (Hentry ExpiryFires Samples.env0 Samples.engine1 _ _)).
    + vm_compute. discriminate.
    + vm_compute. reflexivity.
Defined.

Lemma happiness_delta_and_clamp_witness :
  computeHappinessDelta Samples.request1
    (captureSnapshot (Samples.hamlet 40 50)) (captureSnapshot (Samples.hamlet 48 50))
  = 10.
Proof.
  destruct (happiness_delta_and_clamp Samples.engine1 (Samples.hamlet 48 50)
              Samples.env0 Samples.request1 (captureSnapshot (Samples.hamlet 40 50)))
    as (Himproved & _).
  - vm_compute. reflexivity.
  - vm_compute. reflexivity.
  - apply Himproved. vm_compute. reflexivity.
Defined.

Lemma checkRequestStatus_resolved_witness :
  resolved (checkRequestStatus (Samples.hamlet 48 50) Samples.engine1) = true
  /\ ~ idealCondition housing (captureSnapshot (Samples.hamlet 48 50)).
Proof.
  destruct (checkRequestStatus_resolved Samples.engine1 (Samples.hamlet 48 50)
              Samples.request1 (captureSnapshot (Samples.hamlet 40 50)))
    as (_ & Hscenario).
  - vm_compute. reflexivity.
  - vm_compute. reflexivity.
  - vm_compute. reflexivity.
  - destruct Hscenario as (Hres & Hideal & _);
      try (vm_compute; reflexivity).
    split; assumption.
Defined.

Lemma single_active_request_witness :
  (length (getActiveRequests Samples.engine1) <= 1)%nat
  /\ markResolved initial = initial.
Proof.
  destruct single_active_request as [Hone Hignored]. split.
  - apply Hone. apply reachable_step. apply reachable_initial.
  - apply Hignored. vm_compute. discriminate.
Defined.

End RequestEngineFacts.

(** ** SpeechCoordinator *)

Module SpeechCoordinatorFacts.
Import SpeechCoordinator.

Lemma indexOf_In (w : Waiter) (l : list Waiter) :
  In w l -> exists idx, indexOf w l = Some idx.
Proof.
  induction l as [|v l IH]; intro H; simpl.
  - destruct H.
  - destruct (Nat.eqb_spec v w) as [_|Hne]; [eauto|].
    destruct H as [H|H]; [contradiction|].
    destruct (IH H) as [idx ->]. simpl. eauto.
Qed.

Lemma indexOf_not_In (w : Waiter) (l : list Waiter) :
  ~ In w l -> indexOf w l = None.
Proof.
  induction l as [|v l IH]; intro H; simpl.
  - reflexivity.
  - destruct (Nat.eqb_spec v w) as [->|Hne].
    + exfalso. apply H. left. reflexivity.
    + rewrite IH; [reflexivity|]. intro Hin. apply H. right. assumption.
Qed.

(** Removing the first occurrence of [w] keeps every other waiter. *)
Lemma splice1_keeps_others (w v : Waiter) (l : list Waiter) (idx : nat) :
  indexOf w l = Some idx -> v <> w -> In v l -> In v (splice1 idx l).
Proof.
  revert idx. induction l as [|u l IH]; intros idx Hi Hv Hin; simpl in *.
  - discriminate.
  - destruct (Nat.eqb_spec u w) as [->|Hne].
    + injection Hi as <-. destruct Hin as [Hin|Hin]; [congruence | assumption].
    + destruct (indexOf w l) as [i|] eqn:E; [|discriminate].
      injection Hi as <-. simpl.
      destruct Hin as [Hin|Hin]; [left; assumption | right; apply IH; auto].
Qed.

Lemma splice1_drops_unique (w : Waiter) (l : list Waiter) (idx : nat) :
  indexOf w l = Some idx -> NoDup l -> ~ In w (splice1 idx l).
Proof.
  revert idx. induction l as [|u l IH]; intros idx Hi Hnd; simpl in *.
  - discriminate.
  - inversion Hnd as [|? ? Hnotin Hnd']; subst.
    destruct (Nat.eqb_spec u w) as [->|Hne].
    + injection Hi as <-. assumption.
    + destruct (indexOf w l) as [i|] eqn:E; [|discriminate].
      injection Hi as <-. simpl. intros [H|H]; [contradiction|].
      exact (IH i eq_refl Hnd' H).
Qed.

(** C3, as the code has it: when the failsafe of a waiter that is still
    queued fires, both speaking flags are set to false and that waiter alone
    is taken out of the queue and resolved; every other waiter stays queued
    and is not resolved by this firing.  The failsafe of a waiter no longer
    queued does nothing. *)
Theorem failsafe_releases_its_own_waiter (s : State) (w : Waiter) :
  (In w (waiters s) ->
   let o := failsafe w s in
   mayorSpeaking (fst o) = false
   /\ citizenSpeaking (fst o) = false
   /\ snd o = [w]
   /\ (NoDup (waiters s) -> ~ In w (waiters (fst o)))
   /\ (forall v, v <> w -> In v (waiters s) ->
                 In v (waiters (fst o)) /\ ~ In v (snd o)))
  /\ (~ In w (waiters s) -> failsafe w s = (s, [])).
Proof.
  split.
  - intros Hin o. subst o. unfold failsafe.
    destruct (indexOf_In w (waiters s) Hin) as [idx Hidx]. rewrite Hidx. simpl.
    repeat split; try reflexivity.
    + intro Hnd. apply splice1_drops_unique; assumption.
    + eapply splice1_keeps_others; eauto.
    + intros [H'|[]]. congruence.
  - intro Hn. unfold failsafe. rewrite indexOf_not_In by assumption. reflexivity.
Qed.

Lemma failsafe_releases_its_own_waiter_witness :
  snd (failsafe 1%nat Samples.twoWaiting) = [1%nat]
  /\ In 2%nat (waiters (fst (failsafe 1%nat Samples.twoWaiting))).
Proof.
  destruct (failsafe_releases_its_own_waiter Samples.twoWaiting 1%nat) as [Hqueued _].
  destruct Hqueued as (_ & _ & Hown & _ & Hothers).
  - vm_compute. left. reflexivity.
  - split; [exact Hown|].
    apply (Hothers 2%nat); [discriminate | vm_compute; right; left; reflexivity].
Defined.

(** C3, the failing input: with the mayor speaking and two callers queued,
    the failsafe of the first clears both flags and resolves the first only;
    the second, queued at that moment, is not resolved and stays queued,
    although neither voice is speaking any more: not what the comment of
    waitForSilence promises, nor what the two setters do, which flush the
    whole queue whenever a cleared flag leaves both false. *)
Lemma failsafe_does_not_release_all_waiters :
  waiters Samples.twoWaiting = [1%nat; 2%nat]
  /\ mayorSpeaking (fst (failsafe 1%nat Samples.twoWaiting)) = false
  /\ citizenSpeaking (fst (failsafe 1%nat Samples.twoWaiting)) = false
  /\ waiters (fst (failsafe 1%nat Samples.twoWaiting)) = [2%nat]
  /\ ~ (forall v, In v (waiters Samples.twoWaiting) ->
                  In v (snd (failsafe 1%nat Samples.twoWaiting))).
Proof.
  repeat split.
  intro H. specialize (H 2%nat). vm_compute in H.
  destruct H as [H|[]]; [right; left; reflexivity | discriminate H].
Qed.

End SpeechCoordinatorFacts.

(** ** DisasterService *)

Module DisasterServiceFacts.
Import World DisasterService.

Lemma In_range (n v : Z) : In v (range n) <-> 0 <= v < n.
Proof.
  unfold range. rewrite in_map_iff. split.
  - intros (i & <- & Hi). apply in_seq in Hi. lia.
  - intro H. exists (Z.to_nat v). split; [lia|]. apply in_seq. lia.
Qed.

Lemma In_coords (n a b : Z) : In (a, b) (coords n) <-> 0 <= a < n /\ 0 <= b < n.
Proof.
  unfold coords. rewrite in_flat_map. split.
  - intros (x0 & Hx & Hin). apply in_map_iff in Hin.
    destruct Hin as (y0 & Heq & Hy). injection Heq as <- <-.
    apply In_range in Hx. apply In_range in Hy. tauto.
  - intros [Ha Hb]. exists a. split; [apply In_range; assumption|].
    apply in_map_iff. exists b. split; [reflexivity | apply In_range; assumption].
Qed.

Lemma In_fromTo (lo hi v : Z) : In v (fromTo lo hi) <-> lo <= v <= hi.
Proof.
  unfold fromTo. rewrite in_map_iff. split.
  - intros (i & <- & Hi). apply in_seq in Hi. lia.
  - intro H. exists (Z.to_nat (v - lo)). split; [lia|]. apply in_seq. lia.
Qed.

Lemma In_extent (x0 x1 y0 y1 a b : Z) :
  In (a, b) (extent x0 x1 y0 y1) <-> x0 <= a <= x1 /\ y0 <= b <= y1.
Proof.
  unfold extent. rewrite in_flat_map. split.
  - intros (u & Hu & Hin). apply in_map_iff in Hin.
    destruct Hin as (v & Heq & Hv). injection Heq as <- <-.
    apply In_fromTo in Hu. apply In_fromTo in Hv. tauto.
  - intros [Ha Hb]. exists a. split; [apply In_fromTo; assumption|].
    apply in_map_iff. exists b. split; [reflexivity | apply In_fromTo; assumption].
Qed.

Lemma sampleSize_2_or_3 (r : Q) :
  validDraw r -> sampleSize r = 2 \/ sampleSize r = 3.
Proof.
  intro Hr. unfold sampleSize.
  pose proof (floor_draw_bounds r (cfg.maxAffectedSize - cfg.minAffectedSize + 1) Hr
                ltac:(reflexivity)) as H.
  change (cfg.maxAffectedSize - cfg.minAffectedSize + 1) with 2 in *.
  unfold cfg.minAffectedSize. lia.
Qed.

(** *** No trigger below the building threshold *)

(** C6: with no hazard active and fewer than minBuildingsForDisaster (8)
    tiles holding a building, a simulation step triggers nothing: for every
    draw and every tick count the service and the city are left as they are
    and no notification is emitted. *)
Theorem no_trigger_below_building_threshold (rnd : Draws) (s : Service) (c : City) :
  activeDisaster s = None ->
  buildingCount c < cfg.minBuildingsForDisaster ->
  cfg.minBuildingsForDisaster = 8
  /\ simulate rnd s c = (s, c, [])
  /\ activeDisaster (serviceOf (simulate rnd s c)) = None.
Proof.
  intros Hnone Hcount.
  assert (H : simulate rnd s c = (s, c, [])).
  { unfold simulate. rewrite Hnone. unfold tryTriggerDisaster.
    apply Z.ltb_lt in Hcount. rewrite Hcount. reflexivity. }
  split; [reflexivity|]. split; [exact H|]. rewrite H. exact Hnone.
Qed.

(** *** An active hazard has affected tiles *)

Lemma damageTile_grows (rnd : nat -> Q) (l : list (Z * Z)) :
  forall c acc, acc <> [] -> snd (fold_left (damageTile rnd) l (c, acc)) <> [].
Proof.
  induction l as [|[a b] l IH]; intros c acc Hacc; simpl.
  - assumption.
  - destruct (getTile c a b) as [tile|]; [|apply IH; assumption].
    apply IH. destruct acc; discriminate.
Qed.

Lemma damageTile_records_present_tile (rnd : nat -> Q) (l : list (Z * Z)) :
  forall c acc a b,
    In (a, b) l -> getTile c a b <> None ->
    snd (fold_left (damageTile rnd) l (c, acc)) <> [].
Proof.
  induction l as [|[u v] l IH]; intros c acc a b Hin Htile; simpl.
  - destruct Hin.
  - destruct (getTile c u v) as [tile|] eqn:Hu.
    + apply damageTile_grows. destruct acc; discriminate.
    + destruct Hin as [Heq|Hin].
      * injection Heq as -> ->. congruence.
      * eapply IH; eassumption.
Qed.

Lemma triggerDisaster_affects_epicenter (rnd : nat -> Q) (s : Service) (c : City)
    (ex ey sx sy : Z) (d : Disaster) :
  0 <= ex < size c -> 0 <= ey < size c ->
  sx = 2 \/ sx = 3 -> sy = 2 \/ sy = 3 ->
  getTile c ex ey <> None ->
  activeDisaster (serviceOf (triggerDisaster rnd s c ex ey sx sy)) = Some d ->
  affectedTiles d <> [].
Proof.
  intros Hx Hy Hsx Hsy Htile. unfold triggerDisaster.
  set (startX := Z.max 0 (ex - sx / 2)). set (startY := Z.max 0 (ey - sy / 2)).
  set (endX := Z.min (size c - 1) (startX + sx - 1)).
  set (endY := Z.min (size c - 1) (startY + sy - 1)).
  assert (Hin : In (ex, ey) (extent startX endX startY endY)).
  { apply In_extent. subst startX startY endX endY.
    destruct Hsx as [-> | ->], Hsy as [-> | ->];
      change (2 / 2) with 1; change (3 / 2) with 1; lia. }
  pose proof (damageTile_records_present_tile rnd _ c [] ex ey Hin Htile) as Hne.
  destruct (fold_left (damageTile rnd) (extent startX endX startY endY) (c, []))
    as [c' affected].
  simpl in Hne |- *. intro Hd. injection Hd as <-. exact Hne.
Qed.

Lemma buildingTiles_spec (c : City) (a b : Z) :
  In (a, b) (buildingTiles c) ->
  0 <= a < size c /\ 0 <= b < size c /\ getTile c a b <> None.
Proof.
  unfold buildingTiles. rewrite filter_In, In_coords.
  unfold hasBuilding, buildingAt. simpl.
  intros [[Ha Hb] Hh]. repeat split; try tauto.
  destruct (getTile c a b); [discriminate | discriminate Hh].
Qed.

Definition hasTiles (s : Service) : Prop :=
  forall d, activeDisaster s = Some d -> affectedTiles d <> [].

Lemma tryTriggerDisaster_hasTiles (rnd : Draws) (s : Service) (c : City) :
  validDraw (rnd_sizeX rnd) -> validDraw (rnd_sizeY rnd) ->
  hasTiles s -> hasTiles (serviceOf (tryTriggerDisaster rnd s c)).
Proof.
  intros Hsx Hsy Hs. unfold tryTriggerDisaster.
  destruct (_ <? _); [exact Hs|].
  destruct (tooSoon s c); [exact Hs|].
  destruct (Qltb _ _); [exact Hs|].
  destruct (buildingTiles c) as [|t0 ts] eqn:Hb; [exact Hs|].
  destruct (nth_error _ _) as [[ex ey]|] eqn:Hn; [|exact Hs].
  apply nth_error_In in Hn. rewrite <- Hb in Hn.
  apply buildingTiles_spec in Hn. destruct Hn as (Hx & Hy & Htile).
  intros d Hd. simpl in Hd.
  exact (triggerDisaster_affects_epicenter (rnd_recovery rnd) s c ex ey _ _ d
           Hx Hy (sampleSize_2_or_3 _ Hsx) (sampleSize_2_or_3 _ Hsy) Htile Hd).
Qed.

Lemma advanceRecovery_hasTiles (s : Service) (c : City) :
  hasTiles s -> hasTiles (serviceOf (advanceRecovery s c)).
Proof.
  intro Hs. unfold advanceRecovery.
  destruct (activeDisaster s) as [d|] eqn:Hd; [|exact Hs].
  destruct (advanceEntries c (affectedTiles d)) as [c' kept].
  destruct kept as [|k kept]; intros d' Hd'; simpl in Hd'.
  - discriminate.
  - injection Hd' as <-. simpl. discriminate.
Qed.

Lemma reachable_hasTiles (s : Service) : reachable s -> hasTiles s.
Proof.
  induction 1 as [|rnd c s _ IH He Hsx Hsy|s _ IH|s _ IH].
  - intros d Hd. discriminate.
  - unfold simulate. destruct (activeDisaster s) eqn:Hd.
    + apply advanceRecovery_hasTiles; assumption.
    + apply tryTriggerDisaster_hasTiles; assumption.
  - exact IH.
  - exact IH.
Qed.

(** C10: in every reachable state of the service an active hazard has a
    non-empty list of affected tiles; hence whenever getDisasterInfo reports
    an active hazard its tile count is positive and the average recovery
    progress is a quotient by a non-zero length. *)
Theorem active_disaster_has_affected_tiles (s : Service) :
  reachable s ->
  (forall d, activeDisaster s = Some d -> affectedTiles d <> [])
  /\ (forall c info,
        getDisasterInfo s c = Active info ->
        0 < i_affectedTileCount info /\ averageRecoveryProgress info <> None).
Proof.
  intro Hr. pose proof (reachable_hasTiles s Hr) as Hs.
  split; [exact Hs|].
  intros c info. unfold getDisasterInfo.
  destruct (activeDisaster s) as [d|] eqn:Hd; [|discriminate].
  specialize (Hs d Hd).
  intro H. injection H as <-. simpl.
  destruct (affectedTiles d) as [|t ts]; [contradiction|].
  simpl. split; [lia | discriminate].
Qed.

(** *** What the summary notification counts *)

Lemma getTile_setTile (c : City) (a b u v : Z) (t : Tile) :
  getTile (setTile c a b t) u v
  = if (u =? a) && (v =? b) then Some t else getTile c u v.
Proof. reflexivity. Qed.

Lemma getTile_setTile_same (c : City) (a b : Z) (t : Tile) :
  getTile (setTile c a b t) a b = Some t.
Proof. rewrite getTile_setTile, !Z.eqb_refl. reflexivity. Qed.

Lemma getTile_setTile_other (c : City) (a b u v : Z) (t : Tile) :
  (u, v) <> (a, b) -> getTile (setTile c a b t) u v = getTile c u v.
Proof.
  intro H. rewrite getTile_setTile.
  destruct (Z.eqb_spec u a), (Z.eqb_spec v b); simpl; try reflexivity.
  subst. contradiction.
Qed.

(** After the body of the tile loop has run for [(a, b)], that tile holds no
    building and every other tile is as before. *)
Lemma damageTile_city (rnd : nat -> Q) (c : City) (acc : list AffectedTile)
    (a b : Z) (tile : Tile) :
  getTile c a b = Some tile ->
  let c' := fst (damageTile rnd (c, acc) (a, b)) in
  buildingAt c' a b = None
  /\ (forall u v, (u, v) <> (a, b) -> getTile c' u v = getTile c u v)
  /\ snd (damageTile rnd (c, acc) (a, b))
     = acc ++ [ {| x := a; y := b;
                   totalRecoveryTicks := sampleRecoveryTicks (rnd (length acc)) |} ].
Proof.
  intro Ht. unfold damageTile. rewrite Ht.
  destruct (building tile) as [bld|] eqn:Hb.
  - unfold bulldoze. rewrite Ht, getTile_setTile_same. cbn [fst snd].
    unfold buildingAt. rewrite getTile_setTile_same.
    split; [reflexivity|]. split; [|reflexivity].
    intros u v Hne. rewrite !getTile_setTile_other by assumption. reflexivity.
  - rewrite Ht. cbn [fst snd].
    unfold buildingAt. rewrite getTile_setTile_same.
    split; [assumption|]. split; [|reflexivity].
    intros u v Hne. rewrite getTile_setTile_other by assumption. reflexivity.
Qed.

Definition allDemolished (c : City) (l : list AffectedTile) : Prop :=
  forall t, In t l -> entryHasNoBuilding c t = true.

Lemma damageTile_allDemolished (rnd : nat -> Q) (l : list (Z * Z)) :
  forall c acc,
    allDemolished c acc ->
    allDemolished (fst (fold_left (damageTile rnd) l (c, acc)))
                  (snd (fold_left (damageTile rnd) l (c, acc))).
Proof.
  induction l as [|[a b] l IH]; intros c acc Hacc; cbn [fold_left fst snd].
  - assumption.
  - destruct (getTile c a b) as [tile|] eqn:Ht.
    + pose proof (damageTile_city rnd c acc a b tile Ht) as H. cbv zeta in H.
      revert H. destruct (damageTile rnd (c, acc) (a, b)) as [c2 acc2].
      cbn [fst snd]. intros (Hnone & Hother & Hsnd). apply IH. subst acc2.
      intros t Hin. apply in_app_iff in Hin. unfold entryHasNoBuilding.
      destruct Hin as [Hin|[<-|[]]].
      * destruct (Z.eq_dec (x t) a) as [Hx|Hx];
          [destruct (Z.eq_dec (y t) b) as [Hy|Hy]|].
        -- rewrite Hx, Hy, Hnone. reflexivity.
        -- unfold buildingAt. rewrite Hother by congruence. apply (Hacc t Hin).
        -- unfold buildingAt. rewrite Hother by congruence. apply (Hacc t Hin).
      * simpl. rewrite Hnone. reflexivity.
    + assert (Hd : damageTile rnd (c, acc) (a, b) = (c, acc)).
      { unfold damageTile. rewrite Ht. reflexivity. }
      rewrite Hd. apply IH. assumption.
Qed.

Lemma filter_all {A} (f : A -> bool) (l : list A) :
  (forall a, In a l -> f a = true) -> filter f l = l.
Proof.
  induction l as [|a l IH]; intro H; simpl.
  - reflexivity.
  - rewrite (H a (or_introl eq_refl)). f_equal. apply IH.
    intros a' Ha'. apply H. right. assumption.
Qed.

(** The count the notification reports as destroyed buildings is taken after
    the demolition, over tiles that by then hold no building: it is the
    number of affected tiles, whatever stood on them. *)
Lemma triggerDisaster_notice (rnd : nat -> Q) (s : Service) (c : City)
    (ex ey sx sy : Z) (info : Notice) :
  In (DisasterNotice info) (emittedOf (triggerDisaster rnd s c ex ey sx sy)) ->
  destroyedBuildingCount info = affectedTileCount info.
Proof.
  unfold triggerDisaster.
  set (startX := Z.max 0 (ex - sx / 2)). set (startY := Z.max 0 (ey - sy / 2)).
  set (endX := Z.min (size c - 1) (startX + sx - 1)).
  set (endY := Z.min (size c - 1) (startY + sy - 1)).
  pose proof (damageTile_allDemolished rnd (extent startX endX startY endY) c []) as H.
  destruct (fold_left (damageTile rnd) (extent startX endX startY endY) (c, []))
    as [c' affected].
  simpl in H. unfold emittedOf. simpl.
  destruct (notifyFn s); simpl; [|tauto].
  intros [Heq|[]]. injection Heq as <-. simpl.
  rewrite filter_all; [reflexivity|]. apply H. intros t [].
Qed.

(** *** Accelerated recovery *)

Lemma advanceEntry_other (c : City) (e : AffectedTile) (a b : Z) :
  coordsOf e <> (a, b) ->
  getTile (fst (advanceEntry c e)) a b = getTile c a b.
Proof.
  intro Hne. unfold advanceEntry.
  destruct (getTile c (x e) (y e)) as [t|]; [|reflexivity].
  assert (Hne' : (a, b) <> (x e, y e)) by (intro H; apply Hne; symmetry; exact H).
  destruct (Qle_bool 1 _); cbn [fst]; apply getTile_setTile_other; assumption.
Qed.

Lemma advanceEntries_other (l : list AffectedTile) (a b : Z) :
  forall c,
    ~ In (a, b) (map coordsOf l) ->
    getTile (fst (advanceEntries c l)) a b = getTile c a b.
Proof.
  induction l as [|e l IH]; intros c Hn; cbn [advanceEntries].
  - reflexivity.
  - pose proof (advanceEntry_other c e a b) as He.
    destruct (advanceEntry c e) as [c1 recovered]. cbn [fst] in He.
    specialize (IH c1).
    destruct (advanceEntries c1 l) as [c2 kept]. cbn [fst] in IH |- *.
    rewrite IH, He; [reflexivity | |].
    + intro H. apply Hn. left. assumption.
    + intro H. apply Hn. right. assumption.
Qed.

Lemma advanceEntries_kept (l : list AffectedTile) (e : AffectedTile) :
  forall c, In e (snd (advanceEntries c l)) -> In e l.
Proof.
  induction l as [|a l IH]; intros c; cbn [advanceEntries].
  - intros [].
  - destruct (advanceEntry c a) as [c1 recovered]. specialize (IH c1).
    destruct (advanceEntries c1 l) as [c2 kept]. cbn [snd] in IH |- *.
    destruct recovered.
    + intro H. right. auto.
    + intros [H|H]; [left; assumption | right; auto].
Qed.

Lemma advanceEntries_NoDup (l : list AffectedTile) :
  forall c, NoDup (map coordsOf l) ->
            NoDup (map coordsOf (snd (advanceEntries c l))).
Proof.
  induction l as [|a l IH]; intros c Hnd; cbn [advanceEntries].
  - constructor.
  - inversion Hnd as [|? ? Hnotin Hnd']; subst.
    destruct (advanceEntry c a) as [c1 recovered].
    pose proof (IH c1 Hnd') as IH'.
    pose proof (fun e => advanceEntries_kept l e c1) as Hk.
    destruct (advanceEntries c1 l) as [c2 kept]. cbn [snd] in IH', Hk |- *.
    destruct recovered; [assumption|].
    cbn [map]. constructor; [|assumption].
    intro Hin. apply in_map_iff in Hin. destruct Hin as (e' & Heq & He').
    apply Hnotin. apply in_map_iff. exists e'. split; [assumption | auto].
Qed.

(** The tile of an entry after one recovery tick. *)
Definition recoveredTile (t : Tile) : Tile :=
  {| building := building t; damaged := false;
     recoveryProgress := 0; activeRecovery := false |}.

Definition progressedTile (total : Z) (t : Tile) : Tile :=
  {| building := building t; damaged := damaged t;
     recoveryProgress := advancedProgress total t;
     activeRecovery := activeRecovery t |}.

(** One pass of [advanceRecovery] over a list whose entries refer to
    distinct tiles, seen from one of its entries. *)
Lemma advanceEntries_entry (l : list AffectedTile) (e : AffectedTile) (t : Tile) :
  forall c,
    In e l -> NoDup (map coordsOf l) ->
    getTile c (x e) (y e) = Some t ->
    let c' := fst (advanceEntries c l) in
    let kept := snd (advanceEntries c l) in
    if Qle_bool 1 (advancedProgress (totalRecoveryTicks e) t)
    then getTile c' (x e) (y e) = Some (recoveredTile t) /\ ~ In e kept
    else getTile c' (x e) (y e) = Some (progressedTile (totalRecoveryTicks e) t)
         /\ In e kept.
Proof.
  induction l as [|a l IH]; intros c Hin Hnd Ht; [destruct Hin|].
  inversion Hnd as [|? ? Hnotin Hnd']; subst.
  cbn [advanceEntries]. cbv zeta.
  destruct Hin as [->|Hin].
  - (* the entry itself is visited first *)
    pose proof (advanceEntries_other l (x e) (y e)) as Hrest.
    pose proof (fun c1 => advanceEntries_kept l e c1) as Hk.
    unfold advanceEntry. rewrite Ht.
    destruct (Qle_bool 1 (advancedProgress (totalRecoveryTicks e) t)) eqn:Hq.
    + specialize (Hrest (setTile c (x e) (y e) (recoveredTile t)) Hnotin).
      specialize (Hk (setTile c (x e) (y e) (recoveredTile t))).
      unfold recoveredTile in *.
      destruct (advanceEntries _ l) as [c2 kept]. cbn [fst snd] in *.
      rewrite Hrest, getTile_setTile_same. split; [reflexivity|].
      intro H. apply Hnotin. apply in_map_iff. exists e. split; [reflexivity | auto].
    + specialize (Hrest (setTile c (x e) (y e)
                           (progressedTile (totalRecoveryTicks e) t)) Hnotin).
      unfold progressedTile in *.
      destruct (advanceEntries _ l) as [c2 kept]. cbn [fst snd] in *.
      rewrite Hrest, getTile_setTile_same. split; [reflexivity | left; reflexivity].
  - (* another entry is visited first; it leaves the tile of [e] alone *)
    assert (Hne : coordsOf a <> (x e, y e)).
    { intro H. apply Hnotin. rewrite H. apply in_map_iff.
      exists e. split; [reflexivity | assumption]. }
    assert (Hae : a <> e) by (intro H; apply Hne; rewrite H; reflexivity).
    pose proof (advanceEntry_other c a (x e) (y e) Hne) as Ha.
    destruct (advanceEntry c a) as [c1 recovered]. cbn [fst] in Ha.
    rewrite <- Ha in Ht.
    specialize (IH c1 Hin Hnd' Ht). cbv zeta in IH.
    destruct (advanceEntries c1 l) as [c2 kept]. cbn [fst snd] in *.
    destruct (Qle_bool 1 (advancedProgress (totalRecoveryTicks e) t)).
    + destruct IH as [IH1 IH2]. split; [assumption|].
      destruct recovered; [assumption|]. intros [H|H]; [contradiction | auto].
    + destruct IH as [IH1 IH2]. split; [assumption|].
      destruct recovered; [assumption | right; assumption].
Qed.

(** The entries of a hazard refer to distinct tiles. *)
Definition distinctTiles (s : Service) : Prop :=
  forall d, activeDisaster s = Some d -> NoDup (map coordsOf (affectedTiles d)).

Lemma NoDup_fromTo (lo hi : Z) : NoDup (fromTo lo hi).
Proof.
  unfold fromTo. apply Injective_map_NoDup; [|apply seq_NoDup].
  intros i j H. lia.
Qed.

Lemma NoDup_extent (x0 x1 y0 y1 : Z) : NoDup (extent x0 x1 y0 y1).
Proof.
  unfold extent. pose proof (NoDup_fromTo y0 y1) as Hy.
  induction (NoDup_fromTo x0 x1) as [|u us Hnotin _ IH]; simpl; [constructor|].
  apply NoDup_app.
  - apply Injective_map_NoDup; [|assumption]. intros a b H. congruence.
  - assumption.
  - intros [a b] Hin Hin'. apply in_map_iff in Hin.
    destruct Hin as (v & Heq & _). injection Heq as <- <-.
    apply in_flat_map in Hin'. destruct Hin' as (u' & Hu' & Hm).
    apply in_map_iff in Hm. destruct Hm as (v' & Heq & _).
    injection Heq as -> _. contradiction.
Qed.

Lemma damageTile_distinct (rnd : nat -> Q) (l : list (Z * Z)) :
  forall c acc,
    NoDup l -> NoDup (map coordsOf acc) ->
    (forall p, In p (map coordsOf acc) -> ~ In p l) ->
    NoDup (map coordsOf (snd (fold_left (damageTile rnd) l (c, acc)))).
Proof.
  induction l as [|[a b] l IH]; intros c acc Hl Hacc Hsep; cbn [fold_left snd].
  - assumption.
  - inversion Hl as [|? ? Hnotin Hl']; subst.
    destruct (getTile c a b) as [tile|] eqn:Ht.
    + pose proof (damageTile_city rnd c acc a b tile Ht) as H. cbv zeta in H.
      revert H. destruct (damageTile rnd (c, acc) (a, b)) as [c2 acc2].
      cbn [fst snd]. intros (_ & _ & ->). apply IH; [assumption | |].
      * rewrite map_app. apply NoDup_app; [assumption | |].
        -- constructor; [intros [] | constructor].
        -- intros p Hp [<-|[]]. apply (Hsep _ Hp). left. reflexivity.
      * intros p Hp. rewrite map_app in Hp. apply in_app_iff in Hp.
        destruct Hp as [Hp|[<-|[]]].
        -- intro Hin. apply (Hsep _ Hp). right. assumption.
        -- exact Hnotin.
    + assert (Hd : damageTile rnd (c, acc) (a, b) = (c, acc)).
      { unfold damageTile. rewrite Ht. reflexivity. }
      rewrite Hd. apply IH; [assumption | assumption |].
      intros p Hp Hin. apply (Hsep _ Hp). right. assumption.
Qed.

Lemma triggerDisaster_distinctTiles (rnd : nat -> Q) (s : Service) (c : City)
    (ex ey sx sy : Z) :
  distinctTiles (serviceOf (triggerDisaster rnd s c ex ey sx sy)).
Proof.
  unfold triggerDisaster.
  set (startX := Z.max 0 (ex - sx / 2)). set (startY := Z.max 0 (ey - sy / 2)).
  set (endX := Z.min (size c - 1) (startX + sx - 1)).
  set (endY := Z.min (size c - 1) (startY + sy - 1)).
  pose proof (damageTile_distinct rnd _ c [] (NoDup_extent startX endX startY endY)
                (NoDup_nil _) (fun p (H : In p []) => match H with end)) as Hnd.
  destruct (fold_left (damageTile rnd) (extent startX endX startY endY) (c, []))
    as [c' affected].
  cbn [snd] in Hnd. intros d Hd. injection Hd as <-. exact Hnd.
Qed.

(** Every hazard the service reaches refers to distinct tiles. *)
Lemma reachable_distinctTiles (s : Service) : reachable s -> distinctTiles s.
Proof.
  induction 1 as [|rnd c s _ IH He Hsx Hsy|s _ IH|s _ IH]; try exact IH.
  - intros d Hd. discriminate.
  - unfold simulate. destruct (activeDisaster s) as [d0|] eqn:Hd0.
    + unfold advanceRecovery. rewrite Hd0.
      pose proof (advanceEntries_NoDup _ c (IH d0 Hd0)) as Hnd.
      destruct (advanceEntries c (affectedTiles d0)) as [c' kept].
      cbn [snd] in Hnd.
      destruct kept as [|k kept]; intros d Hd; simpl in Hd; [discriminate|].
      injection Hd as <-. exact Hnd.
    + unfold tryTriggerDisaster.
      destruct (_ <? _); [exact IH|].
      destruct (tooSoon s c); [exact IH|].
      destruct (Qltb _ _); [exact IH|].
      destruct (buildingTiles c) as [|t0 ts]; [exact IH|].
      destruct (nth_error _ _) as [[ex ey]|]; [|exact IH].
      apply triggerDisaster_distinctTiles.
Qed.

(** The state of an actively recovered entry of 300 ticks after [k]
    recovery ticks, while it is still on the list. *)
Definition recovering (e : AffectedTile) (k : nat) (s : Service) (c : City) : Prop :=
  exists d t,
    activeDisaster s = Some d
    /\ In e (affectedTiles d)
    /\ NoDup (map coordsOf (affectedTiles d))
    /\ getTile c (x e) (y e) = Some t
    /\ damaged t = true
    /\ activeRecovery t = true
    /\ (recoveryProgress t == inject_Z (Z.of_nat k) * (5 # 300))%Q.

Lemma increment_300_active : (increment 300 true == 5 # 300)%Q.
Proof. reflexivity. Qed.

Lemma progress_sum (t : Tile) (k : nat) :
  activeRecovery t = true ->
  (recoveryProgress t == inject_Z (Z.of_nat k) * (5 # 300))%Q ->
  (recoveryProgress t + increment 300 (activeRecovery t)
   == inject_Z (Z.of_nat (S k)) * (5 # 300))%Q.
Proof.
  intros Ha Hp. rewrite Ha, Hp, increment_300_active.
  rewrite Nat2Z.inj_succ. unfold Z.succ. rewrite inject_Z_plus. ring.
Qed.

Lemma ticks_value_lt_1 (k : nat) :
  (k < 60)%nat -> (inject_Z (Z.of_nat k) * (5 # 300) < 1)%Q.
Proof.
  intro H. unfold Qlt, Qmult, inject_Z. cbn [Qnum Qden]. lia.
Qed.

Lemma advancedProgress_before_60 (t : Tile) (k : nat) :
  activeRecovery t = true ->
  (recoveryProgress t == inject_Z (Z.of_nat k) * (5 # 300))%Q ->
  (S k < 60)%nat ->
  (advancedProgress 300 t == inject_Z (Z.of_nat (S k)) * (5 # 300))%Q
  /\ Qle_bool 1 (advancedProgress 300 t) = false.
Proof.
  intros Ha Hp Hk. pose proof (progress_sum t k Ha Hp) as Hs.
  pose proof (ticks_value_lt_1 (S k) Hk) as Hlt.
  unfold advancedProgress. split.
  - rewrite <- Hs. apply Q.min_r. rewrite Hs. apply Qlt_le_weak. assumption.
  - destruct (Qle_bool 1 _) eqn:E; [|reflexivity].
    apply Qle_bool_iff in E. apply Q.min_glb_r in E. rewrite Hs in E.
    exfalso. exact (Qlt_not_le _ _ Hlt E).
Qed.

Lemma advancedProgress_at_60 (t : Tile) :
  activeRecovery t = true ->
  (recoveryProgress t == inject_Z (Z.of_nat 59) * (5 # 300))%Q ->
  (advancedProgress 300 t == 1)%Q
  /\ Qle_bool 1 (advancedProgress 300 t) = true.
Proof.
  intros Ha Hp. pose proof (progress_sum t 59 Ha Hp) as Hs.
  assert (H1 : (recoveryProgress t + increment 300 (activeRecovery t) == 1)%Q).
  { rewrite Hs. reflexivity. }
  assert (Hm : (advancedProgress 300 t == 1)%Q).
  { unfold advancedProgress. rewrite H1. reflexivity. }
  split; [exact Hm|]. apply Qle_bool_iff. rewrite Hm. apply Qle_refl.
Qed.

Lemma recovering_tick (rnd : Draws) (e : AffectedTile) (k : nat)
    (s : Service) (c : City) :
  totalRecoveryTicks e = 300 -> (S k < 60)%nat ->
  recovering e k s c ->
  recovering e (S k) (serviceOf (simulate rnd s c)) (cityOf (simulate rnd s c)).
Proof.
  intros HT Hk (d & t & Hd & Hin & Hnd & Ht & Hdam & Hact & Hp).
  destruct (advancedProgress_before_60 t k Hact Hp Hk) as [Hval Hq].
  pose proof (advanceEntries_entry _ e t c Hin Hnd Ht) as He.
  pose proof (advanceEntries_NoDup _ c Hnd) as Hnd'.
  cbv zeta in He. rewrite HT, Hq in He.
  unfold simulate, advanceRecovery. rewrite Hd.
  destruct (advanceEntries c (affectedTiles d)) as [c' kept].
  cbn [fst snd] in He, Hnd'. destruct He as [Hget Hkept].
  destruct kept as [|k0 kept]; [destruct Hkept|].
  unfold serviceOf, cityOf. cbn [fst snd].
  eexists. exists (progressedTile 300 t).
  split; [reflexivity|]. cbn [affectedTiles activeDisaster].
  repeat split; try assumption.
Qed.

Lemma recovering_last_tick (rnd : Draws) (e : AffectedTile)
    (s : Service) (c : City) :
  totalRecoveryTicks e = 300 ->
  recovering e 59 s c ->
  (exists t', getTile (cityOf (simulate rnd s c)) (x e) (y e) = Some t'
              /\ damaged t' = false)
  /\ (forall d', activeDisaster (serviceOf (simulate rnd s c)) = Some d' ->
                 ~ In e (affectedTiles d')).
Proof.
  intros HT (d & t & Hd & Hin & Hnd & Ht & Hdam & Hact & Hp).
  destruct (advancedProgress_at_60 t Hact Hp) as [Hval Hq].
  pose proof (advanceEntries_entry _ e t c Hin Hnd Ht) as He.
  cbv zeta in He. rewrite HT, Hq in He.
  unfold simulate, advanceRecovery. rewrite Hd.
  destruct (advanceEntries c (affectedTiles d)) as [c' kept].
  cbn [fst snd] in He. destruct He as [Hget Hkept].
  destruct kept as [|k0 kept]; unfold serviceOf, cityOf; cbn [fst snd].
  - split; [exists (recoveredTile t); split; [assumption | reflexivity]|].
    intros d' Hd'. discriminate.
  - split; [exists (recoveredTile t); split; [assumption | reflexivity]|].
    intros d' Hd'. injection Hd' as <-. assumption.
Qed.

Lemma simulateN_S (n : nat) (rnd : nat -> Draws) (s : Service) (c : City) :
  simulateN (S n) rnd s c
  = (serviceOf (simulate (rnd n) (fst (simulateN n rnd s c)) (snd (simulateN n rnd s c))),
     cityOf (simulate (rnd n) (fst (simulateN n rnd s c)) (snd (simulateN n rnd s c)))).
Proof.
  cbn [simulateN]. destruct (simulateN n rnd s c). reflexivity.
Qed.

Lemma recovering_simulateN (rnd : nat -> Draws) (e : AffectedTile)
    (s : Service) (c : City) (k : nat) :
  totalRecoveryTicks e = 300 -> (k < 60)%nat ->
  recovering e 0 s c ->
  recovering e k (fst (simulateN k rnd s c)) (snd (simulateN k rnd s c)).
Proof.
  intros HT Hk H0. induction k as [|k IH].
  - exact H0.
  - rewrite simulateN_S. cbn [fst snd].
    apply recovering_tick; [assumption | assumption | apply IH; lia].
Qed.

(** Rounding does not move the tick: in binary64 arithmetic too the
    progress of such a tile is below 1 after 59 ticks and is 1 at the 60th. *)
Remark binary64_progress_reaches_one_at_tick_60 :
  PrimFloat.leb 1%float (progressAfter64 59 300%float true) = false
  /\ PrimFloat.leb 1%float (progressAfter64 60 300%float true) = true.
Proof.
  split; vm_compute; reflexivity.
Qed.

(** C5: an affected tile of 300 total recovery ticks, actively recovered
    from the start (multiplier 5, so 5/300 per tick), is still damaged and on
    the list with progress k x 5/300 < 1 after k < 60 recovery ticks; the
    60th tick brings its progress to exactly 1, clears its damage and takes
    it off the hazard's list. *)
Theorem active_recovery_completes_at_tick_60 (rnd : nat -> Draws)
    (s : Service) (c : City) (d : Disaster) (e : AffectedTile) (t : Tile) :
  activeDisaster s = Some d ->
  In e (affectedTiles d) ->
  NoDup (map coordsOf (affectedTiles d)) ->
  totalRecoveryTicks e = 300 ->
  getTile c (x e) (y e) = Some t ->
  damaged t = true -> activeRecovery t = true ->
  (recoveryProgress t == 0)%Q ->
  (increment (totalRecoveryTicks e) true == 5 # 300)%Q
  /\ (forall k, (k < 60)%nat ->
        exists d' t',
          activeDisaster (fst (simulateN k rnd s c)) = Some d'
          /\ In e (affectedTiles d')
          /\ getTile (snd (simulateN k rnd s c)) (x e) (y e) = Some t'
          /\ damaged t' = true
          /\ (recoveryProgress t' == inject_Z (Z.of_nat k) * (5 # 300))%Q
          /\ (recoveryProgress t' < 1)%Q)
  /\ (exists t59,
        getTile (snd (simulateN 59 rnd s c)) (x e) (y e) = Some t59
        /\ (advancedProgress (totalRecoveryTicks e) t59 == 1)%Q)
  /\ (exists t60,
        getTile (snd (simulateN 60 rnd s c)) (x e) (y e) = Some t60
        /\ damaged t60 = false)
  /\ (forall d', activeDisaster (fst (simulateN 60 rnd s c)) = Some d' ->
                 ~ In e (affectedTiles d')).
Proof.
  intros Hd Hin Hnd HT Ht Hdam Hact Hp.
  assert (H0 : recovering e 0 s c).
  { exists d, t. repeat split; try assumption. rewrite Hp. reflexivity. }
  pose proof (fun k Hk => recovering_simulateN rnd e s c k HT Hk H0) as Hrec.
  split; [rewrite HT; apply increment_300_active|].
  split; [|split].
  - intros k Hk. destruct (Hrec k Hk) as (d' & t' & H1 & H2 & _ & H4 & H5 & _ & H7).
    exists d', t'. repeat split; try assumption.
    rewrite H7. apply ticks_value_lt_1. assumption.
  - destruct (Hrec 59%nat ltac:(lia)) as (d' & t' & _ & _ & _ & H4 & _ & H6 & H7).
    exists t'. split; [assumption|]. rewrite HT.
    apply (advancedProgress_at_60 t' H6 H7).
  - rewrite simulateN_S. cbn [fst snd].
    apply recovering_last_tick; [assumption | apply Hrec; lia].
Qed.

(** *** The theorems on the sample services *)

Lemma no_trigger_below_building_threshold_witness :
  simulate Samples.draws0 initial (Samples.hamlet 40 50)
  = (initial, Samples.hamlet 40 50, []).
Proof.
  destruct (no_trigger_below_building_threshold Samples.draws0 initial
              (Samples.hamlet 40 50)) as (_ & Hsame & _).
  - reflexivity.
  - vm_compute. reflexivity.
  - exact Hsame.
Defined.

Lemma validDraw_0 : validDraw 0.
Proof. split; [discriminate | reflexivity]. Qed.

Lemma active_disaster_has_affected_tiles_witness :
  exists d, activeDisaster Samples.service1 = Some d /\ affectedTiles d <> [].
Proof.
  destruct (active_disaster_has_affected_tiles Samples.service1) as [Htiles _].
  - apply reachable_simulate; try exact validDraw_0.
    apply reachable_setNotifyFn. apply reachable_initial.
  - eexists. split; [vm_compute; reflexivity|].
    apply Htiles. vm_compute. reflexivity.
Defined.

Lemma service1_reachable : reachable Samples.service1.
Proof.
  apply reachable_simulate; try exact validDraw_0.
  apply reachable_setNotifyFn. apply reachable_initial.
Qed.

Lemma active_recovery_completes_at_tick_60_witness :
  exists t60,
    getTile (snd (simulateN 60 (fun _ => Samples.draws0)
                    Samples.service1 Samples.townUnderRecovery)) 0 0 = Some t60
    /\ damaged t60 = false.
Proof.
  edestruct (active_recovery_completes_at_tick_60 (fun _ => Samples.draws0)
               Samples.service1 Samples.townUnderRecovery)
    with (e := Samples.entry300) as (_ & _ & _ & Hcleared & _).
  - vm_compute. reflexivity.
  - vm_compute. left. reflexivity.
  - apply (reachable_distinctTiles _ service1_reachable). vm_compute. reflexivity.
  - reflexivity.
  - vm_compute. reflexivity.
  - reflexivity.
  - reflexivity.
  - reflexivity.
  - exact Hcleared.
Defined.

(** C7 on a 4 x 4 city with eight shops: the hazard at (0, 0) covers the
    four tiles (0,0), (0,1), (1,0), (1,1), of which three hold a building at
    trigger time; the one notification emitted reports four affected tiles
    and four destroyed buildings. *)
Theorem destroyed_count_is_tile_count_on_town :
  let c := Samples.town in
  let o := simulate Samples.draws0 (setNotifyFn initial) c in
  buildingCount c = 8
  /\ map coordsOf (match activeDisaster (serviceOf o) with
                   | Some d => affectedTiles d
                   | None => []
                   end) = [(0, 0); (0, 1); (1, 0); (1, 1)]
  /\ filter (hasBuilding c) [(0, 0); (0, 1); (1, 0); (1, 1)] = [(0, 0); (0, 1); (1, 0)]
  /\ emittedOf o
     = [ DisasterNotice {| n_epicenterX := 0; n_epicenterY := 0;
                           affectedTileCount := 4;
                           destroyedBuildingCount := 4 |} ].
Proof.
  vm_compute. repeat split.
Qed.

End DisasterServiceFacts.

(** ** RequestEngine: the life cycle of a request *)

Module RequestEngineLifecycle.
Import World RequestEngine RequestEngineFacts.

Lemma nth_error_writeStatus (i j : nat) (st : RequestStatus) (l : list CitizenRequest) :
  nth_error (writeStatus i st l) j
  = if Nat.eqb j i then option_map (setStatus st) (nth_error l j) else nth_error l j.
Proof.
  revert i j. induction l as [|a l IH]; intros i j.
  - destruct i, j; simpl; try reflexivity; destruct (Nat.eqb j i); reflexivity.
  - destruct i as [|i], j as [|j]; simpl; try reflexivity. apply IH.
Qed.

Lemma length_writeStatus (i : nat) (st : RequestStatus) (l : list CitizenRequest) :
  length (writeStatus i st l) = length l.
Proof.
  revert i. induction l as [|a l IH]; intros [|i]; simpl; try reflexivity.
  f_equal. apply IH.
Qed.

(** The slot of the engine in a given phase: idle holds no request, no
    snapshot and no timer; every other phase holds the request object at
    [currentRequest] and the snapshot taken when it was raised. *)
Definition slot (e : Engine) : Prop :=
  match phase e with
  | idle =>
    currentRequest e = None /\ snapshotBefore e = None /\ expiryTimeoutId e = None
  | request_active =>
    exists i r b,
      currentRequest e = Some i /\ nth_error (requests e) i = Some r
      /\ status r = active /\ snapshotBefore e = Some b
      /\ expiryTimeoutId e = Some (createdAt r + EXPIRY_MS)
  | settling =>
    exists i r b,
      currentRequest e = Some i /\ nth_error (requests e) i = Some r
      /\ status r = fulfilled /\ snapshotBefore e = Some b
      /\ expiryTimeoutId e = None
      /\ 1 <= settleTicksRemaining e <= SETTLE_TICKS
  | evaluating =>
    exists i r b,
      currentRequest e = Some i /\ nth_error (requests e) i = Some r
      /\ status r = fulfilled /\ snapshotBefore e = Some b
      /\ expiryTimeoutId e = None
      /\ evaluatePending e = true
  end.

Lemma tryGenerateRequest_slot (env : Env) (c : City) (e : Engine) :
  phase e = idle -> slot e -> slot (engineOf (tryGenerateRequest env c e)).
Proof.
  intros Hp Hs. unfold tryGenerateRequest.
  destruct (Qltb _ _); [exact Hs|].
  destruct (detectProblems c) as [|p ps]; [exact Hs|].
  destruct (nth_error _ _) as [problem|]; [|exact Hs].
  unfold slot. simpl.
  exists (length (requests e)), (createRequest env problem), (captureSnapshot c).
  repeat split.
  rewrite nth_error_app2 by lia. rewrite Nat.sub_diag. reflexivity.
Qed.

Lemma markResolved_slot (e : Engine) : slot e -> slot (markResolved e).
Proof.
  intro Hs. unfold markResolved.
  destruct (phase e) eqn:Hp; try exact Hs.
  destruct (currentRequest e) as [i|] eqn:Hc; [|exact Hs].
  unfold slot in Hs. rewrite Hp in Hs.
  destruct Hs as (i' & r & b & Hi & Hn & Hst & Hb & Ht).
  rewrite Hc in Hi. injection Hi as <-.
  unfold slot. simpl.
  exists i, (setStatus fulfilled r), b. repeat split; try assumption.
  - rewrite nth_error_writeStatus, Nat.eqb_refl, Hn. reflexivity.
  - unfold SETTLE_TICKS. lia.
  - unfold SETTLE_TICKS. lia.
Qed.

Lemma expireRequest_slot (env : Env) (c : City) (e : Engine) :
  slot e -> slot (engineOf (expireRequest env c e)).
Proof.
  intro Hs. unfold expireRequest.
  destruct (phase e) eqn:Hp; try exact Hs.
  destruct (currentRequest e) as [i|] eqn:Hc; [|exact Hs].
  unfold slot. simpl. repeat split.
Qed.

Lemma evaluate_slot (env : Env) (c : City) (e : Engine) :
  phase e = evaluating ->
  (exists i r b,
      currentRequest e = Some i /\ nth_error (requests e) i = Some r
      /\ status r = fulfilled /\ snapshotBefore e = Some b
      /\ expiryTimeoutId e = None) ->
  slot (engineOf (evaluate env c e)).
Proof.
  intros Hp (i & r & b & Hi & Hn & Hst & Hb & Ht).
  unfold evaluate, getCurrentRequest. rewrite Hi, Hn, Hb.
  destruct (evaluateFn e), (callback_throws env); unfold slot; simpl.
  - repeat split. assumption.
  - rewrite Hp. exists i, r, b. repeat split; assumption.
  - repeat split. assumption.
  - repeat split. assumption.
Qed.

Lemma onCityChanged_slot (env : Env) (c : City) (e : Engine) :
  slot e -> slot (engineOf (onCityChanged env c e)).
Proof.
  intro Hs. unfold onCityChanged.
  destruct (phase e) eqn:Hp; try exact Hs.
  - apply tryGenerateRequest_slot; assumption.
  - unfold slot in Hs. rewrite Hp in Hs.
    destruct Hs as (i & r & b & Hi & Hn & Hst & Hb & Ht & Hk).
    cbn [settleTicksRemaining withSettleTicks].
    destruct (Z.leb_spec (settleTicksRemaining e - 1) 0) as [Hle|Hgt].
    + apply evaluate_slot; [reflexivity|].
      exists i, r, b. repeat split; assumption.
    + unfold slot. simpl. rewrite Hp.
      exists i, r, b. repeat split; try assumption; lia.
Qed.

Lemma step_slot (ev : Event) (env : Env) (c : City) (e : Engine) :
  invariant e -> slot e -> slot (engineOf (step ev env c e)).
Proof.
  intros [_ Hq] Hs. destruct ev; simpl.
  - apply onCityChanged_slot; assumption.
  - apply markResolved_slot; assumption.
  - apply expireRequest_slot; assumption.
  - destruct (evaluatePending e) eqn:Hpend; [|exact Hs].
    specialize (Hq Hpend). unfold slot in Hs. rewrite Hq in Hs.
    destruct Hs as (i & r & b & _ & _ & _ & _ & Ht & _).
    unfold slot. simpl. repeat split. assumption.
  - exact Hs.
Qed.

Lemma reachable_slot (e : Engine) : reachable e -> slot e.
Proof.
  induction 1 as [|ev env c e Hr IH].
  - unfold slot. simpl. repeat split.
  - apply step_slot; [apply reachable_invariant; assumption | assumption].
Qed.

Lemma engine1_reachable : reachable Samples.engine1.
Proof. apply reachable_step. apply reachable_initial. Qed.

(** [raisedOn c0 e]: a tick on the city [c0] raised a request on a
    reachable idle engine, and no entry since then has taken the engine back
    to idle; [e] is the engine now. *)
Inductive raisedOn (c0 : City) : Engine -> Prop :=
| raised_now (env : Env) (e : Engine) :
    reachable e -> phase e = idle ->
    phase (engineOf (step Tick env c0 e)) = request_active ->
    raisedOn c0 (engineOf (step Tick env c0 e))
| raised_kept (ev : Event) (env : Env) (c : City) (e : Engine) :
    raisedOn c0 e ->
    phase (engineOf (step ev env c e)) <> idle ->
    raisedOn c0 (engineOf (step ev env c e)).

(** An entry that finds the engine outside idle and leaves it outside idle
    keeps the current request and the stored snapshot. *)
Lemma step_keeps_snapshot (ev : Event) (env : Env) (c : City) (e : Engine) :
  phase e <> idle -> phase (engineOf (step ev env c e)) <> idle ->
  snapshotBefore (engineOf (step ev env c e)) = snapshotBefore e
  /\ currentRequest (engineOf (step ev env c e)) = currentRequest e.
Proof.
  intros Hne. destruct ev; cbn [step].
  - unfold onCityChanged. destruct (phase e) eqn:Hp; try contradiction;
      try (intros _; split; reflexivity).
    cbn [settleTicksRemaining withSettleTicks].
    destruct (_ <=? 0); [|intros _; split; reflexivity].
    unfold evaluate.
    destruct (getCurrentRequest _); [|intro H; exfalso; apply H; reflexivity].
    destruct (snapshotBefore _) eqn:Hb; [|intro H; exfalso; apply H; reflexivity].
    destruct (evaluateFn _), (callback_throws env);
      try (intro H; exfalso; apply H; reflexivity).
    intros _. cbn in *. split; [first [reflexivity | exact Hb | symmetry; exact Hb] | reflexivity].
  - cbn [engineOf fst]. unfold markResolved.
    destruct (phase e); try (intros _; split; reflexivity).
    destruct (currentRequest e) eqn:Hc; intros _; split; cbn; congruence.
  - unfold expireRequest. destruct (phase e); try (intros _; split; reflexivity).
    destruct (currentRequest e) eqn:Hc; [|intros _; split; cbn; congruence].
    intro H. exfalso. apply H. reflexivity.
  - destruct (evaluatePending e); [|intros _; split; reflexivity].
    intro H. exfalso. apply H. reflexivity.
  - intros _. split; reflexivity.
Qed.

Lemma raisedOn_snapshot (c0 : City) (e : Engine) :
  raisedOn c0 e ->
  phase e <> idle /\ snapshotBefore e = Some (captureSnapshot c0).
Proof.
  induction 1 as [env e Hr Hp Hq|ev env c e Hraised [IHp IHs] Hq].
  - split; [rewrite Hq; discriminate|].
    revert Hq. cbn [step]. unfold onCityChanged. rewrite Hp.
    unfold tryGenerateRequest.
    destruct (Qltb _ _); [cbn [engineOf fst]; congruence|].
    destruct (detectProblems c0); [cbn [engineOf fst]; congruence|].
    destruct (nth_error _ _); [|cbn [engineOf fst]; congruence].
    intros _. reflexivity.
  - split; [exact Hq|].
    rewrite (proj1 (step_keeps_snapshot ev env c e IHp Hq)). exact IHs.
Qed.

(** X1: in every reachable state the engine is idle exactly when it holds
    no current request, and then it holds no snapshot either; outside idle
    the current request is an object of the requests array, still active in
    phase request_active and fulfilled in phases settling and evaluating.
    The snapshot taken when the request was raised is kept: an entry that
    finds the engine outside idle and leaves it outside idle keeps the
    current request and the stored snapshot, and as long as the engine has
    not returned to idle since a tick on a city raised the request, the
    stored snapshot is the snapshot of that city. *)
Theorem phase_determines_slot (e : Engine) :
  reachable e ->
  (phase e = idle <-> currentRequest e = None)
  /\ (currentRequest e = None <-> snapshotBefore e = None)
  /\ (phase e <> idle ->
      exists r, getCurrentRequest e = Some r
                /\ In r (requests e)
                /\ (phase e = request_active -> status r = active)
                /\ (phase e <> request_active -> status r = fulfilled))
  /\ (forall ev env c,
        phase e <> idle -> phase (engineOf (step ev env c e)) <> idle ->
        snapshotBefore (engineOf (step ev env c e)) = snapshotBefore e
        /\ currentRequest (engineOf (step ev env c e)) = currentRequest e)
  /\ (forall c0, raisedOn c0 e -> snapshotBefore e = Some (captureSnapshot c0)).
Proof.
  intro Hr. pose proof (reachable_slot e Hr) as Hs. unfold slot in Hs.
  assert (Hkeep : forall ev env c,
             phase e <> idle -> phase (engineOf (step ev env c e)) <> idle ->
             snapshotBefore (engineOf (step ev env c e)) = snapshotBefore e
             /\ currentRequest (engineOf (step ev env c e)) = currentRequest e)
    by (intros ev env c; apply step_keeps_snapshot).
  assert (Hraised : forall c0, raisedOn c0 e ->
                               snapshotBefore e = Some (captureSnapshot c0))
    by (intros c0 H; exact (proj2 (raisedOn_snapshot c0 e H))).
  unfold getCurrentRequest.
  destruct (phase e) eqn:Hp.
  - destruct Hs as (Hc & Hb & _). rewrite Hc, Hb in *.
    repeat split; auto; try (intro H; contradiction).
    all: try (intros; apply Hkeep; assumption).
    all: try (intros; rewrite <- Hraised by eassumption; reflexivity).
  - destruct Hs as (i & r & b & Hc & Hn & Hst & Hb & _). rewrite Hc in *.
    split; [split; discriminate|].
    split; [rewrite Hb; split; discriminate|].
    split; [|split; assumption].
    intros _. exists r.
    repeat split; auto; [eapply nth_error_In; eassumption | congruence].
  - destruct Hs as (i & r & b & Hc & Hn & Hst & Hb & _). rewrite Hc in *.
    split; [split; discriminate|].
    split; [rewrite Hb; split; discriminate|].
    split; [|split; assumption].
    intros _. exists r.
    repeat split; auto; [eapply nth_error_In; eassumption | discriminate].
  - destruct Hs as (i & r & b & Hc & Hn & Hst & Hb & _). rewrite Hc in *.
    split; [split; discriminate|].
    split; [rewrite Hb; split; discriminate|].
    split; [|split; assumption].
    intros _. exists r.
    repeat split; auto; [eapply nth_error_In; eassumption | discriminate].
Qed.

Lemma phase_determines_slot_witness :
  (exists r, getCurrentRequest Samples.engine1 = Some r /\ status r = active)
  /\ snapshotBefore Samples.engine1
     = Some (captureSnapshot (Samples.hamlet 40 50)).
Proof.
  destruct (phase_determines_slot Samples.engine1 engine1_reachable)
    as (_ & _ & Hslot & _ & Hraised).
  split.
  - destruct Hslot as (r & Hr & _ & Hact & _).
    + vm_compute. discriminate.
    + exists r. split; [exact Hr|]. apply Hact. vm_compute. reflexivity.
  - apply Hraised.
    apply (raised_now (Samples.hamlet 40 50) Samples.env0 initial).
    + apply reachable_initial.
    + reflexivity.
    + vm_compute. reflexivity.
Defined.

(** X2: in every reachable state the expiry timer is armed exactly in
    phase request_active, and its deadline is the creation time of the
    current request plus 90 s; markResolved and the expiry itself leave no
    timer behind. *)
Theorem expiry_timer_armed_iff_request_active (e : Engine) :
  reachable e ->
  (expiryTimeoutId e <> None <-> phase e = request_active)
  /\ (forall r, phase e = request_active -> getCurrentRequest e = Some r ->
                expiryTimeoutId e = Some (createdAt r + 90000))
  /\ expiryTimeoutId (markResolved e) = None
  /\ (forall env c, expiryTimeoutId (engineOf (expireRequest env c e)) = None).
Proof.
  intro Hr. pose proof (reachable_slot e Hr) as Hs. unfold slot in Hs.
  assert (Hnone : phase e <> request_active -> expiryTimeoutId e = None).
  { intro Hne. destruct (phase e); [|contradiction| |].
    - destruct Hs as (_ & _ & Ht). exact Ht.
    - destruct Hs as (i & r & b & _ & _ & _ & _ & Ht & _). exact Ht.
    - destruct Hs as (i & r & b & _ & _ & _ & _ & Ht & _). exact Ht. }
  assert (Hcur : phase e = request_active ->
                 exists i r, currentRequest e = Some i
                             /\ nth_error (requests e) i = Some r
                             /\ expiryTimeoutId e = Some (createdAt r + EXPIRY_MS)).
  { intro Hp. rewrite Hp in Hs. destruct Hs as (i & r & b & Hc & Hn & _ & _ & Ht).
    exists i, r. auto. }
  split; [|split; [|split]].
  - split.
    + intro Hsome. destruct (phase e) eqn:Hp; try reflexivity;
        exfalso; apply Hsome; apply Hnone; discriminate.
    + intro Hp. destruct (Hcur Hp) as (i & r & _ & _ & Ht). rewrite Ht. discriminate.
  - intros r0 Hp Hg. destruct (Hcur Hp) as (i & r & Hc & Hn & Ht).
    unfold getCurrentRequest in Hg. rewrite Hc, Hn in Hg.
    injection Hg as Heq. rewrite <- Heq. exact Ht.
  - unfold markResolved.
    destruct (phase e) eqn:Hp; try (apply Hnone; discriminate).
    destruct (currentRequest e); [reflexivity|].
    destruct (Hcur eq_refl) as (i & r & Hc & _). discriminate.
  - intros env c. unfold expireRequest.
    destruct (phase e) eqn:Hp; try (apply Hnone; discriminate).
    destruct (currentRequest e); [reflexivity|].
    destruct (Hcur eq_refl) as (i & r & Hc & _). discriminate.
Qed.

Lemma expiry_timer_armed_iff_request_active_witness :
  expiryTimeoutId Samples.engine1 = Some 120000.
Proof.
  destruct (expiry_timer_armed_iff_request_active Samples.engine1 engine1_reachable)
    as (_ & Hdeadline & _).
  apply (Hdeadline Samples.request1); vm_compute; reflexivity.
Defined.

Lemma no_active_outside_request_active (e : Engine) :
  invariant e -> phase e <> request_active -> getActiveRequests e = [].
Proof.
  intros [Hi _] Hp. unfold getActiveRequests.
  destruct (filter _ (requests e)) as [|r l] eqn:Hf; [reflexivity|].
  assert (Hin : In r (filter (fun r => isActive (status r)) (requests e)))
    by (rewrite Hf; left; reflexivity).
  apply filter_In in Hin. destruct Hin as [Hin Hact].
  apply In_nth_error in Hin. destruct Hin as [j Hj].
  assert (Hs : status r = active) by (destruct (status r); simpl in Hact; congruence).
  destruct (Hi j r Hj Hs) as [Hp' _]. contradiction.
Qed.

Lemma tick_keeps_settling (env : Env) (c : City) (e : Engine) :
  phase e = settling -> 1 < settleTicksRemaining e ->
  onCityChanged env c e = (withSettleTicks (settleTicksRemaining e - 1) e, c, []).
Proof.
  intros Hp Hk. unfold onCityChanged. rewrite Hp.
  cbn [settleTicksRemaining withSettleTicks].
  destruct (Z.leb_spec (settleTicksRemaining e - 1) 0); [lia | reflexivity].
Qed.

Lemma tick_ends_settling (env : Env) (c : City) (e : Engine) :
  phase e = settling -> settleTicksRemaining e <= 1 ->
  onCityChanged env c e
  = evaluate env c (withPhase evaluating (withSettleTicks (settleTicksRemaining e - 1) e)).
Proof.
  intros Hp Hk. unfold onCityChanged. rewrite Hp.
  cbn [settleTicksRemaining withSettleTicks].
  destruct (Z.leb_spec (settleTicksRemaining e - 1) 0); [reflexivity | lia].
Qed.

(** The notification [evaluate] emits. *)
Definition completionNote (request : CitizenRequest) (delta : Z) : Notification :=
  {| n_message := "✅ " ++ citizenName request
                  ++ " のリクエストが完了しました！ (幸福度 " ++ deltaStr delta ++ ")";
     n_type := fulfilled_kind;
     n_spokenText := None |}.

Lemma evaluate_outcome (env : Env) (c : City) (e : Engine)
    (r : CitizenRequest) (b : CitySnapshot) :
  getCurrentRequest e = Some r -> snapshotBefore e = Some b ->
  let delta := computeHappinessDelta r b (captureSnapshot c) in
  let c' := setHappiness c (applyDelta c delta) in
  evaluate env c e
  = (if evaluateFn e && negb (callback_throws env) then withPending true e
     else evaluateReturns env c' e,
     c', [completionNote r delta]).
Proof.
  intros Hg Hb. unfold evaluate. rewrite Hg, Hb. cbv zeta.
  destruct (evaluateFn e), (callback_throws env); reflexivity.
Qed.

(** X3: after markResolved on an engine in phase request_active that holds
    its request and snapshot, the evaluation runs on the third tick and not
    before: the first two ticks stay in phase settling, emit nothing and
    leave the city alone; the third emits one fulfilled notification and
    writes the clamped happiness computed from the stored snapshot and the
    city of that tick.  With a callback registered whose call returns, that
    tick leaves the engine in phase evaluating, suspended, with its request
    kept; without a callback, or when the call of the callback throws, it
    leaves the engine idle on that same tick with an empty slot. *)
Theorem evaluation_runs_on_third_tick (e : Engine) (r : CitizenRequest)
    (b : CitySnapshot) (env1 env2 env3 : Env) (c1 c2 c3 : City) :
  phase e = request_active ->
  getCurrentRequest e = Some r -> snapshotBefore e = Some b ->
  let o1 := onCityChanged env1 c1 (markResolved e) in
  let o2 := onCityChanged env2 c2 (engineOf o1) in
  let o3 := onCityChanged env3 c3 (engineOf o2) in
  phase (markResolved e) = settling
  /\ (phase (engineOf o1) = settling /\ notesOf o1 = [] /\ cityOf o1 = c1)
  /\ (phase (engineOf o2) = settling /\ notesOf o2 = [] /\ cityOf o2 = c2)
  /\ (exists n, notesOf o3 = [n] /\ n_type n = fulfilled_kind)
  /\ happiness (cityOf o3)
     = Some (applyDelta c3 (computeHappinessDelta r b (captureSnapshot c3)))
  /\ (evaluateFn e = true -> callback_throws env3 = false ->
      phase (engineOf o3) = evaluating /\ evaluatePending (engineOf o3) = true
      /\ currentRequest (engineOf o3) = currentRequest e)
  /\ (evaluateFn e = false \/ callback_throws env3 = true ->
      phase (engineOf o3) = idle /\ currentRequest (engineOf o3) = None
      /\ snapshotBefore (engineOf o3) = None
      /\ lastIdleTime (engineOf o3) = now env3).
Proof.
  intros Hp Hg Hb o1 o2 o3.
  unfold getCurrentRequest in Hg.
  destruct (currentRequest e) as [i|] eqn:Hc; [|discriminate].
  set (e0 := markResolved e) in *.
  assert (H0 : phase e0 = settling /\ settleTicksRemaining e0 = 3
               /\ getCurrentRequest e0 = Some (setStatus fulfilled r)
               /\ snapshotBefore e0 = Some b /\ evaluateFn e0 = evaluateFn e).
  { subst e0. unfold markResolved. rewrite Hp, Hc. unfold getCurrentRequest.
    cbn [phase settleTicksRemaining currentRequest requests snapshotBefore evaluateFn].
    rewrite nth_error_writeStatus, Nat.eqb_refl, Hg. repeat split. assumption. }
  destruct H0 as (Hp0 & Hk0 & Hg0 & Hb0 & Hf0).
  assert (E1 : o1 = (withSettleTicks 2 e0, c1, [])).
  { subst o1. rewrite tick_keeps_settling by (rewrite ?Hk0; auto; lia).
    rewrite Hk0. reflexivity. }
  assert (E2 : o2 = (withSettleTicks 1 (withSettleTicks 2 e0), c2, [])).
  { subst o2. rewrite E1. cbn [engineOf fst].
    rewrite tick_keeps_settling by (cbn; auto; lia). reflexivity. }
  set (e3 := withPhase evaluating
               (withSettleTicks 0 (withSettleTicks 1 (withSettleTicks 2 e0)))).
  assert (E3 : o3 = evaluate env3 c3 e3).
  { subst o3. rewrite E2. cbn [engineOf fst].
    rewrite tick_ends_settling by (cbn; auto; lia). reflexivity. }
  rewrite E1, E2, E3.
  rewrite (evaluate_outcome env3 c3 e3 (setStatus fulfilled r) b) by assumption.
  change (computeHappinessDelta (setStatus fulfilled r) b (captureSnapshot c3))
    with (computeHappinessDelta r b (captureSnapshot c3)).
  change (evaluateFn e3) with (evaluateFn e0). rewrite Hf0.
  split; [exact Hp0|]. split; [repeat split; assumption|].
  split; [repeat split; assumption|].
  split; [eexists; split; reflexivity|]. split; [reflexivity|].
  split.
  - intros Hf Ht. rewrite Hf, Ht. cbn. repeat split.
    subst e0. unfold markResolved. rewrite Hp, Hc. reflexivity.
  - intros [Hf|Ht].
    + rewrite Hf. cbn. repeat split.
    + rewrite Ht, andb_false_r. cbn. repeat split.
Qed.

Lemma evaluation_runs_on_third_tick_witness :
  phase (engineOf
           (onCityChanged Samples.env0 (Samples.hamlet 48 50)
              (engineOf
                 (onCityChanged Samples.env0 (Samples.hamlet 48 50)
                    (engineOf
                       (onCityChanged Samples.env0 (Samples.hamlet 48 50)
                          (markResolved Samples.engine1))))))) = idle.
Proof.
  destruct (evaluation_runs_on_third_tick Samples.engine1 Samples.request1
              (captureSnapshot (Samples.hamlet 40 50))
              Samples.env0 Samples.env0 Samples.env0
              (Samples.hamlet 48 50) (Samples.hamlet 48 50) (Samples.hamlet 48 50))
    as (_ & _ & _ & _ & _ & _ & Hidle).
  - vm_compute. reflexivity.
  - vm_compute. reflexivity.
  - vm_compute. reflexivity.
  - apply Hidle. left. vm_compute. reflexivity.
Defined.

(** What an entry into the engine does to the requests array: nothing, one
    push, or one status write through [currentRequest] in phase
    request_active. *)
Lemma step_requests (ev : Event) (env : Env) (c : City) (e : Engine) :
  let l' := requests (engineOf (step ev env c e)) in
  l' = requests e
  \/ (exists x, l' = requests e ++ [x])
  \/ (exists i st, phase e = request_active /\ currentRequest e = Some i
                   /\ l' = writeStatus i st (requests e)).
Proof.
  destruct ev; cbn [step engineOf fst].
  - unfold onCityChanged. destruct (phase e) eqn:Hp; try (left; reflexivity).
    + unfold tryGenerateRequest.
      destruct (Qltb _ _); [left; reflexivity|].
      destruct (detectProblems c); [left; reflexivity|].
      destruct (nth_error _ _); [|left; reflexivity].
      right. left. eexists. reflexivity.
    + destruct (_ <=? 0); [|left; reflexivity].
      left. rewrite evaluate_requests. reflexivity.
  - unfold markResolved. destruct (phase e) eqn:Hp; try (left; reflexivity).
    destruct (currentRequest e) as [i|] eqn:Hc; [|left; reflexivity].
    right. right. exists i, fulfilled. auto.
  - unfold expireRequest. destruct (phase e) eqn:Hp; try (left; reflexivity).
    destruct (currentRequest e) as [i|] eqn:Hc; [|left; reflexivity].
    right. right. exists i, expired. auto.
  - destruct (evaluatePending e); left; reflexivity.
  - left. reflexivity.
Qed.

(** Two request objects that differ in status at most. *)
Definition sameRequest (r r' : CitizenRequest) : Prop :=
  id r' = id r /\ citizenName r' = citizenName r /\ type r' = type r
  /\ message r' = message r /\ createdAt r' = createdAt r.

(** X4: the requests array is append-only and a status is written once: over
    any entry into a reachable engine every request stays at its position
    with its id, name, category, message and creation time, and a request
    that is fulfilled or expired keeps that status for good. *)
Theorem request_status_is_terminal (e : Engine) (ev : Event) (env : Env) (c : City)
    (j : nat) (r : CitizenRequest) :
  reachable e ->
  nth_error (requests e) j = Some r ->
  exists r',
    nth_error (requests (engineOf (step ev env c e))) j = Some r'
    /\ sameRequest r r'
    /\ (status r <> active -> r' = r)
    /\ (length (requests e) <= length (requests (engineOf (step ev env c e))))%nat.
Proof.
  intros Hr Hn. pose proof (reachable_slot e Hr) as Hs.
  destruct (step_requests ev env c e) as [H|[[x H]|(i & st & Hp & Hc & H)]];
    cbv zeta in H; rewrite H.
  - exists r. repeat split; auto.
  - exists r. rewrite nth_error_app1 by (apply nth_error_Some; congruence).
    rewrite length_app. repeat split; auto. lia.
  - unfold slot in Hs. rewrite Hp in Hs.
    destruct Hs as (i' & r0 & b & Hc' & Hn0 & Hact & _).
    rewrite Hc in Hc'. injection Hc' as <-.
    rewrite nth_error_writeStatus, length_writeStatus.
    destruct (Nat.eqb_spec j i) as [->|Hne].
    + rewrite Hn. cbn [option_map]. exists (setStatus st r).
      assert (r0 = r) by congruence. subst r0.
      repeat split; auto. intro Hna. contradiction.
    + exists r. repeat split; auto.
Qed.

Lemma request_status_is_terminal_witness :
  exists r',
    nth_error (requests (engineOf (step MarkResolved Samples.env0
                                     (Samples.hamlet 48 50) Samples.engine1))) 0
    = Some r'
    /\ sameRequest Samples.request1 r'.
Proof.
  destruct (request_status_is_terminal Samples.engine1 MarkResolved Samples.env0
              (Samples.hamlet 48 50) 0%nat Samples.request1 engine1_reachable)
    as (r' & Hn & Hsame & _).
  - vm_compute. reflexivity.
  - exists r'. split; assumption.
Defined.

(** X5: when the expiry fires on a reachable engine in phase request_active
    the current request becomes expired, the slot (request and snapshot) and
    the timer are cleared, no request is active any more, the engine is idle
    from the time of the firing with the cooldown computed on the city of
    the firing, one failed notification is emitted and the city is left
    alone; a firing in any other phase changes nothing and emits nothing. *)
Theorem expiry_returns_to_idle (e : Engine) (env : Env) (c : City) :
  reachable e ->
  (phase e = request_active ->
   let o := expireRequest env c e in
   phase (engineOf o) = idle
   /\ currentRequest (engineOf o) = None
   /\ snapshotBefore (engineOf o) = None
   /\ expiryTimeoutId (engineOf o) = None
   /\ getActiveRequests (engineOf o) = []
   /\ (forall r, getCurrentRequest e = Some r ->
                 In (setStatus expired r) (requests (engineOf o)))
   /\ lastIdleTime (engineOf o) = now env
   /\ nextCooldownMs (engineOf o) = computeNextCooldown c (rnd_jitter env)
   /\ (exists n, notesOf o = [n] /\ n_type n = failed /\ n_spokenText n = None)
   /\ cityOf o = c)
  /\ (phase e <> request_active -> expireRequest env c e = (e, c, [])).
Proof.
  intro Hr. split.
  - intros Hp o.
    pose proof (reachable_slot e Hr) as Hs. unfold slot in Hs. rewrite Hp in Hs.
    destruct Hs as (i & r & b & Hc & Hn & Hact & _).
    pose proof (expireRequest_invariant env c e (reachable_invariant e Hr)) as Hinv.
    assert (Hidle : phase (engineOf o) = idle).
    { subst o. unfold expireRequest. rewrite Hp, Hc. reflexivity. }
    split; [exact Hidle|].
    pose proof (no_active_outside_request_active _ Hinv
                  ltac:(fold o; rewrite Hidle; discriminate)) as Hnone.
    fold o in Hnone. subst o. unfold expireRequest in *. rewrite Hp, Hc in *.
    cbn [engineOf cityOf notesOf fst snd transitionToIdle currentRequest
         snapshotBefore requests lastIdleTime expiryTimeoutId nextCooldownMs] in *.
    split; [reflexivity|]. split; [reflexivity|]. split; [reflexivity|].
    split; [exact Hnone|].
    split.
    + intros r0 Hg. unfold getCurrentRequest in Hg. rewrite Hc, Hn in Hg.
      injection Hg as <-. eapply nth_error_In.
      rewrite nth_error_writeStatus, Nat.eqb_refl, Hn. reflexivity.
    + split; [reflexivity|]. split; [reflexivity|]. split; [|reflexivity].
      eexists. split; [reflexivity|]. split; reflexivity.
  - intro Hp. unfold expireRequest.
    destruct (phase e); try reflexivity. contradiction.
Qed.

Lemma expiry_returns_to_idle_witness :
  getActiveRequests
    (engineOf (expireRequest Samples.env0 (Samples.hamlet 40 50) Samples.engine1)) = [].
Proof.
  destruct (expiry_returns_to_idle Samples.engine1 Samples.env0 (Samples.hamlet 40 50)
              engine1_reachable) as [Hfire _].
  destruct Hfire as (_ & _ & _ & _ & Hnone & _).
  - vm_compute. reflexivity.
  - exact Hnone.
Defined.

(** X6: an idle tick raises nothing while the cooldown since the last
    entry into idle has not elapsed or while no problem is detected; once the
    cooldown has elapsed and a problem is detected it raises one request of a
    detected category: pushed as active with the time of the tick, made the
    current request, with the snapshot of the city stored, the timer armed
    at 90 s and one new notification that carries the message as spoken
    text. *)
Theorem idle_tick_raises_request (env : Env) (c : City) (e : Engine) :
  phase e = idle ->
  ((inject_Z (now env - lastIdleTime e) < nextCooldownMs e)%Q
   \/ detectProblems c = [] ->
   onCityChanged env c e = (e, c, []))
  /\ ((nextCooldownMs e <= inject_Z (now env - lastIdleTime e))%Q ->
      detectProblems c <> [] -> validDraw (rnd_problem env) ->
      exists problem,
        In problem (detectProblems c)
        /\ let o := onCityChanged env c e in
           let request := createRequest env problem in
           phase (engineOf o) = request_active
           /\ requests (engineOf o) = requests e ++ [request]
           /\ getCurrentRequest (engineOf o) = Some request
           /\ status request = active /\ createdAt request = now env
           /\ snapshotBefore (engineOf o) = Some (captureSnapshot c)
           /\ expiryTimeoutId (engineOf o) = Some (now env + 90000)
           /\ (exists n, notesOf o = [n] /\ n_type n = new
                         /\ n_spokenText n = Some (messages problem))
           /\ cityOf o = c).
Proof.
  intro Hp. unfold onCityChanged. rewrite Hp. unfold tryGenerateRequest. split.
  - intros [Hcool|Hnone].
    + apply Qltb_lt in Hcool. rewrite Hcool. reflexivity.
    + rewrite Hnone. destruct (Qltb _ _); reflexivity.
  - intros Hcool Hsome Hdraw. apply Qltb_ge in Hcool. rewrite Hcool.
    destruct (nth_error_randomIndex (rnd_problem env) (detectProblems c) Hdraw Hsome)
      as [problem Hn].
    exists problem. split; [eapply nth_error_In; eassumption|].
    destruct (detectProblems c) as [|p ps] eqn:Hd; [contradiction|].
    rewrite Hn. cbv zeta. unfold getCurrentRequest.
    cbn [engineOf cityOf notesOf fst snd phase requests currentRequest
         snapshotBefore expiryTimeoutId].
    rewrite nth_error_app2 by lia. rewrite Nat.sub_diag.
    repeat split. eexists. repeat split.
Qed.

Lemma idle_tick_raises_request_witness :
  exists problem,
    In problem (detectProblems (Samples.hamlet 40 50))
    /\ requests Samples.engine1 = [createRequest Samples.env0 problem].
Proof.
  destruct (idle_tick_raises_request Samples.env0 (Samples.hamlet 40 50) initial)
    as [_ Hraise].
  - reflexivity.
  - destruct Hraise as (problem & Hin & _ & Hreq & _).
    + vm_compute. discriminate.
    + vm_compute. discriminate.
    + split; vm_compute; [discriminate | reflexivity].
    + exists problem. split; [exact Hin | exact Hreq].
Defined.

End RequestEngineLifecycle.

(** ** RequestEngine: pacing, suggestions and rewards *)

Module RequestEngineMore.
Import World RequestEngine RequestEngineFacts RequestEngineLifecycle.

Lemma captureSnapshot_setHappiness (c : City) (h : Q) :
  captureSnapshot (setHappiness c h) = captureSnapshot c.
Proof. reflexivity. Qed.

Lemma computeNextCooldown_as_formula (c : City) (r : Q) :
  computeNextCooldown c r
  = cooldownFormula (happinessOr50 c) (Z.of_nat (length (detectProblems c)))
      (World.population c) (jitter r).
Proof.
  unfold computeNextCooldown, cooldownFormula, jitter.
  rewrite captureSnapshot_population. reflexivity.
Qed.

Lemma cooldownFormula_monotone (h1 h2 : Q) (n1 n2 p1 p2 : Z) (j : Q) :
  (h1 <= h2)%Q -> n2 <= n1 -> p2 <= p1 ->
  (cooldownFormula h1 n1 p1 j <= cooldownFormula h2 n2 p2 j)%Q.
Proof.
  intros Hh Hn Hpop. unfold cooldownFormula.
  apply Q.max_le_compat_l. apply Q.min_le_compat_l.
  assert (Hn' : (Qmin (inject_Z n2 * 2000) 10000 <= Qmin (inject_Z n1 * 2000) 10000)%Q).
  { apply Q.min_le_compat_r. apply Qmult_le_compat_r; [|discriminate].
    rewrite <- Zle_Qle. assumption. }
  assert (Hp' : (Qmin (inject_Z p2 * 170) 5000 <= Qmin (inject_Z p1 * 170) 5000)%Q).
  { apply Q.min_le_compat_r. apply Qmult_le_compat_r; [|discriminate].
    rewrite <- Zle_Qle. assumption. }
  unfold Qdiv. change (/ 100)%Q with (1 # 100)%Q. lra.
Qed.

(** X7: citizens speak up sooner in a worse city: for the same draw, a city
    with lower (or equal) happiness, at least as many detected problems and
    at least as large a population gets a cooldown that is no longer. *)
Theorem cooldown_shorter_in_worse_city (c1 c2 : City) (r : Q) :
  (happinessOr50 c1 <= happinessOr50 c2)%Q ->
  (length (detectProblems c2) <= length (detectProblems c1))%nat ->
  World.population c2 <= World.population c1 ->
  (computeNextCooldown c1 r <= computeNextCooldown c2 r)%Q.
Proof.
  intros Hh Hn Hp.
  rewrite !computeNextCooldown_as_formula.
  apply cooldownFormula_monotone; [assumption | lia | assumption].
Qed.

Lemma cooldown_shorter_in_worse_city_witness :
  (computeNextCooldown (setHappiness (Samples.hamlet 40 50) 10) (1 # 2)
   <= computeNextCooldown (setHappiness (Samples.hamlet 40 50) 90) (1 # 2))%Q.
Proof.
  apply cooldown_shorter_in_worse_city.
  - vm_compute. discriminate.
  - vm_compute. lia.
  - vm_compute. discriminate.
Defined.

Lemma detectProblemsOf_length (s : CitySnapshot) :
  (length (detectProblemsOf s) <= 5)%nat.
Proof.
  unfold detectProblemsOf.
  repeat match goal with
         | |- context [if ?b then _ else _] => destruct b
         end; simpl; lia.
Qed.

(** In binary64 the bound of 29 s is attained: with happiness 100, no
    problem and nobody in the city, the two largest draws below 1 give a
    cooldown of exactly 29000 ms, and a smaller draw gives less. *)
Remark binary64_cooldown_reaches_29000 :
  PrimFloat.eqb (computeNextCooldown64 100 0 0 0x1.fffffffffffffp-1) 29000 = true
  /\ PrimFloat.eqb (computeNextCooldown64 100 0 0 0x1.ffffffffffffep-1) 29000 = true
  /\ PrimFloat.ltb (computeNextCooldown64 100 0 0 0x1.ffffffffffff0p-1) 29000 = true.
Proof. vm_compute. repeat split. Qed.

(** X8: detectProblems reports each category at most once, in the fixed
    order housing, jobs, power, road, commerce, hence at most five; and for a
    happiness of at most 100 (or unset), a non-negative population and a
    draw in [0,1) the cooldown is at most 29 s, so the 40 s ceiling of the
    clamp is never what decides it.  The bound is not strict: the exact
    value stays below 29 s, but in binary64 the largest draws reach it. *)
Theorem cooldown_never_reaches_ceiling (c : City) (r : Q) :
  (exists keep : RequestType -> bool,
      detectProblems c = filter keep [housing; jobs; power; road; commerce])
  /\ NoDup (detectProblems c)
  /\ (length (detectProblems c) <= 5)%nat
  /\ ((forall h, happiness c = Some h -> (h <= 100)%Q) ->
      0 <= World.population c -> validDraw r ->
      (computeNextCooldown c r <= 29000)%Q).
Proof.
  split; [|split; [|split]].
  - unfold detectProblems, detectProblemsOf.
    match goal with
    | |- context [(if ?b1 then _ else _) ++ (if ?b2 then _ else _)
                  ++ (if ?b3 then _ else _) ++ (if ?b4 then _ else _)
                  ++ (if ?b5 then _ else _)] =>
      exists (fun p => match p with
                       | housing => b1 | jobs => b2 | power => b3
                       | road => b4 | commerce => b5
                       end);
      destruct b1, b2, b3, b4, b5; reflexivity
    end.
  - unfold detectProblems, detectProblemsOf.
    repeat match goal with
           | |- context [if ?b then _ else _] => destruct b
           end; simpl; repeat constructor; simpl; intuition discriminate.
  - apply detectProblemsOf_length.
  - intros Hh' Hpop [Hr0 Hr1].
    assert (Hh : (happinessOr50 c <= 100)%Q).
    { unfold happinessOr50. destruct (happiness c) as [h|];
        [apply Hh'; reflexivity | discriminate]. }
    rewrite computeNextCooldown_as_formula.
    unfold cooldownFormula, jitter.
    apply Q.max_lub; [discriminate|].
    eapply Qle_trans; [apply Q.le_min_r|].
    assert (Hn : (0 <= Qmin (inject_Z (Z.of_nat (length (detectProblems c))) * 2000) 10000)%Q).
    { apply Q.min_glb; [|discriminate].
      apply Qmult_le_0_compat; [|discriminate].
      change 0%Q with (inject_Z 0). rewrite <- Zle_Qle. lia. }
    assert (Hp : (0 <= Qmin (inject_Z (World.population c) * 170) 5000)%Q).
    { apply Q.min_glb; [|discriminate].
      apply Qmult_le_0_compat; [|discriminate].
      change 0%Q with (inject_Z 0). rewrite <- Zle_Qle. assumption. }
    unfold Qdiv. change (/ 100)%Q with (1 # 100)%Q. lra.
Qed.

Lemma cooldown_never_reaches_ceiling_witness :
  (computeNextCooldown (Samples.hamlet 40 50) (1 # 2) <= 29000)%Q.
Proof.
  destruct (cooldown_never_reaches_ceiling (Samples.hamlet 40 50) (1 # 2))
    as (_ & _ & _ & Hbound).
  apply Hbound.
  - intros h Hh. discriminate Hh.
  - vm_compute. discriminate.
  - split; vm_compute; [discriminate | reflexivity].
Defined.

Lemma Qceiling_pos (q : Q) : (0 < q)%Q -> 1 <= Qceiling q.
Proof.
  intro H. assert (Hc : (0 < inject_Z (Qceiling q))%Q)
    by (eapply Qlt_le_trans; [exact H | apply Qle_ceiling]).
  change 0%Q with (inject_Z 0) in Hc. rewrite <- Zlt_Qlt in Hc. lia.
Qed.

(** X9: checkRequestStatus gives a suggestion exactly when it reports the
    request unresolved, always the one of the request's category, and the
    number of buildings it asks for is positive: at least 2 houses with the
    capacity below the population, at least 1 workplace (the gap between
    residential and workplace counts), at least 1 shop; for power it names
    the missing plant when there is none and the unpowered buildings
    otherwise. *)
Theorem unresolved_status_asks_for_more (e : Engine) (c : City) (r : CitizenRequest) :
  phase e = request_active ->
  getCurrentRequest e = Some r ->
  let now := captureSnapshot c in
  let res := checkRequestStatus c e in
  request res = Some r
  /\ (resolved res = true -> suggestion res = NoSuggestion)
  /\ (resolved res = false ->
      match suggestion res with
      | NoSuggestion => False
      | MoreHouses needed pop cap =>
        type r = housing /\ 2 <= needed
        /\ pop = population now /\ cap = residentialCapacity now /\ cap < pop
      | MoreWorkplaces needed homes workplaces =>
        type r = jobs /\ 1 <= needed /\ needed = homes - workplaces
        /\ workplaces = commercialCount now + industrialCount now
      | NoPowerPlant =>
        type r = power /\ powerPlantCount now = 0 /\ unpoweredCount now <> 0
      | MorePowerLines unpowered =>
        type r = power /\ unpowered = unpoweredCount now /\ unpowered <> 0
        /\ powerPlantCount now <> 0
      | MoreRoads noRoad =>
        type r = road /\ noRoad = noRoadAccess now /\ noRoad <> 0
      | MoreCommerce needed homes shops =>
        type r = commerce /\ 1 <= needed
        /\ shops = commercialCount now
      end).
Proof.
  intros Hp Hg now res. subst res. unfold checkRequestStatus. rewrite Hg, Hp.
  cbv zeta. cbn [request resolved suggestion]. fold now.
  split; [reflexivity|]. split; [intros ->; reflexivity|].
  intro Hres. rewrite Hres. apply orb_false_iff in Hres. destruct Hres as [Hid _].
  unfold suggestionOf. destruct (type r); simpl in Hid.
  - apply orb_false_iff in Hid. destruct Hid as [H0 Hle].
    apply Z.leb_gt in Hle. repeat split; try assumption.
    assert (1 <= Qceiling (inject_Z (population now - residentialCapacity now) / 4)).
    { apply Qceiling_pos. unfold Qlt, Qdiv, Qmult, Qinv, inject_Z. simpl. lia. }
    lia.
  - apply Z.leb_gt in Hid. repeat split; lia.
  - apply Z.eqb_neq in Hid.
    destruct (Z.eqb_spec (powerPlantCount now) 0); repeat split; assumption.
  - apply Z.eqb_neq in Hid. repeat split; assumption.
  - repeat split.
    assert (Hlt : (inject_Z (commercialCount now) < inject_Z (residentialCount now) * 0.3)%Q).
    { apply Qnot_le_lt. intro Hle. apply Qle_bool_iff in Hle. congruence. }
    assert (Hc : (inject_Z (commercialCount now)
                  < inject_Z (Qceiling (inject_Z (residentialCount now) * 0.3)))%Q)
      by (eapply Qlt_le_trans; [exact Hlt | apply Qle_ceiling]).
    rewrite <- Zlt_Qlt in Hc. lia.
Qed.

Lemma unresolved_status_asks_for_more_witness :
  suggestion (checkRequestStatus (Samples.hamlet 40 50) Samples.engine1)
  = MoreHouses 4 50 40.
Proof.
  destruct (unresolved_status_asks_for_more Samples.engine1 (Samples.hamlet 40 50)
              Samples.request1) as (_ & _ & Hmore).
  - vm_compute. reflexivity.
  - vm_compute. reflexivity.
  - vm_compute. reflexivity.
Defined.

(** X10: a request that checkRequestStatus reports resolved through
    progress earns +10 when it is evaluated on that same state of the city;
    one that is reported resolved but would earn -2 there is resolved by its
    ideal condition alone. *)
Theorem progress_earns_the_reward (e : Engine) (c : City)
    (r : CitizenRequest) (b : CitySnapshot) :
  phase e = request_active ->
  getCurrentRequest e = Some r ->
  snapshotBefore e = Some b ->
  let now := captureSnapshot c in
  (progressCondition (type r) b now ->
   resolved (checkRequestStatus c e) = true
   /\ computeHappinessDelta r b now = 10)
  /\ (resolved (checkRequestStatus c e) = true ->
      computeHappinessDelta r b now = -2 ->
      idealCondition (type r) now /\ ~ progressCondition (type r) b now).
Proof.
  intros Hp Hg Hb now.
  assert (Hres : resolved (checkRequestStatus c e) = true <->
                 idealCondition (type r) now \/ progressCondition (type r) b now).
  { unfold checkRequestStatus. rewrite Hg, Hp, Hb. cbv zeta. cbn [resolved].
    fold now. rewrite orb_true_iff, ideal_iff, progress_iff. tauto. }
  destruct (computeHappinessDelta_improved r b now) as [Hi Hn].
  assert (Himp : progressCondition (type r) b now -> improved (type r) b now).
  { unfold progressCondition, improved. destruct (type r); tauto. }
  split.
  - intro Hprog. split; [apply Hres; right; assumption | auto].
  - intros Hr Hd.
    assert (Hnp : ~ progressCondition (type r) b now).
    { intro Hprog. rewrite (Hi (Himp Hprog)) in Hd. discriminate. }
    apply Hres in Hr. tauto.
Qed.

Lemma progress_earns_the_reward_witness :
  resolved (checkRequestStatus (Samples.hamlet 48 50) Samples.engine1) = true
  /\ computeHappinessDelta Samples.request1 (captureSnapshot (Samples.hamlet 40 50))
       (captureSnapshot (Samples.hamlet 48 50)) = 10.
Proof.
  destruct (progress_earns_the_reward Samples.engine1 (Samples.hamlet 48 50)
              Samples.request1 (captureSnapshot (Samples.hamlet 40 50)))
    as [Hprog _].
  - vm_compute. reflexivity.
  - vm_compute. reflexivity.
  - vm_compute. reflexivity.
  - apply Hprog. vm_compute. reflexivity.
Defined.

(** X11: the engine writes nothing of the city but its happiness, and that
    only on the tick that ends the settling phase: every entry leaves the
    grid, the population, the clock and hence the snapshot of the city as
    they are, and every entry other than that tick returns the city itself. *)
Theorem engine_writes_happiness_only (ev : Event) (env : Env) (c : City) (e : Engine) :
  let c' := cityOf (step ev env c e) in
  size c' = size c /\ tiles c' = tiles c
  /\ World.population c' = World.population c /\ simTime c' = simTime c
  /\ captureSnapshot c' = captureSnapshot c
  /\ (ev <> Tick \/ phase e <> settling \/ 1 < settleTicksRemaining e -> c' = c).
Proof.
  assert (Hev : forall env c e,
             let c' := cityOf (evaluate env c e) in
             size c' = size c /\ tiles c' = tiles c
             /\ World.population c' = World.population c /\ simTime c' = simTime c
             /\ captureSnapshot c' = captureSnapshot c).
  { intros env0 c0 e0. unfold evaluate.
    destruct (getCurrentRequest e0); [|repeat split].
    destruct (snapshotBefore e0); [|repeat split].
    destruct (evaluateFn e0), (callback_throws env0); repeat split. }
  assert (Hgen : forall env c e, cityOf (tryGenerateRequest env c e) = c).
  { intros env0 c0 e0. unfold tryGenerateRequest.
    destruct (Qltb _ _); [reflexivity|].
    destruct (detectProblems c0); [reflexivity|].
    destruct (nth_error _ _); reflexivity. }
  assert (Hexp : forall env c e, cityOf (expireRequest env c e) = c).
  { intros env0 c0 e0. unfold expireRequest.
    destruct (phase e0); try reflexivity. destruct (currentRequest e0); reflexivity. }
  destruct ev; cbn [step].
  - unfold onCityChanged. destruct (phase e) eqn:Hp.
    + rewrite Hgen. repeat split.
    + repeat split.
    + cbn [settleTicksRemaining withSettleTicks].
      destruct (Z.leb_spec (settleTicksRemaining e - 1) 0) as [Hle|Hgt].
      * destruct (Hev env c (withPhase evaluating
                               (withSettleTicks (settleTicksRemaining e - 1) e)))
          as (H1 & H2 & H3 & H4 & H5).
        repeat split; try assumption.
        intros [H|[H|H]]; [contradiction | contradiction | lia].
      * repeat split.
    + repeat split.
  - repeat split.
  - rewrite Hexp. repeat split.
  - destruct (evaluatePending e); repeat split.
  - repeat split.
Qed.

Lemma engine_writes_happiness_only_witness :
  cityOf (step MarkResolved Samples.env0 (Samples.hamlet 48 50) Samples.engine1)
  = Samples.hamlet 48 50.
Proof.
  apply (engine_writes_happiness_only MarkResolved Samples.env0
           (Samples.hamlet 48 50) Samples.engine1).
  left. discriminate.
Defined.

End RequestEngineMore.

(** ** RequestEngine, first version *)

Module LegacyRequestEngineFacts.
Import World LegacyRequestEngine.

(** The counters of the first version and the snapshot of the second count
    the same things. *)
Definition agree (n : Counts) (s : RequestEngine.CitySnapshot) : Prop :=
  residentialCapacity n = RequestEngine.residentialCapacity s
  /\ residentialCount n = RequestEngine.residentialCount s
  /\ commercialCount n = RequestEngine.commercialCount s
  /\ industrialCount n = RequestEngine.industrialCount s
  /\ unpoweredCount n = RequestEngine.unpoweredCount s
  /\ noRoadAccess n = RequestEngine.noRoadAccess s
  /\ totalResidents n = RequestEngine.totalResidents s
  /\ employed n = RequestEngine.employed s.

Lemma countTile_agree (c : City) (n : Counts) (s : RequestEngine.CitySnapshot)
    (xy : Z * Z) :
  agree n s -> agree (countTile c n xy) (RequestEngine.snapshotTile c s xy).
Proof.
  intros (H1 & H2 & H3 & H4 & H5 & H6 & H7 & H8).
  unfold countTile, RequestEngine.snapshotTile. destruct xy as [x y].
  destruct (buildingAt c x y) as [b|]; [|repeat split; assumption].
  unfold agree, lacksPower, lacksRoad, isType. cbn.
  rewrite H1, H2, H3, H4, H5, H6, H7, H8. repeat split.
Qed.

Lemma countCity_agree (c : City) :
  agree (countCity c) (RequestEngine.captureSnapshot c).
Proof.
  unfold countCity, RequestEngine.captureSnapshot.
  assert (H : forall l n s, agree n s ->
                agree (fold_left (countTile c) l n)
                      (fold_left (RequestEngine.snapshotTile c) l s)).
  { induction l as [|xy l IH]; intros n s Ha; simpl; [assumption|].
    apply IH. apply countTile_agree. assumption. }
  apply H. repeat split.
Qed.

Lemma detectProblems_of_snapshot (c : City) :
  detectProblems c
  = RequestEngine.detectProblemsOf (RequestEngine.captureSnapshot c).
Proof.
  destruct (countCity_agree c) as (H1 & H2 & H3 & H4 & H5 & H6 & H7 & H8).
  unfold detectProblems, RequestEngine.detectProblemsOf.
  cbv zeta. rewrite H1, H2, H3, H4, H5, H6, H7, H8.
  rewrite RequestEngineFacts.captureSnapshot_population. reflexivity.
Qed.

(** X12: both versions of the engine detect the same problems: on every
    city the first version's detectProblems, with its own counting loop,
    returns the list the state-machine version returns. *)
Theorem both_versions_detect_the_same_problems (c : City) :
  detectProblems c = RequestEngine.detectProblems c.
Proof.
  rewrite detectProblems_of_snapshot. reflexivity.
Qed.

(** *** The conditions, in terms of the snapshot *)

Lemma sumOver_fold (c : City) (f : Building -> Z)
    (g : RequestEngine.CitySnapshot -> Z) :
  (forall s xy,
      g (RequestEngine.snapshotTile c s xy)
      = match buildingAt c (fst xy) (snd xy) with
        | Some b => g s + f b
        | None => g s
        end) ->
  g (RequestEngine.emptySnapshot (population c)) = 0 ->
  sumOver c f = g (RequestEngine.captureSnapshot c).
Proof.
  intros Hstep H0. unfold sumOver, RequestEngine.captureSnapshot.
  rewrite <- H0. generalize (RequestEngine.emptySnapshot (population c)) as s.
  induction (coords (size c)) as [|xy l IH]; intro s; simpl; [reflexivity|].
  rewrite <- IH. f_equal. rewrite Hstep. reflexivity.
Qed.

Lemma capacity_snapshot (c : City) :
  capacity c = RequestEngine.residentialCapacity (RequestEngine.captureSnapshot c).
Proof.
  unfold capacity. apply sumOver_fold; [|reflexivity].
  intros s [x y]. unfold RequestEngine.snapshotTile. cbn [fst snd].
  destruct (buildingAt c x y); reflexivity.
Qed.

Lemma shops_snapshot (c : City) :
  shops c = RequestEngine.commercialCount (RequestEngine.captureSnapshot c).
Proof.
  unfold shops. apply sumOver_fold; [|reflexivity].
  intros s [x y]. unfold RequestEngine.snapshotTile. cbn [fst snd].
  destruct (buildingAt c x y) as [b|]; [|reflexivity].
  unfold isType. cbn. destruct (World.type b); reflexivity.
Qed.

Lemma workplaces_snapshot (c : City) :
  workplaces c
  = RequestEngine.commercialCount (RequestEngine.captureSnapshot c)
    + RequestEngine.industrialCount (RequestEngine.captureSnapshot c).
Proof.
  unfold workplaces.
  apply (sumOver_fold c _ (fun s => RequestEngine.commercialCount s
                                    + RequestEngine.industrialCount s)); [|reflexivity].
  intros s [x y]. unfold RequestEngine.snapshotTile. cbn [fst snd].
  destruct (buildingAt c x y) as [b|]; [|reflexivity].
  unfold isType. cbn. destruct (World.type b); cbn; lia.
Qed.

(** A loop that returns false at the first offending tile, against the
    counter of offending tiles. *)
Lemma forallb_counter (c : City) (bad : Z * Z -> bool)
    (g : RequestEngine.CitySnapshot -> Z) (l : list (Z * Z)) :
  (forall s xy, g (RequestEngine.snapshotTile c s xy)
                = g s + RequestEngine.b2z (bad xy)) ->
  forall s,
    g s <= g (fold_left (RequestEngine.snapshotTile c) l s)
    /\ (forallb (fun xy => negb (bad xy)) l = true
        <-> g (fold_left (RequestEngine.snapshotTile c) l s) = g s).
Proof.
  intro Hstep. induction l as [|xy l IH]; intro s; simpl.
  - split; [lia | tauto].
  - destruct (IH (RequestEngine.snapshotTile c s xy)) as [Hle Hiff].
    rewrite Hstep in Hle, Hiff. rewrite andb_true_iff, Hiff.
    destruct (bad xy); simpl in *.
    + split; [lia|]. split; [intros [H _]; discriminate | intro H; lia].
    + split; [lia|]. split; [intros [_ H]; lia | intro H; split; [reflexivity | lia]].
Qed.

Lemma forallb_same {A} (f g : A -> bool) (l : list A) :
  (forall a, f a = g a) -> forallb f l = forallb g l.
Proof.
  intro H. induction l as [|a l IH]; simpl; [reflexivity|].
  rewrite H, IH. reflexivity.
Qed.

Lemma allPowered_snapshot (c : City) :
  allPowered c = true
  <-> RequestEngine.unpoweredCount (RequestEngine.captureSnapshot c) = 0.
Proof.
  set (bad := fun xy : Z * Z => match buildingAt c (fst xy) (snd xy) with
                                | Some b => lacksPower b
                                | None => false
                                end).
  assert (Hstep : forall s xy,
             RequestEngine.unpoweredCount (RequestEngine.snapshotTile c s xy)
             = RequestEngine.unpoweredCount s + RequestEngine.b2z (bad xy)).
  { intros s [x y]. unfold RequestEngine.snapshotTile, bad. cbn [fst snd].
    destruct (buildingAt c x y); [reflexivity | cbn; lia]. }
  destruct (forallb_counter c bad RequestEngine.unpoweredCount (coords (size c))
              Hstep (RequestEngine.emptySnapshot (population c))) as [_ Hiff].
  unfold allPowered, RequestEngine.captureSnapshot.
  assert (Hsame : forallb (fun xy => match buildingAt c (fst xy) (snd xy) with
                                     | Some b => negb (lacksPower b)
                                     | None => true
                                     end) (coords (size c))
                  = forallb (fun xy => negb (bad xy)) (coords (size c))).
  { apply forallb_same. intro xy. unfold bad.
    destruct (buildingAt c (fst xy) (snd xy)); reflexivity. }
  rewrite Hsame. exact Hiff.
Qed.

Lemma allHaveRoad_snapshot (c : City) :
  allHaveRoad c = true
  <-> RequestEngine.noRoadAccess (RequestEngine.captureSnapshot c) = 0.
Proof.
  set (bad := fun xy : Z * Z => match buildingAt c (fst xy) (snd xy) with
                                | Some b => lacksRoad c (fst xy) (snd xy) b
                                | None => false
                                end).
  assert (Hstep : forall s xy,
             RequestEngine.noRoadAccess (RequestEngine.snapshotTile c s xy)
             = RequestEngine.noRoadAccess s + RequestEngine.b2z (bad xy)).
  { intros s [x y]. unfold RequestEngine.snapshotTile, bad. cbn [fst snd].
    destruct (buildingAt c x y); [reflexivity | cbn; lia]. }
  destruct (forallb_counter c bad RequestEngine.noRoadAccess (coords (size c))
              Hstep (RequestEngine.emptySnapshot (population c))) as [_ Hiff].
  unfold allHaveRoad, RequestEngine.captureSnapshot.
  assert (Hsame : forallb (fun xy => match buildingAt c (fst xy) (snd xy) with
                                     | Some b => negb (lacksRoad c (fst xy) (snd xy) b)
                                     | None => true
                                     end) (coords (size c))
                  = forallb (fun xy => negb (bad xy)) (coords (size c))).
  { apply forallb_same. intro xy. unfold bad.
    destruct (buildingAt c (fst xy) (snd xy)); reflexivity. }
  rewrite Hsame. exact Hiff.
Qed.

(** X13: what the condition closures of the first version test, in terms of
    the snapshot of the city at the time of the check: housing, that the
    residential capacity exceeds 1.2 times the population captured; jobs and
    commerce, that the workplace or shop count exceeds the count captured;
    power, that no building is unpowered; road, that no building lacks road
    access. *)
Theorem conditions_read_the_snapshot (c : City) (n : Z) :
  let s := RequestEngine.captureSnapshot c in
  (holds c (CapacityAbove n) = true
   <-> (inject_Z n * 1.2 < inject_Z (RequestEngine.residentialCapacity s))%Q)
  /\ (holds c (WorkplacesAbove n) = true
      <-> n < RequestEngine.commercialCount s + RequestEngine.industrialCount s)
  /\ (holds c AllPowered = true <-> RequestEngine.unpoweredCount s = 0)
  /\ (holds c AllHaveRoad = true <-> RequestEngine.noRoadAccess s = 0)
  /\ (holds c (CommerceAbove n) = true <-> n < RequestEngine.commercialCount s).
Proof.
  cbv zeta. unfold holds.
  rewrite capacity_snapshot, workplaces_snapshot, shops_snapshot.
  rewrite Qltb_lt, !Z.ltb_lt.
  repeat split; try tauto;
    try apply allPowered_snapshot; try apply allHaveRoad_snapshot.
Qed.

Lemma conditions_read_the_snapshot_witness :
  holds (Samples.hamlet 122 100) (CapacityAbove 100) = true.
Proof.
  apply (proj1 (conditions_read_the_snapshot (Samples.hamlet 122 100) 100)).
  vm_compute. reflexivity.
Defined.

(** X14: a request of the first version for jobs, power, road or commerce
    is not fulfilled as long as the city is as it was when the request was
    raised; a housing request is fulfilled on the unchanged city exactly when
    the capacity already exceeds 1.2 times the population, which the
    detection threshold (population above 0.8 times the capacity) does not
    exclude. *)
Theorem unchanged_city_fulfils_housing_only (env : RequestEngine.Env) (c : City)
    (problem : RequestType) :
  In problem (detectProblems c) ->
  (problem <> RequestEngine.housing ->
   holds c (condition (generateRequest env c problem)) = false)
  /\ (problem = RequestEngine.housing ->
      (holds c (condition (generateRequest env c problem)) = true
       <-> (inject_Z (population c) * 1.2
            < inject_Z (RequestEngine.residentialCapacity
                          (RequestEngine.captureSnapshot c)))%Q))
  /\ (exists c0,
        In RequestEngine.housing (detectProblems c0)
        /\ holds c0 (condition (generateRequest env c0 RequestEngine.housing)) = true).
Proof.
  intro Hin. rewrite detectProblems_of_snapshot in Hin.
  apply RequestEngineFacts.In_detectProblemsOf in Hin.
  split; [|split].
  - intro Hne. destruct problem; cbn [generateRequest condition holds].
    + contradiction.
    + apply Z.ltb_irrefl.
    + apply Z.ltb_lt in Hin. destruct (allPowered c) eqn:Hall; [|reflexivity].
      apply allPowered_snapshot in Hall. lia.
    + apply Z.ltb_lt in Hin. destruct (allHaveRoad c) eqn:Hall; [|reflexivity].
      apply allHaveRoad_snapshot in Hall. lia.
    + apply Z.ltb_irrefl.
  - intros ->. cbn [generateRequest condition holds].
    rewrite capacity_snapshot. apply Qltb_lt.
  - exists (Samples.hamlet 122 100). split; vm_compute; auto.
Qed.

Lemma unchanged_city_fulfils_housing_only_witness :
  holds (Samples.hamlet 40 50)
    (condition (generateRequest Samples.env0 (Samples.hamlet 40 50) RequestEngine.commerce))
  = false.
Proof.
  destruct (unchanged_city_fulfils_housing_only Samples.env0 (Samples.hamlet 40 50)
              RequestEngine.commerce) as (Hnever & _).
  - vm_compute. right. right. left. reflexivity.
  - apply Hnever. discriminate.
Defined.

(** *** The fulfilment check *)

(** Two cities with the same grid; their happiness may differ. *)
Definition sameGrid (c1 c : City) : Prop :=
  size c1 = size c /\ tiles c1 = tiles c /\ neighborCoords c1 = neighborCoords c.

Lemma holds_sameGrid (c1 c : City) (k : Condition) :
  sameGrid c1 c -> holds c1 k = holds c k.
Proof.
  intros (H1 & H2 & H3). destruct c1, c. simpl in *. subst. reflexivity.
Qed.

(** What the check leaves of one request, on the city [c]. *)
Definition checked (now : Z) (c : City) (r : CitizenRequest) : CitizenRequest :=
  fst (fst (checkRequest now c r)).

Definition fulfilledNow (c : City) (r : CitizenRequest) : bool :=
  RequestEngine.isActive (status r) && holds c (condition r).

Lemma Qmin_100_absorb (a b : Q) :
  (0 <= b)%Q -> (Qmin 100 (Qmin 100 a + b) == Qmin 100 (a + b))%Q.
Proof.
  intro Hb.
  destruct (Q.min_spec 100 a) as [[H1 E1]|[H1 E1]];
    destruct (Q.min_spec 100 (Qmin 100 a + b)) as [[H2 E2]|[H2 E2]];
    destruct (Q.min_spec 100 (a + b)) as [[H3 E3]|[H3 E3]];
    rewrite E2, E3; try rewrite E1 in *; lra.
Qed.

Lemma checkAll_spec (now : Z) (c : City) (l : list CitizenRequest) :
  forall c1,
    sameGrid c1 c ->
    let l' := fst (fst (checkAll now c1 l)) in
    let c' := snd (fst (checkAll now c1 l)) in
    let notes := snd (checkAll now c1 l) in
    let done := filter (fulfilledNow c) l in
    l' = map (checked now c) l
    /\ sameGrid c' c
    /\ notes = map (fun r => RequestFulfilled (citizenName r) (reward r)) done
    /\ (done = [] -> c' = c1)
    /\ (Forall (fun r => reward r = 5) l -> done <> [] ->
        exists h, happiness c' = Some h
                  /\ (h == Qmin 100 (RequestEngine.happinessOr50 c1
                                     + 5 * inject_Z (Z.of_nat (length done))))%Q).
Proof.
  induction l as [|r l IH]; intros c1 Hg; cbn [checkAll].
  - cbn. repeat split; try apply Hg. intros _ H. contradiction.
  - assert (Hreq : checkRequest now c1 r
                   = (checked now c r,
                      if fulfilledNow c r
                      then setHappiness c1
                             (Qmin 100 (RequestEngine.happinessOr50 c1
                                        + inject_Z (reward r)))
                      else c1,
                      if fulfilledNow c r
                      then [RequestFulfilled (citizenName r) (reward r)] else [])).
    { unfold checked, checkRequest, fulfilledNow.
      rewrite (holds_sameGrid c1 c _ Hg).
      destruct (RequestEngine.isActive (status r)); cbn [negb andb]; [|reflexivity].
      destruct (holds c (condition r)); [reflexivity|].
      destruct (EXPIRY_MS <? now - createdAt r); reflexivity. }
    rewrite Hreq. cbn [filter].
    destruct (fulfilledNow c r) eqn:Hf.
    + set (c2 := setHappiness c1 (Qmin 100 (RequestEngine.happinessOr50 c1
                                            + inject_Z (reward r)))).
      assert (Hg2 : sameGrid c2 c) by exact Hg.
      specialize (IH c2 Hg2). cbv zeta in IH.
      destruct (checkAll now c2 l) as [[l' c'] notes]. cbn [fst snd] in *.
      destruct IH as (E1 & E2 & E3 & E4 & E5).
      split; [rewrite E1; reflexivity|]. split; [assumption|].
      split; [rewrite E3; reflexivity|]. split; [discriminate|].
      intros Hrew _. inversion Hrew as [|? ? Hr5 Hrest]; subst.
      destruct (filter (fulfilledNow c) l) as [|d ds] eqn:Hd.
      * rewrite (E4 eq_refl). unfold c2. cbn [happiness setHappiness].
        eexists. split; [reflexivity|]. rewrite Hr5. cbn. reflexivity.
      * destruct (E5 Hrest ltac:(discriminate)) as (h & Hh & Heq).
        exists h. split; [assumption|]. rewrite Heq.
        unfold c2. cbn [RequestEngine.happinessOr50 happiness setHappiness].
        rewrite Hr5. rewrite Qmin_100_absorb.
        -- apply Q.min_compat; [reflexivity|].
           cbn [length]. rewrite !Nat2Z.inj_succ. unfold Z.succ.
           rewrite !inject_Z_plus. ring.
        -- apply Qmult_le_0_compat; [discriminate|].
           change 0%Q with (inject_Z 0). rewrite <- Zle_Qle. lia.
    + specialize (IH c1 Hg). cbv zeta in IH.
      destruct (checkAll now c1 l) as [[l' c'] notes]. cbn [fst snd] in *.
      destruct IH as (E1 & E2 & E3 & E4 & E5).
      split; [rewrite E1; reflexivity|]. split; [assumption|].
      split; [rewrite E3; reflexivity|]. split; [assumption|].
      intros Hrew Hne. inversion Hrew; subst. auto.
Qed.

Lemma sameGrid_refl (c : City) : sameGrid c c.
Proof. repeat split. Qed.

Lemma checked_active (now : Z) (c : City) (r : CitizenRequest) :
  RequestEngine.isActive (status (checked now c r)) = true ->
  RequestEngine.isActive (status r) = true.
Proof.
  unfold checked, checkRequest.
  destruct (RequestEngine.isActive (status r)) eqn:Ha; cbn [negb]; [reflexivity|].
  cbn. rewrite Ha. auto.
Qed.

Lemma active_after_check (now : Z) (c : City) (l : list CitizenRequest) :
  (length (filter (fun r => RequestEngine.isActive (status r)) (map (checked now c) l))
   <= length (filter (fun r => RequestEngine.isActive (status r)) l))%nat.
Proof.
  induction l as [|r l IH]; simpl; [lia|].
  destruct (RequestEngine.isActive (status (checked now c r))) eqn:Ha.
  - rewrite (checked_active now c r Ha). simpl. lia.
  - destruct (RequestEngine.isActive (status r)); simpl; lia.
Qed.

(** X15: the first version never holds more than three active requests:
    whatever the order of its 30 s ticks and 5 s fulfilment checks, on
    whatever cities, getActiveRequests returns at most three requests; a
    tick with three active requests raises nothing, and a check never makes
    a request active. *)
Theorem at_most_three_active_requests (e : Engine) :
  reachable e ->
  (length (getActiveRequests e) <= 3)%nat
  /\ (forall env c, length (getActiveRequests e) = 3%nat -> tick env c e = (e, []))
  /\ (forall now c,
        (length (getActiveRequests (fst (fst (checkFulfillment now c e))))
         <= length (getActiveRequests e))%nat).
Proof.
  assert (Hcheck : forall now c e0,
             (length (getActiveRequests (fst (fst (checkFulfillment now c e0))))
              <= length (getActiveRequests e0))%nat).
  { intros now c e0. unfold checkFulfillment, getActiveRequests.
    destruct (checkAll_spec now c (requests e0) c (sameGrid_refl c)) as (E1 & _).
    destruct (checkAll now c (requests e0)) as [[l c'] notes]. cbn [fst snd] in *.
    subst l. apply active_after_check. }
  intro Hr. split; [|split].
  - induction Hr as [|env c e _ IH|now c e _ IH].
    + simpl. lia.
    + unfold tick.
      destruct (Z.leb_spec maxActiveRequests (Z.of_nat (length (getActiveRequests e))))
        as [Hfull|Hroom]; [exact IH|].
      destruct (detectProblems c); [exact IH|].
      destruct (nth_error _ _); [|exact IH].
      unfold getActiveRequests in *. cbn [fst requests].
      rewrite filter_app, length_app. unfold maxActiveRequests in Hroom.
      cbn. lia.
    + specialize (Hcheck now c e). lia.
  - intros env c H3. unfold tick. rewrite H3. reflexivity.
  - intros now c. apply Hcheck.
Qed.

Lemma at_most_three_active_requests_witness :
  (length (getActiveRequests MoreSamples.legacy1) <= 3)%nat.
Proof.
  destruct (at_most_three_active_requests MoreSamples.legacy1) as [Hthree _].
  - apply reachable_tick. apply reachable_initial.
  - exact Hthree.
Defined.

(** X16: the fulfilment check treats each request by itself and in place:
    a request that is not active is left as it is; an active one whose
    condition holds becomes fulfilled, also when it is older than five
    minutes; an active one whose condition fails expires when it is older
    than five minutes and is left active otherwise; nothing but the status
    is written. *)
Theorem fulfilment_comes_before_expiry (now : Z) (c : City) (e : Engine)
    (j : nat) (r : CitizenRequest) :
  nth_error (requests e) j = Some r ->
  exists r',
    nth_error (requests (fst (fst (checkFulfillment now c e)))) j = Some r'
    /\ length (requests (fst (fst (checkFulfillment now c e)))) = length (requests e)
    /\ r' = withStatus (status r') r
    /\ (status r <> RequestEngine.active -> r' = r)
    /\ (status r = RequestEngine.active -> holds c (condition r) = true ->
        status r' = RequestEngine.fulfilled)
    /\ (status r = RequestEngine.active -> holds c (condition r) = false ->
        (300000 < now - createdAt r -> status r' = RequestEngine.expired)
        /\ (now - createdAt r <= 300000 -> r' = r)).
Proof.
  intro Hn. unfold checkFulfillment.
  destruct (checkAll_spec now c (requests e) c (sameGrid_refl c)) as (E1 & _).
  destruct (checkAll now c (requests e)) as [[l c'] notes]. cbn [fst snd requests] in *.
  subst l. exists (checked now c r).
  split; [rewrite nth_error_map, Hn; reflexivity|].
  split; [apply length_map|].
  unfold checked, checkRequest.
  destruct (status r) eqn:Hs; cbn [RequestEngine.isActive negb fst].
  - destruct (holds c (condition r)) eqn:Hh; cbn [fst].
    + repeat split; try reflexivity; try discriminate; congruence.
    + destruct (Z.ltb_spec EXPIRY_MS (now - createdAt r)) as [Hold|Hyoung];
        unfold EXPIRY_MS in *; cbn [fst].
      * repeat split; try reflexivity; try discriminate; try congruence; lia.
      * repeat split; try reflexivity; try discriminate; try congruence;
          try lia; destruct r; cbn in *; subst; reflexivity.
  - repeat split; try discriminate; try reflexivity;
      destruct r; cbn in *; subst; reflexivity.
  - repeat split; try discriminate; try reflexivity;
      destruct r; cbn in *; subst; reflexivity.
Qed.

Lemma fulfilment_comes_before_expiry_witness :
  exists r',
    nth_error (requests (fst (fst (checkFulfillment 999999 (Samples.hamlet 61 50)
                                     MoreSamples.legacy1)))) 0 = Some r'
    /\ status r' = RequestEngine.fulfilled.
Proof.
  destruct (fulfilment_comes_before_expiry 999999 (Samples.hamlet 61 50)
              MoreSamples.legacy1 0%nat
              (generateRequest Samples.env0 (Samples.hamlet 40 50) RequestEngine.housing))
    as (r' & Hn & _ & _ & _ & Hful & _).
  - vm_compute. reflexivity.
  - exists r'. split; [exact Hn|].
    apply Hful; vm_compute; reflexivity.
Defined.

Lemma reachable_reward_5 (e : Engine) :
  reachable e -> Forall (fun r => reward r = 5) (requests e).
Proof.
  induction 1 as [|env c e _ IH|now c e _ IH].
  - constructor.
  - unfold tick. destruct (_ <=? _); [exact IH|].
    destruct (detectProblems c); [exact IH|].
    destruct (nth_error _ _); [|exact IH].
    cbn [fst requests]. apply Forall_app. split; [exact IH|].
    constructor; [reflexivity | constructor].
  - unfold checkFulfillment.
    destruct (checkAll_spec now c (requests e) c (sameGrid_refl c)) as (E1 & _).
    destruct (checkAll now c (requests e)) as [[l c'] notes]. cbn [fst snd requests] in *.
    subst l. apply Forall_map. eapply Forall_impl; [|exact IH].
    intros r Hr. unfold checked, checkRequest.
    destruct (negb _); [exact Hr|].
    destruct (holds c (condition r)); [exact Hr|].
    destruct (_ <? _); exact Hr.
Qed.

(** X17: one fulfilment check on a reachable engine emits one notification
    per active request whose condition holds on the city, in array order;
    with none it returns the city itself, and with k of them it writes the
    happiness min(100, h + 5k), h being the happiness before (50 when
    unset), so a check never leaves a happiness above 100 behind. *)
Theorem fulfilment_rewards_five_each (now : Z) (c : City) (e : Engine) :
  reachable e ->
  let o := checkFulfillment now c e in
  let done := filter (fulfilledNow c) (requests e) in
  snd o = map (fun r => RequestFulfilled (citizenName r) 5) done
  /\ (done = [] -> snd (fst o) = c)
  /\ (done <> [] ->
      exists h,
        happiness (snd (fst o)) = Some h
        /\ (h == Qmin 100 (RequestEngine.happinessOr50 c
                           + 5 * inject_Z (Z.of_nat (length done))))%Q
        /\ (h <= 100)%Q).
Proof.
  intros Hr o done. subst o. unfold checkFulfillment.
  pose proof (reachable_reward_5 e Hr) as Hrew.
  destruct (checkAll_spec now c (requests e) c (sameGrid_refl c))
    as (_ & _ & E3 & E4 & E5).
  destruct (checkAll now c (requests e)) as [[l c'] notes]. cbn [fst snd] in *.
  fold done in E3, E4, E5. split; [|split].
  - rewrite E3. apply map_ext_in. intros r Hin.
    apply filter_In in Hin. destruct Hin as [Hin _].
    rewrite Forall_forall in Hrew. rewrite (Hrew r Hin). reflexivity.
  - exact E4.
  - intro Hne. destruct (E5 Hrew Hne) as (h & Hh & Heq).
    exists h. split; [assumption|]. split; [assumption|].
    rewrite Heq. apply Q.le_min_l.
Qed.

Lemma fulfilment_rewards_five_each_witness :
  exists h,
    happiness (snd (fst (checkFulfillment 31000 (Samples.hamlet 61 50)
                           MoreSamples.legacy1))) = Some h
    /\ (h <= 100)%Q.
Proof.
  destruct (fulfilment_rewards_five_each 31000 (Samples.hamlet 61 50) MoreSamples.legacy1)
    as (_ & _ & Hsome).
  - apply reachable_tick. apply reachable_initial.
  - destruct Hsome as (h & Hh & _ & Hle).
    + vm_compute. discriminate.
    + exists h. split; assumption.
Defined.

End LegacyRequestEngineFacts.

(** ** SpeechCoordinator under its callers *)

Module SpeechTraceFacts.
Import SpeechCoordinator SpeechTrace SpeechCoordinatorFacts.

(** X18: a waiter is resolved in silence only: whenever a call resolves any
    waiter, by an immediate return, a flush or a failsafe, both speaking
    flags are false in the state the call leaves; and a flush resolves the
    whole queue in the order of the calls and leaves it empty. *)
Theorem waiters_are_resolved_in_silence (op : Op) (s : State) :
  (snd (apply op s) <> [] -> silent (fst (apply op s)) = true)
  /\ (isFailsafe op = false -> silent s = false ->
      silent (fst (apply op s)) = true ->
      snd (apply op s) = waiters s /\ waiters (fst (apply op s)) = []).
Proof.
  unfold silent. destruct s as [m c q].
  destruct op as [[|]|[|]|w|w]; destruct m, c;
    unfold apply, setMayorSpeaking, setCitizenSpeaking, waitForSilence, failsafe,
      flushWaiters; cbn;
    try (destruct (indexOf w q); cbn);
    split; intros; try discriminate; try congruence;
    try (split; reflexivity); try reflexivity.
Qed.

Lemma waiters_are_resolved_in_silence_witness :
  snd (apply (SetMayorSpeaking false) Samples.twoWaiting) = [1%nat; 2%nat].
Proof.
  destruct (waiters_are_resolved_in_silence (SetMayorSpeaking false) Samples.twoWaiting)
    as [_ Hflush].
  exact (proj1 (Hflush eq_refl eq_refl eq_refl)).
Defined.

Lemma apply_keeps_queue_empty_in_silence (op : Op) (s : State) :
  isFailsafe op = false ->
  (silent s = true -> waiters s = []) ->
  silent (fst (apply op s)) = true -> waiters (fst (apply op s)) = [].
Proof.
  unfold silent. destruct s as [m c q].
  destruct op as [[|]|[|]|w|w]; destruct m, c;
    unfold apply, setMayorSpeaking, setCitizenSpeaking, waitForSilence, flushWaiters;
    cbn; intros; try discriminate; try reflexivity; auto.
Qed.

Lemma run_cons (op : Op) (ops : list Op) (s : State) :
  run (op :: ops) s
  = (fst (run ops (fst (apply op s))),
     snd (apply op s) ++ snd (run ops (fst (apply op s)))).
Proof.
  cbn [run]. destruct (apply op s) as [s1 out1]. cbn [fst snd].
  destruct (run ops s1). reflexivity.
Qed.

(** X19: as long as no failsafe fires, silence and an empty queue go
    together: after any sequence of flag settings and waitForSilence calls,
    if neither voice is speaking then no waiter is queued, so a call queued
    while a voice was speaking is always resolved by the call that ends the
    speaking. *)
Theorem silence_leaves_no_waiter_queued (ops : list Op) :
  forallb (fun op => negb (isFailsafe op)) ops = true ->
  silent (fst (run ops initial)) = true ->
  waiters (fst (run ops initial)) = [].
Proof.
  assert (H : forall ops s,
             forallb (fun op => negb (isFailsafe op)) ops = true ->
             (silent s = true -> waiters s = []) ->
             silent (fst (run ops s)) = true -> waiters (fst (run ops s)) = []).
  { clear ops. induction ops as [|op ops IH]; intros s Hno Hs.
    - exact Hs.
    - cbn [forallb] in Hno. apply andb_true_iff in Hno. destruct Hno as [Hop Hno].
      apply negb_true_iff in Hop. rewrite run_cons. cbn [fst].
      apply IH; [assumption|].
      apply apply_keeps_queue_empty_in_silence; assumption. }
  intro Hno. apply H; [assumption | reflexivity].
Qed.

Lemma silence_leaves_no_waiter_queued_witness :
  waiters (fst (run [SetMayorSpeaking true; WaitForSilence 1%nat;
                     WaitForSilence 2%nat; SetMayorSpeaking false] initial)) = [].
Proof.
  apply silence_leaves_no_waiter_queued; reflexivity.
Defined.

Lemma splice1_permutation (w : Waiter) (l : list Waiter) (idx : nat) :
  indexOf w l = Some idx -> Permutation (w :: splice1 idx l) l.
Proof.
  revert idx. induction l as [|v l IH]; intros idx Hi; simpl in Hi.
  - discriminate.
  - destruct (Nat.eqb_spec v w) as [->|Hne].
    + injection Hi as <-. reflexivity.
    + destruct (indexOf w l) as [i|] eqn:E; [|discriminate].
      injection Hi as <-. cbn [splice1].
      rewrite perm_swap. constructor. apply IH. reflexivity.
Qed.

Lemma apply_permutation (op : Op) (s : State) :
  Permutation (snd (apply op s) ++ waiters (fst (apply op s)))
              (waiters s ++ issued [op]).
Proof.
  destruct s as [m c q].
  destruct op as [[|]|[|]|w|w]; destruct m, c;
    unfold apply, setMayorSpeaking, setCitizenSpeaking, waitForSilence, failsafe,
      flushWaiters; cbn;
    rewrite ?app_nil_r; try reflexivity;
    try (apply Permutation_cons_append);
    try (destruct (indexOf w q) as [idx|] eqn:Hi; cbn;
         [apply splice1_permutation; assumption | reflexivity]).
Qed.

Lemma issued_cons (op : Op) (ops : list Op) :
  issued (op :: ops) = issued [op] ++ issued ops.
Proof. destruct op; reflexivity. Qed.

Lemma run_permutation (ops : list Op) :
  forall s,
    Permutation (snd (run ops s) ++ waiters (fst (run ops s)))
                (waiters s ++ issued ops).
Proof.
  induction ops as [|op ops IH]; intro s.
  - cbn. rewrite app_nil_r. reflexivity.
  - rewrite run_cons, issued_cons. cbn [fst snd].
    rewrite <- app_assoc, IH.
    rewrite !app_assoc. apply Permutation_app_tail. apply apply_permutation.
Qed.

(** X20: no promise is lost and none is resolved twice: after any sequence
    of calls, failsafe firings included, in which every waitForSilence call
    has a promise of its own, the promises resolved so far together with
    those still queued are exactly the promises created; hence no promise is
    resolved more than once, none is both resolved and queued, and each one
    created is either resolved or still queued. *)
Theorem every_promise_is_resolved_at_most_once (ops : list Op) :
  NoDup (issued ops) ->
  let resolved := snd (run ops initial) in
  let queue := waiters (fst (run ops initial)) in
  Permutation (resolved ++ queue) (issued ops)
  /\ NoDup resolved
  /\ NoDup queue
  /\ (forall w, In w resolved -> ~ In w queue)
  /\ (forall w, In w (issued ops) -> In w resolved \/ In w queue).
Proof.
  intros Hnd resolved queue.
  pose proof (run_permutation ops initial) as Hp. cbn [waiters initial app] in Hp.
  fold resolved queue in Hp.
  assert (Hnd' : NoDup (resolved ++ queue))
    by (eapply Permutation_NoDup; [symmetry; exact Hp | exact Hnd]).
  split; [exact Hp|].
  split; [eapply NoDup_app_remove_r; exact Hnd'|].
  split; [eapply NoDup_app_remove_l; exact Hnd'|].
  split.
  - intros w Hr Hq. apply in_split in Hr. destruct Hr as (l1 & l2 & E).
    rewrite E in Hnd'. rewrite <- app_assoc in Hnd'. cbn in Hnd'.
    apply NoDup_remove_2 in Hnd'. apply Hnd'.
    rewrite !in_app_iff. right. right. exact Hq.
  - intros w Hw. apply in_app_iff.
    eapply Permutation_in; [symmetry; exact Hp | exact Hw].
Qed.

Lemma every_promise_is_resolved_at_most_once_witness :
  NoDup (snd (run [SetMayorSpeaking true; WaitForSilence 1%nat; WaitForSilence 2%nat;
                   FailsafeFires 1%nat; SetMayorSpeaking false; FailsafeFires 2%nat]
                initial)).
Proof.
  destruct (every_promise_is_resolved_at_most_once
              [SetMayorSpeaking true; WaitForSilence 1%nat; WaitForSilence 2%nat;
               FailsafeFires 1%nat; SetMayorSpeaking false; FailsafeFires 2%nat])
    as (_ & Hres & _).
  - cbn. repeat constructor; cbn; intuition discriminate.
  - exact Hres.
Defined.

(** X21: after a failsafe the queue is no longer served in order: when the
    failsafe of one waiter fires while another is queued, the other stays
    queued although both flags are now false, and a waitForSilence call made
    after it returns at once, ahead of the waiter that has been queued
    longer. *)
Theorem latecomer_overtakes_after_failsafe (s : State) (w v u : Waiter) :
  In w (waiters s) -> In v (waiters s) -> v <> w ->
  let s1 := fst (failsafe w s) in
  silent s1 = true
  /\ In v (waiters s1)
  /\ waitForSilence u s1 = (s1, [u]).
Proof.
  intros Hw Hv Hne s1. subst s1. unfold failsafe.
  destruct (indexOf_In w (waiters s) Hw) as [idx Hidx]. rewrite Hidx. cbn [fst].
  split; [reflexivity|].
  split; [cbn [waiters]; eapply splice1_keeps_others; eassumption|].
  reflexivity.
Qed.

Lemma latecomer_overtakes_after_failsafe_witness :
  waitForSilence 3%nat (fst (failsafe 1%nat Samples.twoWaiting))
  = (fst (failsafe 1%nat Samples.twoWaiting), [3%nat]).
Proof.
  destruct (latecomer_overtakes_after_failsafe Samples.twoWaiting 1%nat 2%nat 3%nat)
    as (_ & _ & Hnow).
  - vm_compute. left. reflexivity.
  - vm_compute. right. left. reflexivity.
  - discriminate.
  - exact Hnow.
Defined.

End SpeechTraceFacts.

(** ** DisasterService: trigger, damage, recovery commands and summary *)

Module DisasterServiceMore.
Import World DisasterService DisasterServiceFacts.

Lemma triggerDisaster_active (rnd : nat -> Q) (s : Service) (c : City)
    (ex ey sx sy : Z) :
  activeDisaster (serviceOf (triggerDisaster rnd s c ex ey sx sy)) <> None.
Proof.
  unfold triggerDisaster.
  destruct (fold_left _ _ _) as [c' affected]. cbn. discriminate.
Qed.

(** X22: with no hazard active, a simulation step triggers a hazard exactly
    when the three guards pass: at least 8 tiles hold a building, at least
    60 ticks have passed since the last trigger (or there was none), and the
    draw does not exceed the chance 0.02; when it triggers nothing, it
    returns the service and the city as they are and emits nothing. *)
Theorem hazard_triggers_iff_guards_pass (rnd : Draws) (s : Service) (c : City) :
  activeDisaster s = None ->
  validDraw (rnd_epicenter rnd) ->
  (activeDisaster (serviceOf (simulate rnd s c)) <> None
   <-> 8 <= buildingCount c
       /\ (forall t, lastDisasterTick s = Some t -> 60 <= simTime c - t)
       /\ (rnd_chance rnd <= 0.02)%Q)
  /\ (activeDisaster (serviceOf (simulate rnd s c)) = None ->
      simulate rnd s c = (s, c, [])).
Proof.
  intros Hnone Hdraw. unfold simulate. rewrite Hnone. unfold tryTriggerDisaster.
  destruct (Z.ltb_spec (buildingCount c) cfg.minBuildingsForDisaster) as [Hfew|Hmany];
    unfold cfg.minBuildingsForDisaster in *.
  { cbn [serviceOf fst]. rewrite Hnone. split; [|reflexivity].
    split; [intro H; contradiction | intros [H _]; lia]. }
  destruct (tooSoon s c) eqn:Hsoon.
  { cbn [serviceOf fst]. rewrite Hnone. split; [|reflexivity].
    split; [intro H; contradiction|]. intros (_ & H & _).
    unfold tooSoon in Hsoon. destruct (lastDisasterTick s) as [t|]; [|discriminate].
    apply Z.ltb_lt in Hsoon. specialize (H t eq_refl).
    unfold cfg.minTicksBetweenDisasters in Hsoon. lia. }
  destruct (Qltb cfg.disasterChance (rnd_chance rnd)) eqn:Hchance.
  { cbn [serviceOf fst]. rewrite Hnone. split; [|reflexivity].
    split; [intro H; contradiction|]. intros (_ & _ & H).
    apply Qltb_lt in Hchance. exfalso. exact (Qlt_not_le _ _ Hchance H). }
  assert (Hne : buildingTiles c <> []).
  { unfold buildingCount in Hmany. destruct (buildingTiles c); [cbn in Hmany; lia | discriminate]. }
  destruct (nth_error_randomIndex (rnd_epicenter rnd) (buildingTiles c) Hdraw Hne)
    as [[ex ey] Hn].
  destruct (buildingTiles c) as [|t0 ts] eqn:Hb; [contradiction|].
  rewrite Hn. cbn [fst snd].
  pose proof (triggerDisaster_active (rnd_recovery rnd) s c ex ey
                (sampleSize (rnd_sizeX rnd)) (sampleSize (rnd_sizeY rnd))) as Hact.
  split.
  - split; [|intros _; exact Hact]. intros _.
    split; [lia|]. split.
    + intros t Ht. unfold tooSoon in Hsoon. rewrite Ht in Hsoon.
      apply Z.ltb_ge in Hsoon. exact Hsoon.
    + apply Qltb_ge in Hchance. exact Hchance.
  - intro H. contradiction.
Qed.

Lemma hazard_triggers_iff_guards_pass_witness :
  activeDisaster (serviceOf (simulate Samples.draws0 (setNotifyFn initial) Samples.town))
  <> None.
Proof.
  destruct (hazard_triggers_iff_guards_pass Samples.draws0 (setNotifyFn initial)
              Samples.town) as [Hiff _].
  - reflexivity.
  - exact validDraw_0.
  - apply Hiff. split; [vm_compute; discriminate|].
    split; [intros t Ht; discriminate Ht | vm_compute; discriminate].
Defined.

(** *** What a trigger does to the grid *)

(** [city.getTile(x, y)] is truthy. *)
Definition present (c : City) (xy : Z * Z) : bool :=
  match getTile c (fst xy) (snd xy) with Some _ => true | None => false end.

(** A tile after the loop body of [triggerDisaster] has run on it. *)
Definition wrecked (t : Tile) : Tile :=
  {| building := None; damaged := true; recoveryProgress := 0;
     activeRecovery := activeRecovery t |}.

Definition sameFrame (c c' : City) : Prop :=
  size c' = size c /\ simTime c' = simTime c
  /\ population c' = population c /\ happiness c' = happiness c.

Lemma coord_eq_dec (p q : Z * Z) : {p = q} + {p <> q}.
Proof. decide equality; apply Z.eq_dec. Qed.

Lemma damageTile_step (rnd : nat -> Q) (c : City) (acc : list AffectedTile)
    (a b : Z) (tile : Tile) :
  getTile c a b = Some tile ->
  exists c2,
    damageTile rnd (c, acc) (a, b)
    = (c2, acc ++ [ {| x := a; y := b;
                       totalRecoveryTicks := sampleRecoveryTicks (rnd (length acc)) |} ])
    /\ getTile c2 a b = Some (wrecked tile)
    /\ (forall u v, (u, v) <> (a, b) -> getTile c2 u v = getTile c u v)
    /\ sameFrame c c2.
Proof.
  intro Ht. unfold damageTile. rewrite Ht.
  destruct (building tile) as [bld|] eqn:Hb.
  - unfold bulldoze. rewrite Ht, getTile_setTile_same. cbn [building activeRecovery].
    eexists. split; [reflexivity|].
    split; [apply getTile_setTile_same|].
    split; [|repeat split].
    intros u v Hne. rewrite !getTile_setTile_other by assumption. reflexivity.
  - rewrite Ht, Hb.
    eexists. split; [reflexivity|].
    split; [apply getTile_setTile_same|].
    split; [|repeat split].
    intros u v Hne. rewrite getTile_setTile_other by assumption. reflexivity.
Qed.

(** The tile loop of [triggerDisaster] over the positions [l]: what it
    appends to the list and what it leaves in the grid. *)
Lemma damage_fold (rnd : nat -> Q) (l : list (Z * Z)) :
  forall c acc,
  exists c' new,
    fold_left (damageTile rnd) l (c, acc) = (c', acc ++ new)
    /\ map coordsOf new = filter (present c) l
    /\ map totalRecoveryTicks new
       = map (fun k => sampleRecoveryTicks (rnd (length acc + k)%nat))
             (seq 0 (length new))
    /\ (forall u v, getTile c u v = None -> getTile c' u v = None)
    /\ (forall u v t, getTile c u v = Some t -> In (u, v) l ->
                      getTile c' u v = Some (wrecked t))
    /\ (forall u v, ~ In (u, v) l -> getTile c' u v = getTile c u v)
    /\ sameFrame c c'.
Proof.
  induction l as [|[a b] l IH]; intros c acc.
  - exists c, []. cbn [fold_left]. rewrite app_nil_r.
    split; [reflexivity|]. split; [reflexivity|]. split; [reflexivity|].
    split; [auto|]. split; [intros u v t _ []|]. split; [reflexivity|].
    repeat split.
  - cbn [fold_left]. destruct (getTile c a b) as [tile|] eqn:Ht.
    + destruct (damageTile_step rnd c acc a b tile Ht)
        as (c2 & Hstep & Hsame & Hother & Hfr2).
      rewrite Hstep.
      set (e1 := {| x := a; y := b;
                    totalRecoveryTicks := sampleRecoveryTicks (rnd (length acc)) |}) in *.
      destruct (IH c2 (acc ++ [e1]))
        as (c' & new' & Hfold & Hco & Htk & Hnone & Hsome & Hout & Hfr).
      exists c', (e1 :: new').
      split; [rewrite Hfold, <- app_assoc; reflexivity|].
      split.
      { cbn [map filter]. unfold present at 1. cbn [fst snd]. rewrite Ht.
        change (coordsOf e1) with (a, b). f_equal. rewrite Hco.
        apply filter_ext. intros [u v]. unfold present. cbn [fst snd].
        destruct (coord_eq_dec (u, v) (a, b)) as [E|E].
        - injection E as -> ->. rewrite Hsame, Ht. reflexivity.
        - rewrite Hother by assumption. reflexivity. }
      split.
      { cbn [map length seq]. f_equal.
        - cbn [totalRecoveryTicks e1]. rewrite Nat.add_0_r. reflexivity.
        - rewrite Htk, <- seq_shift, map_map. apply map_ext. intro k.
          rewrite length_app. cbn [length]. do 2 f_equal. lia. }
      split.
      { intros u v Hn. apply Hnone. rewrite Hother; [assumption|].
        intro E. injection E as -> ->. congruence. }
      split.
      { intros u v t Hg Hin.
        destruct (coord_eq_dec (u, v) (a, b)) as [E|E].
        - injection E as -> ->. assert (t = tile) by congruence. subst t.
          destruct (in_dec coord_eq_dec (a, b) l) as [Hl|Hl].
          + apply (Hsome a b (wrecked tile) Hsame Hl).
          + rewrite Hout by assumption. assumption.
        - destruct Hin as [Hin|Hin]; [congruence|].
          apply Hsome; [|assumption]. rewrite Hother by assumption. assumption. }
      split.
      { intros u v Hn. rewrite Hout by (intro; apply Hn; right; assumption).
        apply Hother. intro E. apply Hn. left. congruence. }
      destruct Hfr2 as (A1 & A2 & A3 & A4), Hfr as (B1 & B2 & B3 & B4).
      repeat split; congruence.
    + assert (Hd : damageTile rnd (c, acc) (a, b) = (c, acc)).
      { unfold damageTile. rewrite Ht. reflexivity. }
      rewrite Hd.
      destruct (IH c acc)
        as (c' & new' & Hfold & Hco & Htk & Hnone & Hsome & Hout & Hfr).
      exists c', new'.
      split; [assumption|].
      split.
      { cbn [filter]. unfold present at 1. cbn [fst snd]. rewrite Ht. assumption. }
      split; [assumption|]. split; [assumption|].
      split.
      { intros u v t Hg [E|Hin]; [|apply Hsome; assumption].
        injection E as -> ->. congruence. }
      split; [|assumption].
      intros u v Hn. apply Hout. intro. apply Hn. right. assumption.
Qed.

(** The positions of the extent of [triggerDisaster]. *)
Definition extentOf (c : City) (ex ey sx sy : Z) : list (Z * Z) :=
  let startX := Z.max 0 (ex - sx / 2) in
  let startY := Z.max 0 (ey - sy / 2) in
  let endX := Z.min (size c - 1) (startX + sx - 1) in
  let endY := Z.min (size c - 1) (startY + sy - 1) in
  extent startX endX startY endY.

Lemma triggerDisaster_view (rnd : nat -> Q) (s : Service) (c : City)
    (ex ey sx sy : Z) :
  exists c' affected,
    activeDisaster (serviceOf (triggerDisaster rnd s c ex ey sx sy))
    = Some {| epicenterX := ex; epicenterY := ey; affectedTiles := affected |}
    /\ lastDisasterTick (serviceOf (triggerDisaster rnd s c ex ey sx sy))
       = Some (simTime c)
    /\ cityOf (triggerDisaster rnd s c ex ey sx sy) = c'
    /\ map coordsOf affected = filter (present c) (extentOf c ex ey sx sy)
    /\ map totalRecoveryTicks affected
       = map (fun k => sampleRecoveryTicks (rnd k)) (seq 0 (length affected))
    /\ (forall u v, getTile c u v = None -> getTile c' u v = None)
    /\ (forall u v t, getTile c u v = Some t -> In (u, v) (extentOf c ex ey sx sy) ->
                      getTile c' u v = Some (wrecked t))
    /\ (forall u v, ~ In (u, v) (extentOf c ex ey sx sy) ->
                    getTile c' u v = getTile c u v)
    /\ sameFrame c c'.
Proof.
  destruct (damage_fold rnd (extentOf c ex ey sx sy) c [])
    as (c' & new & Hfold & Hco & Htk & Hnone & Hsome & Hout & Hfr).
  exists c', new. unfold triggerDisaster. cbv zeta.
  unfold extentOf in Hfold. cbv zeta in Hfold. rewrite Hfold.
  cbn [app serviceOf cityOf fst snd activeDisaster lastDisasterTick].
  destruct Hfr as (F1 & F2 & F3 & F4).
  split; [reflexivity|]. split; [rewrite F2; reflexivity|].
  split; [reflexivity|]. split; [assumption|]. split; [assumption|].
  split; [assumption|]. split; [assumption|]. split; [assumption|].
  repeat split; assumption.
Qed.

(** A step that ends with a hazard active, out of a state without one, ran
    [triggerDisaster] at a tile that held a building. *)
Lemma simulate_triggered (rnd : Draws) (s : Service) (c : City) (d : Disaster) :
  activeDisaster s = None ->
  activeDisaster (serviceOf (simulate rnd s c)) = Some d ->
  exists ex ey,
    In (ex, ey) (buildingTiles c)
    /\ simulate rnd s c
       = triggerDisaster (rnd_recovery rnd) s c ex ey
           (sampleSize (rnd_sizeX rnd)) (sampleSize (rnd_sizeY rnd)).
Proof.
  intros Hnone. unfold simulate. rewrite Hnone. unfold tryTriggerDisaster.
  destruct (buildingCount c <? cfg.minBuildingsForDisaster);
    [cbn [serviceOf fst]; congruence|].
  destruct (tooSoon s c); [cbn [serviceOf fst]; congruence|].
  destruct (Qltb cfg.disasterChance (rnd_chance rnd));
    [cbn [serviceOf fst]; congruence|].
  destruct (buildingTiles c) as [|t0 ts] eqn:Hb; [cbn [serviceOf fst]; congruence|].
  destruct (nth_error (t0 :: ts) (randomIndex (rnd_epicenter rnd) (length (t0 :: ts))))
    as [[ex ey]|] eqn:Hn; [|cbn [serviceOf fst]; congruence].
  intros _. exists ex, ey. split; [|reflexivity].
  eapply nth_error_In. exact Hn.
Qed.

Lemma sampleRecoveryTicks_bounds (r : Q) :
  validDraw r -> 300 <= sampleRecoveryTicks r <= 600.
Proof.
  intro Hr. unfold sampleRecoveryTicks.
  pose proof (floor_draw_bounds r (cfg.maxRecoveryTicks - cfg.minRecoveryTicks + 1) Hr
                ltac:(reflexivity)) as H.
  change (cfg.maxRecoveryTicks - cfg.minRecoveryTicks + 1) with 301 in *.
  unfold cfg.minRecoveryTicks. lia.
Qed.

Lemma length_fromTo (lo hi : Z) : length (fromTo lo hi) = Z.to_nat (hi - lo + 1).
Proof. unfold fromTo. rewrite length_map, length_seq. reflexivity. Qed.

Lemma length_extent (x0 x1 y0 y1 : Z) :
  length (extent x0 x1 y0 y1)
  = (length (fromTo x0 x1) * length (fromTo y0 y1))%nat.
Proof.
  unfold extent. induction (fromTo x0 x1) as [|a l IH]; cbn [flat_map length].
  - reflexivity.
  - rewrite length_app, length_map, IH. lia.
Qed.

Lemma length_filter_le {A} (f : A -> bool) (l : list A) :
  (length (filter f l) <= length l)%nat.
Proof.
  induction l as [|a l IH]; cbn [filter length]; [lia|].
  destruct (f a); cbn [length]; lia.
Qed.

Lemma In_totalRecoveryTicks (rnd : nat -> Q) (l : list AffectedTile) (e : AffectedTile) :
  map totalRecoveryTicks l
  = map (fun k => sampleRecoveryTicks (rnd k)) (seq 0 (length l)) ->
  In e l -> exists k, totalRecoveryTicks e = sampleRecoveryTicks (rnd k).
Proof.
  intros Hm Hin. apply (in_map totalRecoveryTicks) in Hin. rewrite Hm in Hin.
  apply in_map_iff in Hin. destruct Hin as (k & Hk & _). exists k. symmetry. exact Hk.
Qed.

(** X23: a hazard that a step triggers is centred on a tile that held a
    building and lists that tile; it lists between 1 and 9 tiles, each once,
    each inside the grid and at most one position before and two after the
    epicenter on either axis, each with a recovery time of 300 to 600 ticks;
    the tick of the trigger is recorded. *)
Theorem triggered_hazard_geometry (rnd : Draws) (s : Service) (c : City)
    (d : Disaster) :
  activeDisaster s = None ->
  validDraw (rnd_sizeX rnd) -> validDraw (rnd_sizeY rnd) ->
  (forall k, validDraw (rnd_recovery rnd k)) ->
  activeDisaster (serviceOf (simulate rnd s c)) = Some d ->
  In (epicenterX d, epicenterY d) (buildingTiles c)
  /\ In (epicenterX d, epicenterY d) (map coordsOf (affectedTiles d))
  /\ (1 <= length (affectedTiles d) <= 9)%nat
  /\ NoDup (map coordsOf (affectedTiles d))
  /\ (forall e, In e (affectedTiles d) ->
        0 <= x e < size c /\ 0 <= y e < size c
        /\ epicenterX d - 1 <= x e <= epicenterX d + 2
        /\ epicenterY d - 1 <= y e <= epicenterY d + 2
        /\ 300 <= totalRecoveryTicks e <= 600)
  /\ lastDisasterTick (serviceOf (simulate rnd s c)) = Some (simTime c).
Proof.
  intros Hnone Hsx Hsy Hrec Hact.
  destruct (simulate_triggered rnd s c d Hnone Hact) as (ex & ey & Hepi & Heq).
  rewrite Heq in *.
  destruct (triggerDisaster_view (rnd_recovery rnd) s c ex ey
              (sampleSize (rnd_sizeX rnd)) (sampleSize (rnd_sizeY rnd)))
    as (c' & affected & Hd & Hlast & _ & Hco & Htk & _).
  rewrite Hd in Hact. injection Hact as <-.
  cbn [epicenterX epicenterY affectedTiles].
  destruct (buildingTiles_spec c ex ey Hepi) as (Hx & Hy & Hpresent).
  pose proof (sampleSize_2_or_3 _ Hsx) as Hsx'.
  pose proof (sampleSize_2_or_3 _ Hsy) as Hsy'.
  set (sx := sampleSize (rnd_sizeX rnd)) in *.
  set (sy := sampleSize (rnd_sizeY rnd)) in *.
  assert (Hdiv : forall v, v = 2 \/ v = 3 -> v / 2 = 1).
  { intros v [->| ->]; reflexivity. }
  assert (Hin : forall a b, In (a, b) (map coordsOf affected) <->
                            In (a, b) (extentOf c ex ey sx sy) /\ getTile c a b <> None).
  { intros a b. rewrite Hco, filter_In. unfold present. cbn [fst snd].
    destruct (getTile c a b); intuition congruence. }
  assert (Hext : forall a b, In (a, b) (extentOf c ex ey sx sy) ->
                   0 <= a < size c /\ 0 <= b < size c
                   /\ ex - 1 <= a <= ex + 2 /\ ey - 1 <= b <= ey + 2).
  { intros a b. unfold extentOf. cbv zeta. rewrite In_extent.
    rewrite (Hdiv sx Hsx'), (Hdiv sy Hsy'). lia. }
  split; [assumption|].
  split.
  { apply Hin. split; [|assumption]. unfold extentOf. cbv zeta. rewrite In_extent.
    rewrite (Hdiv sx Hsx'), (Hdiv sy Hsy'). lia. }
  split.
  { split.
    - assert (In (ex, ey) (map coordsOf affected)) as Hi.
      { apply Hin. split; [|assumption]. unfold extentOf. cbv zeta. rewrite In_extent.
        rewrite (Hdiv sx Hsx'), (Hdiv sy Hsy'). lia. }
      destruct affected; [destruct Hi | cbn [length]; lia].
    - rewrite <- (length_map coordsOf), Hco.
      eapply Nat.le_trans; [apply length_filter_le|].
      unfold extentOf. cbv zeta. rewrite length_extent, !length_fromTo.
      rewrite (Hdiv sx Hsx'), (Hdiv sy Hsy').
      assert (Z.to_nat (Z.min (size c - 1) (Z.max 0 (ex - 1) + sx - 1)
                        - Z.max 0 (ex - 1) + 1) <= 3)%nat by lia.
      assert (Z.to_nat (Z.min (size c - 1) (Z.max 0 (ey - 1) + sy - 1)
                        - Z.max 0 (ey - 1) + 1) <= 3)%nat by lia.
      nia. }
  split.
  { rewrite Hco. apply NoDup_filter. unfold extentOf. cbv zeta. apply NoDup_extent. }
  split; [|assumption].
  intros e He.
  assert (In (x e, y e) (map coordsOf affected)) as Hi
    by (apply (in_map coordsOf) in He; exact He).
  apply Hin in Hi. destruct Hi as [Hi _]. apply Hext in Hi.
  destruct (In_totalRecoveryTicks _ _ _ Htk He) as (k & ->).
  pose proof (sampleRecoveryTicks_bounds _ (Hrec k)). lia.
Qed.

Lemma triggered_hazard_geometry_witness :
  exists d,
    activeDisaster (serviceOf (simulate Samples.draws0 (setNotifyFn initial) Samples.town))
    = Some d
    /\ (1 <= length (affectedTiles d) <= 9)%nat.
Proof.
  eexists. split; [reflexivity|].
  refine (proj1 (proj2 (proj2
    (triggered_hazard_geometry Samples.draws0 (setNotifyFn initial) Samples.town _
       eq_refl validDraw_0 validDraw_0 (fun _ => validDraw_0) eq_refl)))).
Defined.

(** X24: a trigger leaves every listed tile without a building, damaged and
    at progress 0, keeping its active-recovery flag; every tile it does not
    list is as before; it lists exactly the tiles of the extent that
    exist. *)
Theorem trigger_wrecks_exactly_the_listed_tiles (rnd : Draws) (s : Service)
    (c : City) (d : Disaster) :
  activeDisaster s = None ->
  activeDisaster (serviceOf (simulate rnd s c)) = Some d ->
  let c' := cityOf (simulate rnd s c) in
  (forall e, In e (affectedTiles d) ->
     exists t, getTile c (x e) (y e) = Some t
               /\ getTile c' (x e) (y e) = Some (wrecked t))
  /\ (forall u v, ~ In (u, v) (map coordsOf (affectedTiles d)) ->
                  getTile c' u v = getTile c u v)
  /\ map coordsOf (affectedTiles d)
     = filter (present c)
         (extentOf c (epicenterX d) (epicenterY d)
            (sampleSize (rnd_sizeX rnd)) (sampleSize (rnd_sizeY rnd))).
Proof.
  intros Hnone Hact.
  destruct (simulate_triggered rnd s c d Hnone Hact) as (ex & ey & Hepi & Heq).
  rewrite Heq in *.
  destruct (triggerDisaster_view (rnd_recovery rnd) s c ex ey
              (sampleSize (rnd_sizeX rnd)) (sampleSize (rnd_sizeY rnd)))
    as (c' & affected & Hd & Hlast & Hc & Hco & Htk & Hnn & Hsome & Hout & Hfr).
  rewrite Hd in Hact. injection Hact as <-.
  cbn [epicenterX epicenterY affectedTiles]. cbv zeta. rewrite Hc.
  assert (Hin : forall a b, In (a, b) (map coordsOf affected) <->
                  In (a, b) (extentOf c ex ey (sampleSize (rnd_sizeX rnd))
                               (sampleSize (rnd_sizeY rnd)))
                  /\ getTile c a b <> None).
  { intros a b. rewrite Hco, filter_In. unfold present. cbn [fst snd].
    destruct (getTile c a b); intuition congruence. }
  split.
  { intros e He.
    assert (In (x e, y e) (map coordsOf affected)) as Hi
      by (apply (in_map coordsOf) in He; exact He).
    apply Hin in Hi. destruct Hi as [Hi Hp].
    destruct (getTile c (x e) (y e)) as [t|] eqn:Ht; [|congruence].
    exists t. split; [reflexivity|]. apply Hsome; assumption. }
  split.
  { intros u v Hn.
    destruct (in_dec coord_eq_dec (u, v)
                (extentOf c ex ey (sampleSize (rnd_sizeX rnd))
                   (sampleSize (rnd_sizeY rnd)))) as [Hi|Hi].
    - destruct (getTile c u v) as [t|] eqn:Ht.
      + exfalso. apply Hn. apply Hin. split; [assumption|congruence].
      + apply Hnn. assumption.
    - apply Hout. assumption. }
  assumption.
Qed.

Lemma trigger_wrecks_exactly_the_listed_tiles_witness :
  map coordsOf (match activeDisaster Samples.service1 with
                | Some d => affectedTiles d
                | None => []
                end)
  = filter (present Samples.town) (extentOf Samples.town 0 0 2 2).
Proof.
  exact (proj2 (proj2
    (trigger_wrecks_exactly_the_listed_tiles Samples.draws0 (setNotifyFn initial)
       Samples.town _ eq_refl eq_refl))).
Defined.

(** *** The recover command *)

(** A tile after [setActiveRecovery(true)]. *)
Definition underRecovery (t : Tile) : Tile :=
  {| building := building t; damaged := damaged t;
     recoveryProgress := recoveryProgress t; activeRecovery := true |}.

Lemma find_entry (l : list AffectedTile) (x0 y0 : Z) (e : AffectedTile) :
  find (fun t => (x t =? x0) && (y t =? y0)) l = Some e ->
  In e l /\ x e = x0 /\ y e = y0.
Proof.
  intro H. apply find_some in H. destruct H as [Hin Hp].
  apply andb_true_iff in Hp. destruct Hp as [Hx Hy].
  apply Z.eqb_eq in Hx, Hy. auto.
Qed.

Lemma find_entry_none (l : list AffectedTile) (x0 y0 : Z) :
  ~ In (x0, y0) (map coordsOf l) ->
  find (fun t => (x t =? x0) && (y t =? y0)) l = None.
Proof.
  intro H. destruct (find _ l) as [e|] eqn:E; [|reflexivity].
  apply find_entry in E. destruct E as (Hin & <- & <-).
  exfalso. apply H. exact (in_map coordsOf _ _ Hin).
Qed.

Lemma find_entry_unique (l : list AffectedTile) (e : AffectedTile) :
  NoDup (map coordsOf l) -> In e l ->
  find (fun t => (x t =? x e) && (y t =? y e)) l = Some e.
Proof.
  induction l as [|a l IH]; intros Hnd Hin; [destruct Hin|].
  cbn [map] in Hnd. inversion Hnd as [|? ? Hna Hnd']; subst.
  cbn [find]. destruct Hin as [->|Hin].
  - rewrite !Z.eqb_refl. reflexivity.
  - destruct ((x a =? x e) && (y a =? y e)) eqn:E.
    + apply andb_true_iff in E. destruct E as [Hx Hy].
      apply Z.eqb_eq in Hx, Hy. exfalso. apply Hna.
      replace (coordsOf a) with (coordsOf e)
        by (unfold coordsOf; congruence).
      exact (in_map coordsOf _ _ Hin).
    + apply IH; assumption.
Qed.

(** X25: recoverTile answers that there is no hazard, or that the position
    is not on the list, without touching the city, as does every failed
    call; a successful call found the position on the list with its tile not
    yet under recovery, sets the active-recovery flag of that one tile and
    changes nothing else, and the same call made again is refused as
    already recovering. *)
Theorem recover_tile_marks_one_tile (s : Service) (c : City) (x0 y0 : Z) :
  let r := fst (recoverTile s c x0 y0) in
  let c' := snd (recoverTile s c x0 y0) in
  (activeDisaster s = None -> r = NoDisaster)
  /\ (forall d, activeDisaster s = Some d ->
        ~ In (x0, y0) (map coordsOf (affectedTiles d)) -> r = NotDamaged x0 y0)
  /\ (success r = false -> c' = c)
  /\ (success r = true ->
        (exists d e, activeDisaster s = Some d /\ In e (affectedTiles d)
                     /\ coordsOf e = (x0, y0))
        /\ (forall u v, (u, v) <> (x0, y0) -> getTile c' u v = getTile c u v)
        /\ (forall t, getTile c x0 y0 = Some t ->
              activeRecovery t = false
              /\ getTile c' x0 y0 = Some (underRecovery t)
              /\ recoverTile s c' x0 y0 = (AlreadyRecovering x0 y0, c'))
        /\ sameFrame c c').
Proof.
  cbv zeta. unfold recoverTile.
  destruct (activeDisaster s) as [d|] eqn:Hd; cbn [fst snd success].
  2:{ split; [reflexivity|]. split; [discriminate|]. split; [reflexivity|discriminate]. }
  split; [discriminate|].
  split.
  { intros d' Hd' Hn. injection Hd' as <-. rewrite (find_entry_none _ _ _ Hn).
    reflexivity. }
  destruct (find (fun t => (x t =? x0) && (y t =? y0)) (affectedTiles d))
    as [e|] eqn:Hf; cbn [fst snd success].
  2:{ split; [reflexivity|discriminate]. }
  destruct (find_entry _ _ _ _ Hf) as (Hin & Hx & Hy).
  destruct (entryActive c e) eqn:Ha; cbn [fst snd success].
  { split; [reflexivity|discriminate]. }
  split; [discriminate|]. intros _.
  split; [exists d, e; unfold coordsOf; rewrite Hx, Hy; auto|].
  rewrite Hx, Hy. unfold entryActive in Ha. rewrite Hx, Hy in Ha.
  destruct (getTile c x0 y0) as [t|] eqn:Ht.
  - split; [intros u v Hne; apply getTile_setTile_other; assumption|].
    split; [|repeat split].
    intros t' Ht'. injection Ht' as <-.
    split; [assumption|]. split; [apply getTile_setTile_same|].
    unfold entryActive. rewrite Hx, Hy, getTile_setTile_same.
    reflexivity.
  - split; [reflexivity|]. split; [discriminate|repeat split].
Qed.

Lemma recover_tile_marks_one_tile_witness :
  snd (recoverTile initial Samples.town 0 0) = Samples.town.
Proof.
  exact (proj1 (proj2 (proj2 (recover_tile_marks_one_tile initial Samples.town 0 0)))
           eq_refl).
Defined.

(** *** One tick of recovery *)

(** [advanceRecovery] seen through [simulate], a hazard being active. *)
Lemma advanceRecovery_view (rnd : Draws) (s : Service) (c : City) (d : Disaster) :
  activeDisaster s = Some d ->
  let kept := snd (advanceEntries c (affectedTiles d)) in
  let o := simulate rnd s c in
  cityOf o = fst (advanceEntries c (affectedTiles d))
  /\ lastDisasterTick (serviceOf o) = lastDisasterTick s
  /\ activeDisaster (serviceOf o)
     = match kept with
       | [] => None
       | _ :: _ => Some {| epicenterX := epicenterX d; epicenterY := epicenterY d;
                           affectedTiles := kept |}
       end
  /\ emittedOf o
     = match kept with
       | [] => if recoveryCompleteFn s then [RecoveryComplete] else []
       | _ :: _ => []
       end.
Proof.
  intro Hd. cbv zeta. unfold simulate, advanceRecovery. rewrite Hd.
  destruct (advanceEntries c (affectedTiles d)) as [c' kept].
  destruct kept; cbn; auto.
Qed.

Lemma Qmin_1_below (q : Q) : (q < 1)%Q -> (Qmin 1 q == q)%Q.
Proof. intro H. apply Q.min_r. apply Qlt_le_weak. assumption. Qed.

Lemma Qmin_1_above (q : Q) : (1 <= q)%Q -> (Qmin 1 q == 1)%Q.
Proof. intro H. apply Q.min_l. assumption. Qed.

Lemma Qle_bool_false (a b : Q) : Qle_bool a b = false <-> (b < a)%Q.
Proof.
  split; intro H.
  - apply Qnot_le_lt. intro L. apply Qle_bool_iff in L. congruence.
  - destruct (Qle_bool a b) eqn:E; [|reflexivity].
    apply Qle_bool_iff in E. exfalso. exact (Qlt_not_le _ _ H E).
Qed.

Lemma reached_one (q : Q) : Qle_bool 1 (Qmin 1 q) = true <-> (1 <= q)%Q.
Proof.
  rewrite Qle_bool_iff. split; intro H.
  - eapply Qle_trans; [exact H | apply Q.le_min_r].
  - apply Q.min_glb; [apply Qle_refl | assumption].
Qed.

Lemma not_reached_one (q : Q) : Qle_bool 1 (Qmin 1 q) = false <-> (q < 1)%Q.
Proof.
  split; intro H.
  - apply Qnot_le_lt. intro L. apply reached_one in L. congruence.
  - destruct (Qle_bool 1 (Qmin 1 q)) eqn:E; [|reflexivity].
    apply reached_one in E. exfalso. exact (Qlt_not_le _ _ H E).
Qed.

(** The room left for the rounding of one binary64 addition in
    [advanceRecovery]: 2^-50. *)
Definition roundingSlack : Q := 1 # 1125899906842624.

(** Why the room is needed: with a recovery time of 321 ticks, the progress
    after 316 ticks without active recovery is below 1, and so is its exact
    sum with five increments, yet in binary64 that sum rounds to 1. *)
Remark binary64_sum_rounds_up_to_one :
  PrimFloat.ltb (progressAfter64 316 321 false) 1 = true
  /\ PrimFloat.eqb
       (advancedProgress64 321 true (progressAfter64 316 321 false)) 1 = true.
Proof. vm_compute. split; reflexivity. Qed.

(** X26: recover_tile followed by a tick, on a listed tile that is not yet
    under recovery, with a progress of at least 0 and below 1 and a
    recovery time of 300 to 600 ticks.  The call succeeds, and the next tick
    adds five times the tile's own increment 1 / totalRecoveryTicks to its
    progress, up to the rounding of the addition: when the sum is at most
    1 - 2^-50 the tile stays listed, its flag set, with a progress below 1
    and within 2^-50 of the sum; when the sum is at least 1 + 2^-50 the tile
    is restored (not damaged, progress 0, flag cleared) and leaves the list;
    in between, one of the two happens. *)
Theorem recover_then_tick_adds_five_increments (rnd : Draws) (s : Service)
    (c : City) (d : Disaster) (e : AffectedTile) (t : Tile) :
  activeDisaster s = Some d ->
  NoDup (map coordsOf (affectedTiles d)) ->
  In e (affectedTiles d) ->
  getTile c (x e) (y e) = Some t ->
  activeRecovery t = false ->
  300 <= totalRecoveryTicks e <= 600 ->
  (0 <= recoveryProgress t)%Q -> (recoveryProgress t < 1)%Q ->
  let c1 := snd (recoverTile s c (x e) (y e)) in
  let o := simulate rnd s c1 in
  let q := (recoveryProgress t + 1 / inject_Z (totalRecoveryTicks e) * 5)%Q in
  let stays :=
    (exists t2, getTile (cityOf o) (x e) (y e) = Some t2
                /\ (q - roundingSlack <= recoveryProgress t2)%Q
                /\ (recoveryProgress t2 <= q + roundingSlack)%Q
                /\ (recoveryProgress t2 < 1)%Q
                /\ activeRecovery t2 = true
                /\ damaged t2 = damaged t
                /\ building t2 = building t)
    /\ exists d2, activeDisaster (serviceOf o) = Some d2
                  /\ In e (affectedTiles d2) in
  let restored :=
    getTile (cityOf o) (x e) (y e)
    = Some {| building := building t; damaged := false;
              recoveryProgress := 0; activeRecovery := false |}
    /\ forall d2, activeDisaster (serviceOf o) = Some d2 ->
                  ~ In e (affectedTiles d2) in
  success (fst (recoverTile s c (x e) (y e))) = true
  /\ ((q <= 1 - roundingSlack)%Q -> stays)
  /\ ((1 + roundingSlack <= q)%Q -> restored)
  /\ (stays \/ restored).
Proof.
  intros Hd Hnd Hin Ht Ha HT Hp0 Hp1. cbv zeta.
  assert (Hrec : recoverTile s c (x e) (y e)
                 = (RecoveryStarted (x e) (y e)
                      (round (recoveryProgress t * 100))
                      (estimate (recoveryProgress t) (totalRecoveryTicks e)
                         cfg.activeRecoveryMultiplier),
                    setTile c (x e) (y e) (underRecovery t))).
  { unfold recoverTile. rewrite Hd, (find_entry_unique _ _ Hnd Hin).
    unfold entryActive, entryProgress. rewrite Ht, Ha, getTile_setTile_same.
    reflexivity. }
  rewrite Hrec. cbn [fst snd success]. split; [reflexivity|].
  set (c1 := setTile c (x e) (y e) (underRecovery t)).
  destruct (advanceRecovery_view rnd s c1 d Hd) as (Hc & _ & Hact & _).
  cbv zeta in Hact.
  pose proof (advanceEntries_entry (affectedTiles d) e (underRecovery t) c1 Hin Hnd
                (getTile_setTile_same c (x e) (y e) (underRecovery t))) as Hent.
  cbv zeta in Hent. rewrite <- Hc in Hent.
  unfold advancedProgress in Hent.
  cbn [recoveryProgress activeRecovery underRecovery] in Hent.
  unfold increment in Hent. cbv zeta in Hent.
  change (inject_Z cfg.activeRecoveryMultiplier) with (inject_Z 5) in Hent.
  change (inject_Z 5) with 5%Q in Hent.
  set (q := (recoveryProgress t + 1 / inject_Z (totalRecoveryTicks e) * 5)%Q) in *.
  assert (Hslack : (0 < roundingSlack)%Q) by reflexivity.
  assert (Hbelow : (q < 1)%Q ->
            (exists t2, getTile (cityOf (simulate rnd s c1)) (x e) (y e) = Some t2
                        /\ (q - roundingSlack <= recoveryProgress t2)%Q
                        /\ (recoveryProgress t2 <= q + roundingSlack)%Q
                        /\ (recoveryProgress t2 < 1)%Q
                        /\ activeRecovery t2 = true
                        /\ damaged t2 = damaged t
                        /\ building t2 = building t)
            /\ exists d2, activeDisaster (serviceOf (simulate rnd s c1)) = Some d2
                          /\ In e (affectedTiles d2)).
  { intro Hq. rewrite (proj2 (not_reached_one _) Hq) in Hent.
    destruct Hent as [Htile Hkept]. split.
    - eexists. split; [exact Htile|].
      unfold progressedTile, advancedProgress.
      cbn [recoveryProgress activeRecovery damaged building underRecovery].
      unfold increment. cbv zeta.
      change (inject_Z cfg.activeRecoveryMultiplier) with 5%Q. fold q.
      pose proof (Qmin_1_below q Hq) as Hmin.
      split; [rewrite Hmin; lra|]. split; [rewrite Hmin; lra|].
      split; [rewrite Hmin; assumption|]. auto.
    - destruct (snd (advanceEntries c1 (affectedTiles d))) as [|k ks] eqn:Hk;
        [destruct Hkept|].
      eexists. split; [exact Hact|]. exact Hkept. }
  assert (Habove : (1 <= q)%Q ->
            getTile (cityOf (simulate rnd s c1)) (x e) (y e)
            = Some {| building := building t; damaged := false;
                      recoveryProgress := 0; activeRecovery := false |}
            /\ forall d2, activeDisaster (serviceOf (simulate rnd s c1)) = Some d2 ->
                          ~ In e (affectedTiles d2)).
  { intro Hq. rewrite (proj2 (reached_one _) Hq) in Hent.
    destruct Hent as [Htile Hkept]. split; [exact Htile|].
    intros d2 Hd2. rewrite Hact in Hd2.
    destruct (snd (advanceEntries c1 (affectedTiles d))) as [|k ks] eqn:Hk;
      [discriminate|].
    injection Hd2 as <-. exact Hkept. }
  split; [intro Hq; apply Hbelow; lra|].
  split; [intro Hq; apply Habove; lra|].
  destruct (Qlt_le_dec q 1) as [Hq|Hq]; [left; apply Hbelow | right; apply Habove];
    assumption.
Qed.

Lemma recover_then_tick_adds_five_increments_witness :
  success (fst (recoverTile Samples.service1 (cityOf Samples.quake) 0 0)) = true.
Proof.
  refine (proj1 (recover_then_tick_adds_five_increments Samples.draws0
            Samples.service1 (cityOf Samples.quake) _ Samples.entry300 _
            eq_refl _ _ eq_refl eq_refl _ _ _)).
  - vm_compute. repeat constructor; cbn; intuition discriminate.
  - vm_compute. left. reflexivity.
  - vm_compute. split; discriminate.
  - vm_compute. discriminate.
  - vm_compute. reflexivity.
Defined.

Lemma increment_pos (total : Z) (a : bool) : 0 < total -> (0 < increment total a)%Q.
Proof.
  intro H. unfold increment. cbv zeta.
  assert (Hq : (0 < 1 / inject_Z total)%Q).
  { unfold Qdiv. rewrite Qmult_1_l. apply Qinv_lt_0_compat.
    change 0%Q with (inject_Z 0). rewrite <- Zlt_Qlt. assumption. }
  destruct a; [|assumption].
  apply Qmult_lt_0_compat; [assumption|reflexivity].
Qed.

(** X27: one tick of recovery on a hazard whose list names no position
    twice.  The tick of the last trigger and every tile off the list are
    left alone; the list only loses entries and keeps its epicenter; a
    listed tile with a positive recovery time and a progress below 1 either
    stays listed with a strictly larger progress, still below 1, and is
    otherwise unchanged, or
    it is restored (not damaged, progress 0, flag cleared, its building
    kept) and leaves the list; the recovery-complete callback is called
    exactly when the list runs empty and the callback is registered. *)
Theorem recovery_tick_advances_listed_tiles (rnd : Draws) (s : Service)
    (c : City) (d : Disaster) :
  activeDisaster s = Some d ->
  NoDup (map coordsOf (affectedTiles d)) ->
  let o := simulate rnd s c in
  lastDisasterTick (serviceOf o) = lastDisasterTick s
  /\ (forall u v, ~ In (u, v) (map coordsOf (affectedTiles d)) ->
                  getTile (cityOf o) u v = getTile c u v)
  /\ (forall d2, activeDisaster (serviceOf o) = Some d2 ->
        epicenterX d2 = epicenterX d /\ epicenterY d2 = epicenterY d
        /\ forall e, In e (affectedTiles d2) -> In e (affectedTiles d))
  /\ (forall e t,
        In e (affectedTiles d) -> getTile c (x e) (y e) = Some t ->
        0 < totalRecoveryTicks e -> (recoveryProgress t < 1)%Q ->
        (exists d2 t2,
            activeDisaster (serviceOf o) = Some d2 /\ In e (affectedTiles d2)
            /\ getTile (cityOf o) (x e) (y e) = Some t2
            /\ (recoveryProgress t < recoveryProgress t2)%Q
            /\ (recoveryProgress t2 < 1)%Q
            /\ damaged t2 = damaged t
            /\ activeRecovery t2 = activeRecovery t
            /\ building t2 = building t)
        \/ ((forall d2, activeDisaster (serviceOf o) = Some d2 ->
                        ~ In e (affectedTiles d2))
            /\ getTile (cityOf o) (x e) (y e)
               = Some {| building := building t; damaged := false;
                         recoveryProgress := 0; activeRecovery := false |}))
  /\ (emittedOf o = [RecoveryComplete]
      <-> activeDisaster (serviceOf o) = None /\ recoveryCompleteFn s = true)
  /\ (emittedOf o = [] \/ emittedOf o = [RecoveryComplete]).
Proof.
  intros Hd Hnd. cbv zeta.
  destruct (advanceRecovery_view rnd s c d Hd) as (Hc & Hlast & Hact & Hem).
  cbv zeta in Hact, Hem. rewrite Hc, Hlast, Hact, Hem.
  split; [reflexivity|].
  split; [intros u v Hn; apply advanceEntries_other; assumption|].
  split.
  { intros d2 Hd2.
    destruct (snd (advanceEntries c (affectedTiles d))) as [|k ks] eqn:Hk;
      [discriminate|].
    injection Hd2 as <-. cbn [epicenterX epicenterY affectedTiles].
    split; [reflexivity|]. split; [reflexivity|].
    intros e He. apply (advanceEntries_kept (affectedTiles d) e c).
    rewrite Hk. assumption. }
  split.
  { intros e t Hin Ht Hpos Hlt.
    pose proof (advanceEntries_entry (affectedTiles d) e t c Hin Hnd Ht) as Hent.
    cbv zeta in Hent.
    destruct (Qle_bool 1 (advancedProgress (totalRecoveryTicks e) t)) eqn:Hq.
    - right. destruct Hent as [Htile Hkept]. split; [|exact Htile].
      intros d2 Hd2.
      destruct (snd (advanceEntries c (affectedTiles d))) as [|k ks] eqn:Hk;
        [discriminate|].
      injection Hd2 as <-. exact Hkept.
    - left. destruct Hent as [Htile Hkept].
      destruct (snd (advanceEntries c (affectedTiles d))) as [|k ks] eqn:Hk;
        [destruct Hkept|].
      eexists. eexists. split; [reflexivity|]. split; [exact Hkept|].
      split; [exact Htile|]. cbn [progressedTile recoveryProgress damaged
                                   activeRecovery building].
      unfold advancedProgress in *.
      pose proof (proj1 (not_reached_one _) Hq) as Hbelow.
      pose proof (increment_pos (totalRecoveryTicks e) (activeRecovery t) Hpos) as Hinc.
      pose proof (Qmin_1_below _ Hbelow) as Hmin.
      split; [rewrite Hmin; lra|]. split; [rewrite Hmin; assumption|auto]. }
  destruct (snd (advanceEntries c (affectedTiles d))) as [|k ks] eqn:Hk.
  - destruct (recoveryCompleteFn s); split.
    + split; auto.
    + right. reflexivity.
    + split; [discriminate|]. intros [_ H]. discriminate.
    + left. reflexivity.
  - split; [|left; reflexivity].
    split; [discriminate|]. intros [H _]. discriminate.
Qed.

Lemma recovery_tick_advances_listed_tiles_witness :
  lastDisasterTick
    (serviceOf (simulate Samples.draws0 Samples.service1 Samples.townUnderRecovery))
  = Some 100.
Proof.
  refine (proj1 (recovery_tick_advances_listed_tiles Samples.draws0
            Samples.service1 Samples.townUnderRecovery _ eq_refl _)).
  vm_compute. repeat constructor; cbn; intuition discriminate.
Defined.

(** *** What holds while a hazard is active *)

(** Every listed tile exists, is damaged and has a progress in [0, 1); the
    list is not empty, names no position twice, and every recovery time lies
    between 300 and 600 ticks. *)
Definition healthy (s : Service) (c : City) : Prop :=
  forall d, activeDisaster s = Some d ->
    affectedTiles d <> []
    /\ NoDup (map coordsOf (affectedTiles d))
    /\ forall e, In e (affectedTiles d) ->
         300 <= totalRecoveryTicks e <= 600
         /\ exists t, getTile c (x e) (y e) = Some t
                      /\ damaged t = true
                      /\ (0 <= recoveryProgress t < 1)%Q.

Lemma trigger_healthy (rnd : Draws) (s : Service) (c : City) :
  activeDisaster s = None ->
  validDraw (rnd_sizeX rnd) -> validDraw (rnd_sizeY rnd) ->
  (forall k, validDraw (rnd_recovery rnd k)) ->
  healthy (serviceOf (simulate rnd s c)) (cityOf (simulate rnd s c)).
Proof.
  intros Hnone Hsx Hsy Hrec d Hact.
  assert (Hne : affectedTiles d <> []).
  { assert (Hh : hasTiles s) by (intros d0 Hd0; congruence).
    pose proof (tryTriggerDisaster_hasTiles rnd s c Hsx Hsy Hh) as H.
    apply H. unfold simulate in Hact. rewrite Hnone in Hact. exact Hact. }
  destruct (simulate_triggered rnd s c d Hnone Hact) as (ex & ey & Hepi & Heq).
  rewrite Heq in *.
  pose proof (triggerDisaster_distinctTiles (rnd_recovery rnd) s c ex ey
                (sampleSize (rnd_sizeX rnd)) (sampleSize (rnd_sizeY rnd)) d Hact) as Hnd.
  destruct (triggerDisaster_view (rnd_recovery rnd) s c ex ey
              (sampleSize (rnd_sizeX rnd)) (sampleSize (rnd_sizeY rnd)))
    as (c' & affected & Hd & _ & Hc & Hco & Htk & _ & Hsome & _).
  rewrite Hd in Hact. injection Hact as <-. cbn [affectedTiles] in *.
  split; [assumption|]. split; [assumption|].
  intros e He. split.
  - destruct (In_totalRecoveryTicks _ _ _ Htk He) as (k & ->).
    apply sampleRecoveryTicks_bounds. apply Hrec.
  - assert (In (x e, y e) (map coordsOf affected)) as Hi
      by (apply (in_map coordsOf) in He; exact He).
    rewrite Hco in Hi. apply filter_In in Hi. destruct Hi as [Hi Hp].
    unfold present in Hp. cbn [fst snd] in Hp.
    destruct (getTile c (x e) (y e)) as [t|] eqn:Ht; [|discriminate].
    exists (wrecked t). rewrite Hc. split; [apply Hsome; assumption|].
    split; [reflexivity|]. cbn. split; [apply Qle_refl | reflexivity].
Qed.

Lemma advance_healthy (rnd : Draws) (s : Service) (c : City) (d : Disaster) :
  activeDisaster s = Some d -> healthy s c ->
  healthy (serviceOf (simulate rnd s c)) (cityOf (simulate rnd s c)).
Proof.
  intros Hd Hh d2 Hd2.
  destruct (Hh d Hd) as (_ & Hnd & Hall).
  destruct (advanceRecovery_view rnd s c d Hd) as (Hc & _ & Hact & _).
  cbv zeta in Hact. rewrite Hact in Hd2. rewrite Hc.
  pose proof (advanceEntries_NoDup (affectedTiles d) c Hnd) as Hnd2.
  destruct (snd (advanceEntries c (affectedTiles d))) as [|k ks] eqn:Hk;
    [discriminate|].
  injection Hd2 as <-. cbn [affectedTiles].
  split; [discriminate|]. split; [assumption|].
  intros e He.
  assert (Hin : In e (affectedTiles d)).
  { apply (advanceEntries_kept (affectedTiles d) e c). rewrite Hk. assumption. }
  destruct (Hall e Hin) as (HT & t & Ht & Hdam & Hp0 & Hp1).
  split; [assumption|].
  pose proof (advanceEntries_entry (affectedTiles d) e t c Hin Hnd Ht) as Hent.
  cbv zeta in Hent.
  destruct (Qle_bool 1 (advancedProgress (totalRecoveryTicks e) t)) eqn:Hq.
  - destruct Hent as [_ Hkept]. exfalso. apply Hkept. rewrite Hk. assumption.
  - destruct Hent as [Htile _]. eexists. split; [exact Htile|].
    cbn [progressedTile damaged recoveryProgress]. split; [assumption|].
    unfold advancedProgress in *.
    pose proof (proj1 (not_reached_one _) Hq) as Hbelow.
    pose proof (increment_pos (totalRecoveryTicks e) (activeRecovery t)
                  ltac:(lia)) as Hinc.
    pose proof (Qmin_1_below _ Hbelow) as Hmin.
    split; rewrite Hmin; lra.
Qed.

Lemma recoverTile_tiles (s : Service) (c : City) (x0 y0 u v : Z) (t : Tile) :
  getTile c u v = Some t ->
  getTile (snd (recoverTile s c x0 y0)) u v = Some t
  \/ getTile (snd (recoverTile s c x0 y0)) u v = Some (underRecovery t).
Proof.
  intro Ht. unfold recoverTile.
  destruct (activeDisaster s) as [d|]; [|left; assumption].
  destruct (find _ (affectedTiles d)) as [e|]; [|left; assumption].
  destruct (entryActive c e); [left; assumption|]. cbn [snd].
  destruct (getTile c (x e) (y e)) as [t0|] eqn:Ht0; [|left; assumption].
  rewrite getTile_setTile.
  destruct (Z.eqb_spec u (x e)), (Z.eqb_spec v (y e)); cbn [andb];
    try (left; assumption).
  subst. right. assert (t0 = t) by congruence. subst t0. reflexivity.
Qed.

Lemma recover_healthy (s : Service) (c : City) (x0 y0 : Z) :
  healthy s c -> healthy s (snd (recoverTile s c x0 y0)).
Proof.
  intros Hh d Hd. destruct (Hh d Hd) as (Hne & Hnd & Hall).
  split; [assumption|]. split; [assumption|].
  intros e He. destruct (Hall e He) as (HT & t & Ht & Hdam & Hp).
  split; [assumption|].
  destruct (recoverTile_tiles s c x0 y0 (x e) (y e) t Ht) as [H|H];
    eexists; (split; [exact H|]); auto.
Qed.

Lemma apply_healthy (op : DisasterTrace.Op) (s : Service) (c : City) :
  DisasterTrace.validOp op -> healthy s c ->
  healthy (fst (DisasterTrace.apply op (s, c))) (snd (DisasterTrace.apply op (s, c))).
Proof.
  intros Hv Hh. destruct op as [rnd|x0 y0]; cbn [DisasterTrace.apply fst snd].
  - destruct Hv as (_ & _ & Hsx & Hsy & Hrec).
    destruct (activeDisaster s) as [d|] eqn:Hd.
    + apply (advance_healthy rnd s c d); assumption.
    + apply trigger_healthy; assumption.
  - apply recover_healthy. assumption.
Qed.

Lemma run_healthy (ops : list DisasterTrace.Op) :
  forall s c,
    Forall DisasterTrace.validOp ops -> healthy s c ->
    healthy (fst (DisasterTrace.run ops (s, c))) (snd (DisasterTrace.run ops (s, c))).
Proof.
  induction ops as [|op ops IH]; intros s c Hv Hh; [exact Hh|].
  inversion Hv as [|? ? Hop Hrest]; subst.
  unfold DisasterTrace.run. cbn [fold_left].
  pose proof (apply_healthy op s c Hop Hh) as H1.
  destruct (DisasterTrace.apply op (s, c)) as [s1 c1]. cbn [fst snd] in H1.
  apply (IH s1 c1); assumption.
Qed.

(** X28: from a state without a hazard, after any sequence of ticks and
    recover commands whose draws lie in [0, 1), an active hazard lists at
    least one tile and no position twice, every recovery time lies between
    300 and 600 ticks, and every listed tile exists, is damaged and has a
    progress of at least 0 and below 1. *)
Theorem listed_tiles_stay_damaged_below_full_progress
    (ops : list DisasterTrace.Op) (s : Service) (c : City) (d : Disaster) :
  activeDisaster s = None ->
  Forall DisasterTrace.validOp ops ->
  activeDisaster (fst (DisasterTrace.run ops (s, c))) = Some d ->
  affectedTiles d <> []
  /\ NoDup (map coordsOf (affectedTiles d))
  /\ forall e, In e (affectedTiles d) ->
       300 <= totalRecoveryTicks e <= 600
       /\ exists t, getTile (snd (DisasterTrace.run ops (s, c))) (x e) (y e) = Some t
                    /\ damaged t = true
                    /\ (0 <= recoveryProgress t < 1)%Q.
Proof.
  intros Hnone Hv Hd.
  apply (run_healthy ops s c Hv); [|assumption].
  intros d0 Hd0. congruence.
Qed.

Lemma validOp_draws0 : DisasterTrace.validOp (DisasterTrace.Tick Samples.draws0).
Proof.
  repeat split; cbn; try discriminate; reflexivity.
Qed.

Lemma listed_tiles_stay_damaged_below_full_progress_witness :
  exists d,
    activeDisaster
      (fst (DisasterTrace.run
              [DisasterTrace.Tick Samples.draws0; DisasterTrace.RecoverTile 0 0;
               DisasterTrace.Tick Samples.draws0]
              (setNotifyFn initial, Samples.town))) = Some d
    /\ affectedTiles d <> [].
Proof.
  eexists. split; [reflexivity|].
  refine (proj1 (listed_tiles_stay_damaged_below_full_progress
            [DisasterTrace.Tick Samples.draws0; DisasterTrace.RecoverTile 0 0;
             DisasterTrace.Tick Samples.draws0]
            (setNotifyFn initial) Samples.town _ eq_refl _ eq_refl)).
  apply Forall_cons; [exact validOp_draws0|].
  apply Forall_cons; [exact I|].
  apply Forall_cons; [exact validOp_draws0|]. apply Forall_nil.
Defined.

(** *** The summary *)

Lemma round_percent (p : Q) : (0 <= p <= 1)%Q -> 0 <= round (p * 100) <= 100.
Proof.
  intros [H0 H1]. unfold round. split.
  - change 0 with (Qfloor 0). apply Qfloor_resp_le. lra.
  - assert (H : Qfloor (p * 100 + 0.5) <= Qfloor (100 + 0.5))
      by (apply Qfloor_resp_le; lra).
    exact H.
Qed.

Lemma estimate_bounds (p : Q) (total divisor : Z) :
  (0 <= p < 1)%Q -> 300 <= total <= 600 -> divisor = 1 \/ divisor = 5 ->
  1 <= estimate p total divisor <= 600
  /\ (divisor = 5 -> estimate p total divisor <= 120).
Proof.
  intros [Hp0 Hp1] [Ht0 Ht1] Hdiv. unfold estimate.
  rewrite Zle_Qle in Ht0, Ht1.
  set (tq := inject_Z total) in *.
  change (inject_Z 300) with 300%Q in Ht0. change (inject_Z 600) with 600%Q in Ht1.
  assert (Hv : (0 < (1 - p) * tq)%Q).
  { apply Qmult_lt_0_compat; lra. }
  assert (Hw : ((1 - p) * tq <= 600)%Q).
  { apply Qle_trans with (1 * tq)%Q; [|lra].
    apply Qmult_le_compat_r; lra. }
  set (v := ((1 - p) * tq)%Q) in *.
  destruct Hdiv as [->| ->].
  - assert (Hq : (v / inject_Z 1 == v)%Q) by (unfold Qdiv; change (/ inject_Z 1)%Q with 1%Q; ring).
    rewrite Hq. split; [split|discriminate].
    + apply RequestEngineMore.Qceiling_pos. assumption.
    + change 600 with (Qceiling 600%Q). apply Qceiling_resp_le. assumption.
  - assert (Hq : (v / inject_Z 5 == v * (1 # 5))%Q)
      by (unfold Qdiv; change (/ inject_Z 5)%Q with (1 # 5)%Q; reflexivity).
    rewrite Hq.
    assert (H120 : Qceiling (v * (1 # 5)) <= 120).
    { change 120 with (Qceiling 120%Q). apply Qceiling_resp_le. lra. }
    split; [split|intros _; assumption].
    + apply RequestEngineMore.Qceiling_pos. lra.
    + lia.
Qed.

Lemma sumProgress_bounds (c : City) (l : list AffectedTile) :
  (forall e, In e l -> (0 <= entryProgress c e <= 1)%Q) ->
  forall init,
    (init <= fold_left (fun sum t => (sum + entryProgress c t)%Q) l init
     <= init + inject_Z (Z.of_nat (length l)))%Q.
Proof.
  induction l as [|a l IH]; intros Hall init.
  - cbn [fold_left length]. change (inject_Z (Z.of_nat 0)) with 0%Q. lra.
  - cbn [fold_left length].
    destruct (Hall a (or_introl eq_refl)) as [Ha0 Ha1].
    destruct (IH (fun e He => Hall e (or_intror He)) (init + entryProgress c a)%Q)
      as [I0 I1].
    rewrite Nat2Z.inj_succ. unfold Z.succ. rewrite inject_Z_plus.
    change (inject_Z 1) with 1%Q. lra.
Qed.

Lemma average_bounds (sum : Q) (n : nat) :
  (0 < n)%nat -> (0 <= sum <= inject_Z (Z.of_nat n))%Q ->
  (0 <= sum / inject_Z (Z.of_nat n) <= 1)%Q.
Proof.
  intros Hn [H0 H1].
  assert (Hpos : (0 < inject_Z (Z.of_nat n))%Q).
  { change 0%Q with (inject_Z 0). rewrite <- Zlt_Qlt. lia. }
  split.
  - apply Qle_shift_div_l; [assumption|]. lra.
  - apply Qle_shift_div_r; [assumption|]. lra.
Qed.

(** X29: the summary of an active hazard in a state as the service keeps
    it (a list that is not empty and names no position twice, whose tiles
    exist, are damaged and have a progress of at least 0 and below 1, with
    recovery times of 300 to 600 ticks): it counts at least one tile, no
    more tiles under active recovery than tiles, reports an average and
    every per-tile progress between 0 and 100 percent, and estimates between
    1 and 600 seconds for each tile, at most 120 for a tile under active
    recovery; it names the epicenter and lists the positions of the tiles in
    order. *)
Theorem hazard_summary_bounds (s : Service) (c : City) (info : ActiveInfo) :
  healthy s c ->
  getDisasterInfo s c = Active info ->
  1 <= i_affectedTileCount info
  /\ 0 <= activeRecoveryCount info <= i_affectedTileCount info
  /\ (exists a, averageRecoveryProgress info = Some a /\ 0 <= a <= 100)
  /\ (exists d, activeDisaster s = Some d
                /\ epicenter info = (epicenterX d, epicenterY d)
                /\ map (fun ci => (ci_x ci, ci_y ci)) (affectedCoords info)
                   = map coordsOf (affectedTiles d))
  /\ (forall ci, In ci (affectedCoords info) ->
        0 <= ci_progress ci <= 100
        /\ 1 <= ci_estimatedSeconds ci <= 600
        /\ (ci_activeRecovery ci = true -> ci_estimatedSeconds ci <= 120)).
Proof.
  intros Hh Hinfo. unfold getDisasterInfo in Hinfo.
  destruct (activeDisaster s) as [d|] eqn:Hd; [|discriminate].
  destruct (Hh d Hd) as (Hne & Hnd & Hall).
  injection Hinfo as <-.
  cbn [i_affectedTileCount activeRecoveryCount averageRecoveryProgress
       affectedCoords epicenter].
  assert (Hprog : forall e, In e (affectedTiles d) ->
                    (0 <= entryProgress c e < 1)%Q).
  { intros e He. destruct (Hall e He) as (_ & t & Ht & _ & Hp).
    unfold entryProgress. rewrite Ht. exact Hp. }
  assert (Hlen : (0 < length (affectedTiles d))%nat).
  { destruct (affectedTiles d); [congruence | cbn [length]; lia]. }
  split; [lia|].
  split.
  { pose proof (length_filter_le (entryActive c) (affectedTiles d)). lia. }
  split.
  { destruct (length (affectedTiles d)) as [|n] eqn:Hn; [lia|].
    cbn [option_map]. eexists. split; [reflexivity|].
    apply round_percent. rewrite <- Hn. apply average_bounds; [lia|].
    pose proof (sumProgress_bounds c (affectedTiles d)
                  (fun e He => conj (proj1 (Hprog e He))
                                    (Qlt_le_weak _ _ (proj2 (Hprog e He)))) 0%Q)
      as [S0 S1].
    unfold sumProgress. split; [assumption|]. lra. }
  split.
  { exists d. split; [reflexivity|]. split; [reflexivity|].
    rewrite map_map. reflexivity. }
  intros ci Hci. apply in_map_iff in Hci. destruct Hci as (e & <- & He).
  cbn [ci_progress ci_estimatedSeconds ci_activeRecovery].
  destruct (Hall e He) as (HT & _).
  pose proof (Hprog e He) as [P0 P1].
  split.
  { apply round_percent. split; [assumption | apply Qlt_le_weak; assumption]. }
  destruct (entryActive c e).
  - destruct (estimate_bounds (entryProgress c e) (totalRecoveryTicks e) 5
                (conj P0 P1) HT (or_intror eq_refl)) as [B1 B2].
    split; [exact B1|]. intros _. exact (B2 eq_refl).
  - destruct (estimate_bounds (entryProgress c e) (totalRecoveryTicks e) 1
                (conj P0 P1) HT (or_introl eq_refl)) as [B1 _].
    split; [exact B1|discriminate].
Qed.

Lemma quake_healthy : healthy Samples.service1 (cityOf Samples.quake).
Proof.
  apply trigger_healthy; try exact validDraw_0; [reflexivity|].
  intro k. exact validDraw_0.
Qed.

Lemma hazard_summary_bounds_witness :
  exists info,
    getDisasterInfo Samples.service1 (cityOf Samples.quake) = Active info
    /\ 1 <= i_affectedTileCount info.
Proof.
  eexists. split; [reflexivity|].
  exact (proj1 (hazard_summary_bounds Samples.service1 (cityOf Samples.quake) _
                  quake_healthy eq_refl)).
Defined.

End DisasterServiceMore.
